(** * Perspective [Table]: row identity, capacity ring and gnode binding

    A shallow embedding of [perspective::Table] (src/cpp/table.cpp) and the
    properties of its ingestion protocol: operation tagging, primary-key
    synthesis, the offset/limit ring, the construction of the dataflow node
    and the initialisation guard of the accessors. *)

From stdpp Require Import base list strings.
From Stdlib Require Import ZArith Lia.

Local Open Scope Z_scope.

(** ** Machine integers

    [std::uint32_t], [std::int32_t] and [t_uindex] values are integers of
    [Z]; every operation of the source that can leave the range is followed
    by the wrap-around of its type. *)

Definition UINT32_MAX : Z := 2 ^ 32 - 1.

(** Arithmetic on [std::uint32_t] is modulo [2 ^ 32]. *)
Definition wrap_uint32 (z : Z) : Z := z mod 2 ^ 32.

(** Conversion of a value to [std::int32_t] (two's complement). *)
Definition wrap_int32 (z : Z) : Z := (z + 2 ^ 31) mod 2 ^ 32 - 2 ^ 31.

(** [t_uindex] is the 64-bit unsigned index type. *)
Definition wrap_uindex (z : Z) : Z := z mod 2 ^ 64.

(** ** Errors

    The source aborts through [PSP_VERBOSE_ASSERT] or runs into undefined
    behaviour; every such exit is a value of [error]. *)

Inductive error : Type :=
  | UninitializedError   (* PSP_VERBOSE_ASSERT(m_init, "touching uninited object") *)
  | GnodeNotSet          (* PSP_VERBOSE_ASSERT(m_gnode_set, "gnode is not set!") *)
  | ConfigError          (* named by the specification; never raised by table.cpp *)
  | SchemaError          (* a column that is asked for is not in the block *)
  | DivideByZero         (* [% m_limit] with [m_limit == 0] *)
  | EraseOutOfRange      (* [vector::erase] at or past [end()] *)
  | NullGnode            (* [m_gnode->...] on an empty shared pointer *)
  | LoopDiverges.        (* a 32-bit counter that can never reach its bound *)

Inductive result (A : Type) : Type :=
  | Ok (a : A)
  | Err (e : error).
Arguments Ok {A} a.
Arguments Err {A} e.

Definition result_bind {A B : Type} (f : A → result B) (r : result A) : result B :=
  match r with
  | Ok a => f a
  | Err e => Err e
  end.

#[global] Instance result_ret : MRet result := λ A a, Ok a.
#[global] Instance result_mbind : MBind result := λ A B f r, result_bind f r.

Definition is_ok {A : Type} (r : result A) : bool :=
  match r with Ok _ => true | Err _ => false end.

(** [PSP_VERBOSE_ASSERT(cond, msg)]: continue when [cond] holds, abort with
    the error standing for [msg] otherwise. *)
Definition PSP_VERBOSE_ASSERT (cond : bool) (e : error) : result unit :=
  if cond then Ok () else Err e.

(** ** Column types, operations, schemas *)

Inductive t_dtype : Type :=
  | DTYPE_UINT8 | DTYPE_INT32 | DTYPE_INT64 | DTYPE_FLOAT64 | DTYPE_BOOL | DTYPE_STR.

#[global] Instance t_dtype_eq_dec : EqDecision t_dtype.
Proof. solve_decision. Defined.

(** Modelled from the spec: the enumeration [t_op] is declared outside
    table.cpp.  The operation tag has the values [INSERT] and [DELETE]; a
    third value stands for every other operation a caller may pass, which the
    [switch] of [process_op_column] sends to its [default] branch. *)
Inductive t_op : Type :=
  | OP_INSERT | OP_DELETE | OP_CLEAR.

#[global] Instance t_op_eq_dec : EqDecision t_op.
Proof. solve_decision. Defined.

(** The byte stored in the operation column for a tag. *)
Definition op_code (op : t_op) : Z :=
  match op with
  | OP_INSERT => 0
  | OP_DELETE => 1
  | OP_CLEAR => 2
  end.

(** Modelled from the spec: [t_schema] is declared outside table.cpp.  A
    schema is the ordered sequence of column names with the parallel sequence
    of their types; [has_column] tells whether a name occurs and
    [get_colidx] gives the position of a name. *)
Record t_schema : Type := mk_schema {
  columns : list string;
  types : list t_dtype
}.

Fixpoint index_of (name : string) (l : list string) : option nat :=
  match l with
  | [] => None
  | x :: l' => if decide (x = name) then Some 0%nat else S <$> index_of name l'
  end.

Definition has_column (s : t_schema) (name : string) : bool :=
  bool_decide (name ∈ columns s).

Definition get_colidx (s : t_schema) (name : string) : option nat :=
  index_of name (columns s).

(** ** Columns and data tables *)

(** Modelled from the spec: [t_column] is declared outside table.cpp.  A
    column has a type, a validity flag and one cell per row; [raw_fill]
    writes one value into every cell, [set_nth] writes one cell. *)
Record t_column : Type := mk_column {
  col_dtype : t_dtype;
  col_status_enabled : bool;
  col_data : list Z
}.

Definition raw_fill (v : Z) (c : t_column) : t_column :=
  mk_column (col_dtype c) (col_status_enabled c)
            (replicate (length (col_data c)) v).

Definition set_nth (ridx : nat) (v : Z) (c : t_column) : t_column :=
  mk_column (col_dtype c) (col_status_enabled c) (<[ridx := v]> (col_data c)).

(** Modelled from the spec: [t_data_table] is declared outside table.cpp.  A
    block of rows is a row count and a mutable, ordered set of named columns.
    [add_column] hands back the column of that name, creating it with one
    cell per row when the block has none; [clone_column] appends a copy of an
    existing column under a new name and fails with [SchemaError] when the
    block lacks the column to copy.  A column is addressed by its position,
    which is what the pointers returned in the source denote. *)
Record t_data_table : Type := mk_data_table {
  dt_size : nat;
  dt_columns : list (string * t_column)
}.

Definition dt_names (dt : t_data_table) : list string := (dt_columns dt).*1.

Definition data_table_get_schema (dt : t_data_table) : t_schema :=
  mk_schema (dt_names dt) ((λ nc, col_dtype nc.2) <$> dt_columns dt).

Definition get_column (dt : t_data_table) (name : string) : option t_column :=
  i ← index_of name (dt_names dt); snd <$> dt_columns dt !! i.

Definition update_column (cidx : nat) (f : t_column → t_column)
    (dt : t_data_table) : t_data_table :=
  mk_data_table (dt_size dt) (alter (prod_map id f) cidx (dt_columns dt)).

Definition add_column (name : string) (dtype : t_dtype) (status_enabled : bool)
    (dt : t_data_table) : t_data_table * nat :=
  match index_of name (dt_names dt) with
  | Some cidx => (dt, cidx)
  | None =>
      (mk_data_table (dt_size dt)
         (dt_columns dt ++
            [(name, mk_column dtype status_enabled (replicate (dt_size dt) 0))]),
       length (dt_columns dt))
  end.

Definition clone_column (existing_col new_colname : string)
    (dt : t_data_table) : result t_data_table :=
  match get_column dt existing_col with
  | Some c => Ok (mk_data_table (dt_size dt) (dt_columns dt ++ [(new_colname, c)]))
  | None => Err SchemaError
  end.

(** [std::vector::erase(begin() + idx)]: defined only for a position before
    [end()]. *)
Definition vector_erase {A : Type} (idx : nat) (v : list A) : result (list A) :=
  if decide (idx < length v)%nat then Ok (delete idx v) else Err EraseOutOfRange.

(** ** Dataflow nodes and the pool *)

(** Modelled from the spec: [t_gnode] is declared outside table.cpp.  A node
    is constructed from an output schema and an input schema, is initialised
    by [init()], carries the identifier the pool gave it and owns a sized,
    schema-queryable block. *)
Record t_gnode : Type := mk_gnode {
  gn_id : Z;
  gn_tblschema : t_schema;      (* the externally visible (output) schema *)
  gn_port_schema : t_schema;    (* the input schema *)
  gn_inited : bool;
  gn_table_size : Z
}.

Definition gnode_construct (out_schema in_schema : t_schema) : t_gnode :=
  mk_gnode 0 out_schema in_schema false 0.

Definition gnode_init (g : t_gnode) : t_gnode :=
  mk_gnode (gn_id g) (gn_tblschema g) (gn_port_schema g) true (gn_table_size g).

Definition gnode_set_id (id : Z) (g : t_gnode) : t_gnode :=
  mk_gnode id (gn_tblschema g) (gn_port_schema g) (gn_inited g) (gn_table_size g).

(** What the pool was asked to do, in order. *)
Inductive pool_event : Type :=
  | EvRegister (addr : nat) (id : Z)
  | EvSend (id : Z) (port : Z) (block : t_data_table)
  | EvProcess
  | EvUnregister (id : Z)
  | EvReset (id : Z).

(** The part of the process that a [Table] shares with its environment: the
    counter [GLOBAL_TABLE_ID], the [t_gnode] objects behind the shared
    pointers (a pointer is a position in [gnodes]) and the pool. *)
Record world : Type := mk_world {
  GLOBAL_TABLE_ID : Z;
  gnodes : list t_gnode;
  pool_registry : list (Z * nat);    (* identifier, address *)
  pool_next_id : Z;
  pool_events : list pool_event
}.

Definition with_events (w : world) (evs : list pool_event) : world :=
  mk_world (GLOBAL_TABLE_ID w) (gnodes w) (pool_registry w) (pool_next_id w) evs.

(** [std::make_shared<t_gnode>(...)]: a new object at a new address. *)
Definition alloc_gnode (g : t_gnode) (w : world) : world * nat :=
  (mk_world (GLOBAL_TABLE_ID w) (gnodes w ++ [g]) (pool_registry w)
            (pool_next_id w) (pool_events w),
   length (gnodes w)).

(** Modelled from the spec: [t_pool] is declared outside table.cpp.
    [register(node) -> node_id] gives the node a new identifier and records
    it; [send(node_id, port, batch)] queues a block; [force_process()] runs
    the pending work; [get_node(node_id)] looks a node up;
    [unregister(node_id)] forgets it. *)
Definition register_gnode (addr : nat) (w : world) : world :=
  let id := pool_next_id w in
  mk_world (GLOBAL_TABLE_ID w)
           (alter (gnode_set_id id) addr (gnodes w))
           ((id, addr) :: pool_registry w)
           (id + 1)
           (pool_events w ++ [EvRegister addr id]).

Definition send (id port : Z) (block : t_data_table) (w : world) : world :=
  with_events w (pool_events w ++ [EvSend id port block]).

Definition _process (w : world) : world :=
  with_events w (pool_events w ++ [EvProcess]).

Definition pool_get_gnode (id : Z) (w : world) : option nat :=
  (λ e : nat * (Z * nat), e.2.2) <$>
    list_find (λ e : Z * nat, e.1 = id) (pool_registry w).

Definition pool_unregister_gnode (id : Z) (w : world) : world :=
  mk_world (GLOBAL_TABLE_ID w) (gnodes w)
           (filter (λ e : Z * nat, e.1 ≠ id) (pool_registry w))
           (pool_next_id w)
           (pool_events w ++ [EvUnregister id]).

(** ** The table *)

(** Modelled from the spec: the declaration of the class (table.h) is
    outside table.cpp.  The fields are the ones the constructor initialises;
    [m_offset] and [m_limit] are [std::uint32_t], the type of the
    constructor's [limit] and of the row counts they are added to and
    compared with; [m_id] is a [t_uindex]; the shared pointers [m_pool] and
    [m_gnode] are addresses, [m_gnode] empty until [set_gnode]. *)
Record Table : Type := mk_Table {
  m_init : bool;
  m_id : Z;
  m_pool : nat;
  m_gnode : option nat;
  m_column_names : list string;
  m_data_types : list t_dtype;
  m_offset : Z;
  m_limit : Z;
  m_index : string;
  m_gnode_set : bool
}.

(** [Table::Table]: takes the next identifier and stores its arguments; the
    [std::uint32_t] parameter [limit] is converted on the way in. *)
Definition Table_new (pool : nat) (column_names : list string)
    (data_types : list t_dtype) (limit : Z) (index : string)
    (w : world) : world * Table :=
  (mk_world (wrap_uindex (GLOBAL_TABLE_ID w + 1)) (gnodes w) (pool_registry w)
            (pool_next_id w) (pool_events w),
   mk_Table false (GLOBAL_TABLE_ID w) pool None column_names data_types
            0 (wrap_uint32 limit) index false).

Definition set_offset (o : Z) (t : Table) : Table :=
  mk_Table (m_init t) (m_id t) (m_pool t) (m_gnode t) (m_column_names t)
           (m_data_types t) o (m_limit t) (m_index t) (m_gnode_set t).

Definition set_init (t : Table) : Table :=
  mk_Table true (m_id t) (m_pool t) (m_gnode t) (m_column_names t)
           (m_data_types t) (m_offset t) (m_limit t) (m_index t) (m_gnode_set t).

(** [Table::set_gnode] *)
Definition set_gnode (gnode : nat) (t : Table) : Table :=
  mk_Table (m_init t) (m_id t) (m_pool t) (Some gnode) (m_column_names t)
           (m_data_types t) (m_offset t) (m_limit t) (m_index t) true.

(** [Table::set_column_names] *)
Definition set_column_names (column_names : list string) (t : Table) : Table :=
  mk_Table (m_init t) (m_id t) (m_pool t) (m_gnode t) column_names
           (m_data_types t) (m_offset t) (m_limit t) (m_index t) (m_gnode_set t).

(** [Table::set_data_types] *)
Definition set_data_types (data_types : list t_dtype) (t : Table) : Table :=
  mk_Table (m_init t) (m_id t) (m_pool t) (m_gnode t) (m_column_names t)
           data_types (m_offset t) (m_limit t) (m_index t) (m_gnode_set t).

(** [Table::calculate_offset]: [m_offset = (m_offset + row_count) % m_limit]
    on [std::uint32_t]. *)
Definition calculate_offset (row_count : Z) (t : Table) : result Table :=
  if decide (m_limit t = 0) then Err DivideByZero
  else Ok (set_offset (wrap_uint32 (m_offset t + row_count) mod m_limit t) t).

(** [Table::process_op_column] *)
Definition process_op_column (op : t_op) (data_table : t_data_table) : t_data_table :=
  let '(data_table, op_col) := add_column "psp_op" DTYPE_UINT8 false data_table in
  match op with
  | OP_DELETE => update_column op_col (raw_fill (op_code OP_DELETE)) data_table
  | _ => update_column op_col (raw_fill (op_code OP_INSERT)) data_table
  end.

(** The value written for row [ridx]: [(ridx + m_offset) % m_limit] on
    [std::uint32_t], converted to the [std::int32_t] that [set_nth] takes. *)
Definition synthesized_key (t : Table) (ridx : nat) : Z :=
  wrap_int32 (wrap_uint32 (Z.of_nat ridx + m_offset t) mod m_limit t).

(** The body of the [for] loop of [process_index_column], for the rows still
    to visit. *)
Fixpoint key_loop (t : Table) (key_col okey_col : nat) (rows : list nat)
    (data_table : t_data_table) : result t_data_table :=
  match rows with
  | [] => Ok data_table
  | ridx :: rows' =>
      if decide (m_limit t = 0) then Err DivideByZero
      else
        let data_table :=
          update_column key_col (set_nth ridx (synthesized_key t ridx)) data_table in
        let data_table :=
          update_column okey_col (set_nth ridx (synthesized_key t ridx)) data_table in
        key_loop t key_col okey_col rows' data_table
  end.

(** [Table::process_index_column].  The counter [ridx] is a [std::uint32_t]
    compared with the 64-bit row count: with [2 ^ 32] rows or more the loop
    has no exit (and divides by zero in its first round when the limit is
    zero). *)
Definition process_index_column (t : Table) (data_table : t_data_table)
    : result t_data_table :=
  if decide (m_index t = EmptyString) then
    let '(data_table, key_col) := add_column "psp_pkey" DTYPE_INT32 true data_table in
    let '(data_table, okey_col) := add_column "psp_okey" DTYPE_INT32 true data_table in
    if decide (2 ^ 32 ≤ Z.of_nat (dt_size data_table)) then
      if decide (m_limit t = 0) then Err DivideByZero else Err LoopDiverges
    else key_loop t key_col okey_col (seq 0 (dt_size data_table)) data_table
  else
    data_table ← clone_column (m_index t) "psp_pkey" data_table;
    clone_column (m_index t) "psp_okey" data_table.

(** One [if (in_schema.has_column(name)) { ... erase ... }] block of
    [make_gnode]: the position is looked up in [in_schema], the erasure is
    done on the two working vectors. *)
Definition erase_if_present (in_schema : t_schema) (name : string)
    (vs : list string * list t_dtype) : result (list string * list t_dtype) :=
  if has_column in_schema name then
    match get_colidx in_schema name with
    | Some idx =>
        col_names ← vector_erase idx vs.1;
        data_types ← vector_erase idx vs.2;
        Ok (col_names, data_types)
    | None => Err SchemaError
    end
  else Ok vs.

(** The output schema that [make_gnode] computes from [in_schema]. *)
Definition make_out_schema (in_schema : t_schema) : result t_schema :=
  vs ← erase_if_present in_schema "psp_pkey" (columns in_schema, types in_schema);
  vs ← erase_if_present in_schema "psp_op" vs;
  Ok (mk_schema vs.1 vs.2).

(** [Table::make_gnode] *)
Definition make_gnode (in_schema : t_schema) (w : world) : result (world * nat) :=
  out_schema ← make_out_schema in_schema;
  Ok (alloc_gnode (gnode_init (gnode_construct out_schema in_schema)) w).

(** [m_gnode->...]: the object behind the shared pointer of the table. *)
Definition deref_gnode (t : Table) (w : world) : result t_gnode :=
  match m_gnode t with
  | Some addr =>
      match gnodes w !! addr with
      | Some g => Ok g
      | None => Err NullGnode
      end
  | None => Err NullGnode
  end.

(** [Table::init]; the block is passed by reference, so the block as the
    call leaves it is part of the result. *)
Definition init (data_table : t_data_table) (row_count : Z) (op : t_op)
    (w : world) (t : Table) : result (world * Table * t_data_table) :=
  let data_table := process_op_column op data_table in
  data_table ← process_index_column t data_table;
  t ← calculate_offset row_count t;
  '(w, t) ←
    (if negb (m_gnode_set t) then
       '(w, new_gnode) ← make_gnode (data_table_get_schema data_table) w;
       let t := set_gnode new_gnode t in
       match m_gnode t with
       | Some addr => Ok (register_gnode addr w, t)
       | None => Err NullGnode
       end
     else Ok (w, t));
  _ ← PSP_VERBOSE_ASSERT (m_gnode_set t) GnodeNotSet;
  g ← deref_gnode t w;
  let w := send (gn_id g) 0 data_table w in
  Ok (w, set_init t, data_table).

(** [Table::size] *)
Definition size (w : world) (t : Table) : result Z :=
  _ ← PSP_VERBOSE_ASSERT (m_init t) UninitializedError;
  g ← deref_gnode t w;
  Ok (gn_table_size g).

(** [Table::get_schema] *)
Definition get_schema (w : world) (t : Table) : result t_schema :=
  _ ← PSP_VERBOSE_ASSERT (m_init t) UninitializedError;
  g ← deref_gnode t w;
  Ok (gn_tblschema g).

(** [Table::replace_data_table] *)
Definition replace_data_table (data_table : t_data_table)
    (w : world) (t : Table) : result (world * Table) :=
  _ ← PSP_VERBOSE_ASSERT (m_init t) UninitializedError;
  '(w, new_gnode) ← make_gnode (data_table_get_schema data_table) w;
  let t := set_gnode new_gnode t in
  match m_gnode t with
  | Some addr =>
      let w := register_gnode addr w in
      g ← deref_gnode t w;
      let w := send (gn_id g) 0 data_table w in
      Ok (_process w, t)
  | None => Err NullGnode
  end.

(** [Table::unregister_gnode] *)
Definition unregister_gnode (id : Z) (w : world) (t : Table) : result world :=
  _ ← PSP_VERBOSE_ASSERT (m_init t) UninitializedError;
  Ok (pool_unregister_gnode id w).

(** [Table::reset_gnode] *)
Definition reset_gnode (id : Z) (w : world) (t : Table) : result world :=
  _ ← PSP_VERBOSE_ASSERT (m_init t) UninitializedError;
  match pool_get_gnode id w with
  | Some _ => Ok (with_events w (pool_events w ++ [EvReset id]))
  | None => Err NullGnode
  end.

(** [Table::get_id] *)
Definition get_id (t : Table) : Z := m_id t.

(** [Table::get_pool] *)
Definition get_pool (t : Table) : result nat :=
  _ ← PSP_VERBOSE_ASSERT (m_init t) UninitializedError;
  Ok (m_pool t).

(** [Table::get_gnode] *)
Definition get_gnode (t : Table) : result (option nat) :=
  _ ← PSP_VERBOSE_ASSERT (m_init t) UninitializedError;
  Ok (m_gnode t).

(** [Table::get_column_names] *)
Definition get_column_names (t : Table) : result (list string) :=
  _ ← PSP_VERBOSE_ASSERT (m_init t) UninitializedError;
  Ok (m_column_names t).

(** [Table::get_data_types] *)
Definition get_data_types (t : Table) : result (list t_dtype) :=
  _ ← PSP_VERBOSE_ASSERT (m_init t) UninitializedError;
  Ok (m_data_types t).

(** [Table::get_index] *)
Definition get_index (t : Table) : result string :=
  _ ← PSP_VERBOSE_ASSERT (m_init t) UninitializedError;
  Ok (m_index t).

(** ** Histories of a table

    The calls a client can make on a table after its construction, and the
    states a table can be in. *)

Inductive call : Type :=
  | CallInit (data_table : t_data_table) (row_count : Z) (op : t_op)
  | CallReplaceDataTable (data_table : t_data_table)
  | CallSetColumnNames (column_names : list string)
  | CallSetDataTypes (data_types : list t_dtype)
  | CallUnregisterGnode (id : Z)
  | CallResetGnode (id : Z).

Definition run_call (c : call) (w : world) (t : Table) : result (world * Table) :=
  match c with
  | CallInit data_table row_count op =>
      '(w, t, _) ← init data_table row_count op w t; Ok (w, t)
  | CallReplaceDataTable data_table => replace_data_table data_table w t
  | CallSetColumnNames column_names => Ok (w, set_column_names column_names t)
  | CallSetDataTypes data_types => Ok (w, set_data_types data_types t)
  | CallUnregisterGnode id => w ← unregister_gnode id w t; Ok (w, t)
  | CallResetGnode id => w ← reset_gnode id w t; Ok (w, t)
  end.

(** A call whose assertion fails has changed nothing (the assertion is the
    first statement of every guarded method) and the history goes on; a call
    that runs into another error is likewise taken as not made. *)
Definition step (wt : world * Table) (c : call) : world * Table :=
  match run_call c wt.1 wt.2 with
  | Ok wt' => wt'
  | Err _ => wt
  end.

Definition run_calls (cs : list call) (wt : world * Table) : world * Table :=
  foldl step wt cs.

(** A sequence of ingests, each of which has to succeed. *)
Fixpoint ingest_all (batches : list (t_data_table * Z * t_op))
    (w : world) (t : Table) : result (world * Table) :=
  match batches with
  | [] => Ok (w, t)
  | (data_table, row_count, op) :: batches' =>
      '(w, t, _) ← init data_table row_count op w t;
      ingest_all batches' w t
  end.

Definition empty_world : world := mk_world 0 [] [] 0 [].

(** ** Predicates used in the statements *)

(** The fields that no method but the setters of the declared schema writes. *)
Definition same_identity (t t' : Table) : Prop :=
  m_id t' = m_id t ∧ m_pool t' = m_pool t ∧ m_limit t' = m_limit t ∧
  m_index t' = m_index t.

Definition same_declared_schema (t t' : Table) : Prop :=
  m_column_names t' = m_column_names t ∧ m_data_types t' = m_data_types t.

(** The node a table points to exists. *)
Definition gnode_bound (w : world) (t : Table) : Prop :=
  ∃ addr g, m_gnode t = Some addr ∧ gnodes w !! addr = Some g.

Definition total_rows (batches : list (t_data_table * Z * t_op)) : Z :=
  foldr (λ b acc, b.1.2 + acc) 0 batches.

(** A batch whose row count cannot carry [m_offset + row_count] past
    [2 ^ 32] on a table of capacity [limit]. *)
Definition fits_ring (limit : Z) (b : t_data_table * Z * t_op) : Prop :=
  0 ≤ b.1.2 ∧ b.1.2 + limit ≤ 2 ^ 32.

(** The cell of row [ridx] in the column at position [cidx]. *)
Definition cell (dt : t_data_table) (cidx ridx : nat) : option Z :=
  dt_columns dt !! cidx ≫= λ nc, col_data nc.2 !! ridx.

(** The cells of the column called [name]. *)
Definition column_cells (dt : t_data_table) (name : string) : option (list Z) :=
  col_data <$> get_column dt name.

(** The type of the column called [name]. *)
Definition column_dtype (dt : t_data_table) (name : string) : option t_dtype :=
  col_dtype <$> get_column dt name.

(** Every column has one cell per row. *)
Definition wf_data_table (dt : t_data_table) : Prop :=
  Forall (λ nc : string * t_column, length (col_data nc.2) = dt_size dt) (dt_columns dt).

(** Whether some [init] of the history [cs], run from [wt], went through. *)
Definition is_init_call (c : call) : bool :=
  match c with CallInit _ _ _ => true | _ => false end.

Fixpoint ingested (cs : list call) (wt : world * Table) : bool :=
  match cs with
  | [] => false
  | c :: cs' =>
      (is_init_call c && is_ok (run_call c wt.1 wt.2)) || ingested cs' (step wt c)
  end.

(** An initialised table points to a node that exists. *)
Definition bound_when_init (wt : world * Table) : Prop :=
  m_init wt.2 = true → gnode_bound wt.1 wt.2.

(** The output schema in the words of the specification: the input schema
    without the primary-key and the operation-tag column, the other columns
    with their types in their order. *)
Definition strip_synthetic (s : t_schema) : t_schema :=
  let kept :=
    filter (λ p : string * t_dtype, p.1 ≠ "psp_op" ∧ p.1 ≠ "psp_pkey")
           (zip (columns s) (types s)) in
  mk_schema kept.*1 kept.*2.

(** ** Sample data

    Small blocks and tables on which the properties below are instantiated. *)

Definition int64_column (cells : list Z) : t_column :=
  mk_column DTYPE_INT64 true cells.

(** One row, one user column. *)
Definition one_row : t_data_table :=
  mk_data_table 1 [("x", int64_column [7])].

(** Three rows with a user key column ["id"]. *)
Definition id_rows : t_data_table :=
  mk_data_table 3 [("id", int64_column [10; 11; 12]); ("x", int64_column [1; 2; 3])].

(** A new table of capacity 3 without an index column. *)
Definition ring3 : world * Table :=
  Table_new 0%nat ["x"] [DTYPE_INT64] 3 EmptyString empty_world.

(** A world with one registered node, and a table of the largest capacity
    that has taken in [offset] rows so far. *)
Definition busy_world : world :=
  mk_world 1
    [mk_gnode 0 (mk_schema ["x"; "psp_okey"] [DTYPE_INT64; DTYPE_INT32])
       (mk_schema ["x"; "psp_op"; "psp_pkey"; "psp_okey"]
          [DTYPE_INT64; DTYPE_UINT8; DTYPE_INT32; DTYPE_INT32]) true 0]
    [(0, 0%nat)] 1 [EvRegister 0 0].

Definition busy_table (offset : Z) : Table :=
  mk_Table true 0 0%nat (Some 0%nat) ["x"] [DTYPE_INT64] offset UINT32_MAX EmptyString true.

Definition two_rows : t_data_table :=
  mk_data_table 2 [("x", int64_column [7; 8])].

(** A new table keyed by the user column ["id"]. *)
Definition id_table : world * Table :=
  Table_new 0%nat ["id"; "x"] [DTYPE_INT64; DTYPE_INT64] UINT32_MAX "id" empty_world.

(** Two rows that carry the same user key. *)
Definition dup_rows : t_data_table :=
  mk_data_table 2 [("id", int64_column [10; 10]); ("x", int64_column [1; 2])].

(** A schema that lists the primary-key column before the operation
    column, and one that lists it after. *)
Definition pkey_first_schema : t_schema :=
  mk_schema ["psp_pkey"; "psp_op"; "x"] [DTYPE_INT32; DTYPE_UINT8; DTYPE_STR].

Definition op_first_schema : t_schema :=
  mk_schema ["psp_op"; "psp_pkey"; "x"] [DTYPE_UINT8; DTYPE_INT32; DTYPE_STR].

(** A block with the columns of [pkey_first_schema]. *)
Definition pkey_first_block : t_data_table :=
  mk_data_table 1
    [("psp_pkey", mk_column DTYPE_INT32 true [0]);
     ("psp_op", mk_column DTYPE_UINT8 false [0]);
     ("x", mk_column DTYPE_STR true [7])].

(** A schema whose last column is the operation column, with the
    primary-key column before it. *)
Definition op_last_schema : t_schema :=
  mk_schema ["x"; "psp_pkey"; "psp_op"] [DTYPE_STR; DTYPE_INT32; DTYPE_UINT8].

(** A table of the largest capacity, newly constructed, and a batch of [n]
    rows with one user column. *)
Definition unbounded : world * Table :=
  Table_new 0%nat ["x"] [DTYPE_INT64] UINT32_MAX EmptyString empty_world.

Definition rows_batch (n : Z) : t_data_table :=
  mk_data_table (Z.to_nat n) [("x", int64_column (replicate (Z.to_nat n) 0))].

(** A schema with further columns after its own. *)
Definition schema_app (s : t_schema) (cols : list (string * t_dtype)) : t_schema :=
  mk_schema (columns s ++ cols.*1) (types s ++ cols.*2).

(** A block that brings none of the three synthetic columns, its columns
    named apart. *)
Definition user_block (dt : t_data_table) : Prop :=
  NoDup (dt_names dt) ∧
  ("psp_op" ∉ dt_names dt) ∧ ("psp_pkey" ∉ dt_names dt) ∧
  ("psp_okey" ∉ dt_names dt).

(** A new table of capacity 2 without an index column. *)
Definition ring2 : world * Table :=
  Table_new 0%nat ["x"] [DTYPE_INT64] 2 EmptyString empty_world.

(** The declared column names and types a history leaves: those of its last
    [set_column_names] and [set_data_types], or the ones it started with. *)
Definition last_column_names (cs : list call) (start : list string) : list string :=
  foldl (λ acc c, match c with CallSetColumnNames ns => ns | _ => acc end) start cs.

Definition last_data_types (cs : list call) (start : list t_dtype) : list t_dtype :=
  foldl (λ acc c, match c with CallSetDataTypes ts => ts | _ => acc end) start cs.

(** Tables constructed one after the other in one process, each with the
    arguments of its constructor and followed by a history of calls on it. *)
Record construction : Type := mk_construction {
  c_pool : nat;
  c_column_names : list string;
  c_data_types : list t_dtype;
  c_limit : Z;
  c_index : string;
  c_calls : list call
}.

Fixpoint construct_all (items : list construction) (w : world) : world * list Table :=
  match items with
  | [] => (w, [])
  | it :: items' =>
      let wt := run_calls (c_calls it)
                  (Table_new (c_pool it) (c_column_names it) (c_data_types it)
                     (c_limit it) (c_index it) w) in
      let rest := construct_all items' wt.1 in
      (rest.1, wt.2 :: rest.2)
  end.

(** A block with the columns of [op_last_schema]. *)
Definition op_last_block : t_data_table :=
  mk_data_table 1
    [("x", mk_column DTYPE_STR true [7]);
     ("psp_pkey", mk_column DTYPE_INT32 true [0]);
     ("psp_op", mk_column DTYPE_UINT8 false [0])].

(** A table of capacity 3 that has ingested one row. *)
Definition ring3_ingested : world * Table :=
  run_calls [CallInit one_row 1 OP_INSERT] ring3.

(** * Properties *)

(** ** The result monad *)

Lemma bind_Ok {A B : Type} (f : A → result B) (r : result A) (b : B) :
  r ≫= f = Ok b ↔ ∃ a, r = Ok a ∧ f a = Ok b.
Proof.
  destruct r as [a|e]; simpl; split.
  - intros H. exists a. split; [reflexivity | exact H].
  - intros (a' & Ha & Hf). injection Ha as ->. exact Hf.
  - intros H. discriminate H.
  - intros (a' & Ha & _). discriminate Ha.
Qed.

Lemma assert_Ok (cond : bool) (e : error) (u : unit) :
  PSP_VERBOSE_ASSERT cond e = Ok u ↔ cond = true.
Proof.
  destruct cond, u; simpl; split; intros H; try reflexivity; discriminate H.
Qed.

(** ** Machine integers *)

Lemma wrap_uint32_range (z : Z) : 0 ≤ wrap_uint32 z < 2 ^ 32.
Proof. unfold wrap_uint32. apply Z.mod_pos_bound. lia. Qed.

Lemma wrap_uint32_small (z : Z) : 0 ≤ z < 2 ^ 32 → wrap_uint32 z = z.
Proof. intros H. unfold wrap_uint32. apply Z.mod_small. exact H. Qed.

Lemma wrap_int32_small (z : Z) : 0 ≤ z < 2 ^ 31 → wrap_int32 z = z.
Proof.
  intros H. unfold wrap_int32. rewrite Z.mod_small; lia.
Qed.

Lemma wrap_int32_large (z : Z) :
  2 ^ 31 ≤ z < 2 ^ 32 → wrap_int32 z = z - 2 ^ 32.
Proof.
  intros H. unfold wrap_int32.
  replace (z + 2 ^ 31) with ((z - 2 ^ 31) + 1 * 2 ^ 32) by lia.
  rewrite Z.mod_add by lia. rewrite Z.mod_small; lia.
Qed.

Lemma wrap_int32_inj (x y : Z) :
  0 ≤ x < 2 ^ 32 → 0 ≤ y < 2 ^ 32 → wrap_int32 x = wrap_int32 y → x = y.
Proof.
  intros Hx Hy.
  destruct (Z_lt_ge_dec x (2 ^ 31)), (Z_lt_ge_dec y (2 ^ 31));
    rewrite ?(wrap_int32_small x), ?(wrap_int32_small y),
            ?(wrap_int32_large x), ?(wrap_int32_large y) by lia; lia.
Qed.

(** ** The capacity ring *)

Lemma calculate_offset_Ok (row_count : Z) (t t' : Table) :
  calculate_offset row_count t = Ok t' →
  m_limit t ≠ 0 ∧
  t' = set_offset (wrap_uint32 (m_offset t + row_count) mod m_limit t) t.
Proof.
  unfold calculate_offset. destruct (decide (m_limit t = 0)) as [H0|H0].
  - intros H. discriminate H.
  - intros H. injection H as <-. split; [exact H0 | reflexivity].
Qed.

Lemma calculate_offset_zero_limit (row_count : Z) (t : Table) :
  m_limit t = 0 → calculate_offset row_count t = Err DivideByZero.
Proof.
  intros H. unfold calculate_offset. destruct (decide (m_limit t = 0)); [reflexivity | contradiction].
Qed.

(** ** What [init] does to the table *)

Lemma deref_gnode_Ok (t : Table) (w : world) (g : t_gnode) :
  deref_gnode t w = Ok g ↔
  ∃ addr, m_gnode t = Some addr ∧ gnodes w !! addr = Some g.
Proof.
  unfold deref_gnode. destruct (m_gnode t) as [addr|].
  - destruct (gnodes w !! addr) as [g'|] eqn:Hg; split.
    + intros H. injection H as ->. exists addr. split; [reflexivity | exact Hg].
    + intros (a & Ha & Hl). injection Ha as <-. congruence.
    + intros H. discriminate H.
    + intros (a & Ha & Hl). injection Ha as <-. congruence.
  - split; [intros H; discriminate H | intros (a & Ha & _); discriminate Ha].
Qed.

Lemma init_inv (data_table : t_data_table) (row_count : Z) (op : t_op)
    (w w' : world) (t t' : Table) (data_table' : t_data_table) :
  init data_table row_count op w t = Ok (w', t', data_table') →
  process_index_column t (process_op_column op data_table) = Ok data_table' ∧
  (∃ t1, calculate_offset row_count t = Ok t1 ∧ m_offset t' = m_offset t1) ∧
  same_identity t t' ∧ same_declared_schema t t' ∧
  m_init t' = true ∧ m_gnode_set t' = true ∧ gnode_bound w' t' ∧
  GLOBAL_TABLE_ID w' = GLOBAL_TABLE_ID w.
Proof.
  unfold init. intros H.
  apply bind_Ok in H as (dt2 & Hidx & H).
  apply bind_Ok in H as (t1 & Hoff & H).
  apply bind_Ok in H as ([w2 t2] & Hg & H).
  apply bind_Ok in H as (u & Hset & H).
  apply bind_Ok in H as (g & Hderef & H).
  injection H as <- <- <-.
  apply assert_Ok in Hset.
  apply deref_gnode_Ok in Hderef as (addr & Haddr & Hlook).
  pose proof (calculate_offset_Ok _ _ _ Hoff) as [_ Ht1].
  assert (Hframe : same_identity t t2 ∧ same_declared_schema t t2 ∧
                   m_offset t2 = m_offset t1 ∧
                   GLOBAL_TABLE_ID w2 = GLOBAL_TABLE_ID w).
  { destruct (m_gnode_set t1) eqn:Hgs; simpl in Hg.
    - injection Hg as <- <-. subst t1. repeat split.
    - apply bind_Ok in Hg as ([w3 a3] & Hmk & Hg). simpl in Hg.
      injection Hg as <- <-.
      unfold make_gnode in Hmk. apply bind_Ok in Hmk as (os & _ & Hmk).
      injection Hmk as <- <-. subst t1. repeat split. }
  destruct Hframe as (Hid & Hdecl & Ho & Hglob).
  split; [exact Hidx|].
  split; [exists t1; split; [exact Hoff | exact Ho]|].
  split; [exact Hid|]. split; [exact Hdecl|].
  split; [reflexivity|]. split; [exact Hset|].
  split; [|exact Hglob].
  exists addr, g. split; [exact Haddr | exact Hlook].
Qed.

Lemma init_offset (data_table : t_data_table) (row_count : Z) (op : t_op)
    (w w' : world) (t t' : Table) (data_table' : t_data_table) :
  init data_table row_count op w t = Ok (w', t', data_table') →
  m_limit t ≠ 0 ∧ m_limit t' = m_limit t ∧
  m_offset t' = wrap_uint32 (m_offset t + row_count) mod m_limit t.
Proof.
  intros H. apply init_inv in H as (_ & (t1 & Hoff & Ho) & Hid & _).
  apply calculate_offset_Ok in Hoff as [Hl ->].
  destruct Hid as (_ & _ & Hlim & _).
  split; [exact Hl|]. split; [exact Hlim|]. rewrite Ho. reflexivity.
Qed.

Lemma init_offset_in_range (data_table : t_data_table) (row_count : Z) (op : t_op)
    (w w' : world) (t t' : Table) (data_table' : t_data_table) :
  0 < m_limit t →
  init data_table row_count op w t = Ok (w', t', data_table') →
  0 ≤ m_offset t' < m_limit t'.
Proof.
  intros Hpos H. apply init_offset in H as (_ & Hlim & ->).
  rewrite Hlim. apply Z.mod_pos_bound. exact Hpos.
Qed.

Lemma init_offset_exact (data_table : t_data_table) (row_count : Z) (op : t_op)
    (w w' : world) (t t' : Table) (data_table' : t_data_table) :
  0 ≤ m_offset t + row_count < 2 ^ 32 →
  init data_table row_count op w t = Ok (w', t', data_table') →
  m_offset t' = (m_offset t + row_count) mod m_limit t.
Proof.
  intros Hsum H. apply init_offset in H as (_ & _ & ->).
  rewrite wrap_uint32_small by exact Hsum. reflexivity.
Qed.

Lemma ingest_all_offset (batches : list (t_data_table * Z * t_op)) :
  ∀ (w w' : world) (t t' : Table),
    0 ≤ m_offset t < m_limit t →
    Forall (fits_ring (m_limit t)) batches →
    ingest_all batches w t = Ok (w', t') →
    m_limit t' = m_limit t ∧
    m_offset t' = (m_offset t + total_rows batches) mod m_limit t.
Proof.
  induction batches as [|[[dt rc] op] batches IH]; intros w w' t t' Hoff Hfit H.
  - simpl in H. injection H as <- <-. split; [reflexivity|].
    simpl. rewrite Z.add_0_r. symmetry. apply Z.mod_small. exact Hoff.
  - simpl in H. apply bind_Ok in H as ([[w1 t1] dt1] & Hinit & H).
    apply Forall_cons in Hfit as [[Hrc Hfit1] Hfit]. simpl in Hrc, Hfit1.
    pose proof (init_offset _ _ _ _ _ _ _ _ Hinit) as (_ & Hlim & _).
    assert (Hpos : 0 < m_limit t) by lia.
    assert (Hsum : 0 ≤ m_offset t + rc < 2 ^ 32) by lia.
    pose proof (init_offset_in_range _ _ _ _ _ _ _ _ Hpos Hinit) as Hrange.
    pose proof (init_offset_exact _ _ _ _ _ _ _ _ Hsum Hinit) as Hex.
    rewrite Hlim in Hrange.
    apply IH in H as [Hlim' Ho'].
    + split; [congruence|]. rewrite Ho', Hlim, Hex. simpl.
      rewrite Zplus_mod_idemp_l. f_equal. lia.
    + rewrite Hlim. exact Hrange.
    + rewrite Hlim. exact Hfit.
Qed.



(** ** Cells of a block under the column operations *)

Lemma cell_update_set_nth (c r : nat) (v : Z) (dt : t_data_table) (c' i : nat) :
  cell (update_column c (set_nth r v) dt) c' i =
  match cell dt c' i with
  | None => None
  | Some old => if bool_decide (c' = c ∧ i = r) then Some v else Some old
  end.
Proof.
  unfold cell, update_column. simpl.
  destruct (decide (c' = c)) as [->|Hc].
  - rewrite list_lookup_alter_eq.
    destruct (dt_columns dt !! c) as [[n col]|]; simpl; [|reflexivity].
    destruct (decide (i = r)) as [->|Hi].
    + destruct (col_data col !! r) as [old|] eqn:Hold.
      * rewrite bool_decide_eq_true_2 by (split; reflexivity).
        apply list_lookup_insert_eq. eapply lookup_lt_Some. exact Hold.
      * rewrite list_insert_ge; [exact Hold|].
        apply lookup_ge_None. exact Hold.
    + rewrite list_lookup_insert_ne by (intros ->; contradiction).
      destruct (col_data col !! i); [|reflexivity].
      rewrite bool_decide_eq_false_2; [reflexivity|]. intros [_ ->]. contradiction.
  - rewrite list_lookup_alter_ne by (intros ->; contradiction).
    destruct (dt_columns dt !! c' ≫= λ nc, col_data nc.2 !! i); [|reflexivity].
    rewrite bool_decide_eq_false_2; [reflexivity|]. intros [-> _]. contradiction.
Qed.

Lemma update_column_names (c : nat) (f : t_column → t_column) (dt : t_data_table) :
  dt_names (update_column c f dt) = dt_names dt.
Proof.
  unfold dt_names, update_column. simpl.
  apply list_eq. intros i. rewrite !list_lookup_fmap.
  destruct (decide (i = c)) as [->|Hi].
  - rewrite list_lookup_alter_eq. destruct (dt_columns dt !! c) as [[n col]|]; reflexivity.
  - rewrite list_lookup_alter_ne by (intros ->; contradiction). reflexivity.
Qed.

Lemma key_loop_cells (t : Table) (kc oc : nat) (rows : list nat) :
  ∀ (dt dt' : t_data_table),
    key_loop t kc oc rows dt = Ok dt' →
    dt_size dt' = dt_size dt ∧ dt_names dt' = dt_names dt ∧
    ∀ c i, cell dt' c i =
           match cell dt c i with
           | None => None
           | Some old =>
               if bool_decide ((c = kc ∨ c = oc) ∧ i ∈ rows)
               then Some (synthesized_key t i) else Some old
           end.
Proof.
  induction rows as [|r rows IH]; intros dt dt' H; simpl in H.
  - injection H as <-. split; [reflexivity|]. split; [reflexivity|].
    intros c i. destruct (cell dt c i); [|reflexivity].
    rewrite bool_decide_eq_false_2; [reflexivity|].
    intros [_ Hin]. inversion Hin.
  - destruct (decide (m_limit t = 0)); [discriminate H|].
    apply IH in H as (Hsize & Hnames & Hcells).
    split; [exact Hsize|].
    split; [rewrite Hnames, !update_column_names; reflexivity|].
    intros c i. rewrite Hcells, !cell_update_set_nth.
    destruct (cell dt c i) as [old|]; [|reflexivity].
    repeat case_bool_decide; try reflexivity;
      repeat match goal with H : context [_ ∈ _ :: _] |- _ => rewrite elem_of_cons in H end;
      intuition (subst; congruence).
Qed.

(** ** Looking columns up by name *)

Lemma index_of_Some (name : string) (l : list string) (i : nat) :
  index_of name l = Some i → l !! i = Some name.
Proof.
  revert i. induction l as [|x l IH]; intros i H; simpl in H.
  - discriminate H.
  - destruct (decide (x = name)) as [->|Hx].
    + injection H as <-. reflexivity.
    + destruct (index_of name l) as [j|]; simpl in H; [|discriminate H].
      injection H as <-. simpl. apply IH. reflexivity.
Qed.

Lemma index_of_None (name : string) (l : list string) :
  index_of name l = None ↔ name ∉ l.
Proof.
  induction l as [|x l IH]; simpl.
  - split; [intros _ H; inversion H | reflexivity].
  - rewrite not_elem_of_cons. destruct (decide (x = name)) as [->|Hx].
    + split; [intros H; discriminate H | intros [H _]; contradiction].
    + destruct (index_of name l) as [j|]; simpl.
      * split; [intros H; discriminate H|].
        intros [_ H]. apply IH in H. discriminate H.
      * split; [|reflexivity]. intros _. split; [congruence | apply IH; reflexivity].
Qed.

Lemma index_of_app (name : string) (l l' : list string) :
  index_of name (l ++ l') =
  match index_of name l with
  | Some i => Some i
  | None => (λ i, length l + i)%nat <$> index_of name l'
  end.
Proof.
  induction l as [|x l IH]; simpl.
  - destruct (index_of name l'); reflexivity.
  - destruct (decide (x = name)); [reflexivity|].
    rewrite IH. destruct (index_of name l) as [i|]; simpl; [reflexivity|].
    destruct (index_of name l'); reflexivity.
Qed.

Lemma get_column_at (dt : t_data_table) (name : string) (c : nat) :
  index_of name (dt_names dt) = Some c →
  ∃ col, dt_columns dt !! c = Some (name, col) ∧ get_column dt name = Some col.
Proof.
  intros H. unfold get_column. rewrite H. simpl.
  apply index_of_Some in H. unfold dt_names in H.
  rewrite list_lookup_fmap in H.
  destruct (dt_columns dt !! c) as [[n col]|]; simpl in H; [|discriminate H].
  injection H as ->. exists col. split; reflexivity.
Qed.

Lemma wf_cell (dt : t_data_table) (c i : nat) (nc : string * t_column) :
  wf_data_table dt → dt_columns dt !! c = Some nc →
  (i < dt_size dt)%nat ↔ is_Some (cell dt c i).
Proof.
  intros Hwf Hc. unfold cell. rewrite Hc. simpl.
  unfold wf_data_table in Hwf. rewrite Forall_lookup in Hwf.
  rewrite <- (Hwf c nc Hc). symmetry. apply lookup_lt_is_Some.
Qed.

(** [add_column] keeps the rows and the other columns, and the column it
    hands back is the one found under [name]. *)
Lemma add_column_spec (name : string) (dtype : t_dtype) (status : bool)
    (dt dt1 : t_data_table) (idx : nat) :
  add_column name dtype status dt = (dt1, idx) →
  dt_size dt1 = dt_size dt ∧
  index_of name (dt_names dt1) = Some idx ∧
  (wf_data_table dt → wf_data_table dt1) ∧
  (∀ n, n ≠ name → index_of n (dt_names dt1) = index_of n (dt_names dt)) ∧
  (∀ c, c ≠ idx → dt_columns dt1 !! c = dt_columns dt !! c) ∧
  (∀ c nc, dt_columns dt !! c = Some nc → dt_columns dt1 !! c = Some nc).
Proof.
  unfold add_column. destruct (index_of name (dt_names dt)) as [c|] eqn:Hidx.
  - intros H. injection H as <- <-. repeat split; auto.
  - intros H. injection H as <- <-. simpl.
    split; [reflexivity|]. split; [|split; [|split; [|split]]].
    + unfold dt_names. simpl. rewrite fmap_app. simpl.
      fold (dt_names dt). rewrite index_of_app, Hidx. simpl.
      destruct (decide (name = name)); [|contradiction]. simpl.
      unfold dt_names. rewrite length_fmap. f_equal. lia.
    + intros Hwf. unfold wf_data_table in *. simpl. apply Forall_app. split; [exact Hwf|].
      apply Forall_singleton. simpl. apply length_replicate.
    + intros n Hn. unfold dt_names. simpl. rewrite fmap_app. simpl.
      fold (dt_names dt). rewrite index_of_app.
      destruct (index_of n (dt_names dt)); [reflexivity|]. simpl.
      destruct (decide (name = n)); [congruence | reflexivity].
    + intros c Hc. destruct (decide (c < length (dt_columns dt))%nat) as [Hlt|Hge].
      * apply lookup_app_l. exact Hlt.
      * rewrite lookup_ge_None_2 by (rewrite length_app; simpl; lia).
        symmetry. apply lookup_ge_None_2. lia.
    + intros c nc Hc. rewrite lookup_app_l; [exact Hc|].
      eapply lookup_lt_Some. exact Hc.
Qed.

(** ** Synthesized keys *)

Lemma key_loop_column (t : Table) (kc oc : nat) (dt dt' : t_data_table)
    (name : string) (c : nat) :
  wf_data_table dt →
  key_loop t kc oc (seq 0 (dt_size dt)) dt = Ok dt' →
  c = kc ∨ c = oc →
  index_of name (dt_names dt) = Some c →
  column_cells dt' name = Some (synthesized_key t <$> seq 0 (dt_size dt)).
Proof.
  intros Hwf Hloop Hc Hidx.
  apply key_loop_cells in Hloop as (_ & Hnames & Hcells).
  destruct (get_column_at dt name c Hidx) as (col0 & Hcol0 & _).
  rewrite <- Hnames in Hidx.
  destruct (get_column_at dt' name c Hidx) as (col & Hcol & Hget).
  unfold column_cells. rewrite Hget. simpl. f_equal.
  apply list_eq. intros i.
  assert (Hcell : col_data col !! i = cell dt' c i).
  { unfold cell. rewrite Hcol. reflexivity. }
  rewrite Hcell, Hcells, list_lookup_fmap.
  destruct (decide (i < dt_size dt)%nat) as [Hlt|Hge].
  - destruct (proj1 (wf_cell dt c i _ Hwf Hcol0) Hlt) as [old Hold].
    rewrite Hold, lookup_seq_lt by exact Hlt. simpl.
    rewrite bool_decide_eq_true_2; [reflexivity|].
    split; [exact Hc|]. apply elem_of_seq. lia.
  - rewrite lookup_seq_ge by lia. simpl.
    destruct (cell dt c i) as [old|] eqn:Hold; [|reflexivity].
    exfalso. apply Hge. apply (wf_cell dt c i _ Hwf Hcol0). exists old. exact Hold.
Qed.

Lemma process_index_column_synthesized (t : Table) (dt dt' : t_data_table) :
  m_index t = EmptyString → wf_data_table dt →
  process_index_column t dt = Ok dt' →
  column_cells dt' "psp_pkey" = Some (synthesized_key t <$> seq 0 (dt_size dt)) ∧
  column_cells dt' "psp_okey" = Some (synthesized_key t <$> seq 0 (dt_size dt)).
Proof.
  intros Hindex Hwf H. unfold process_index_column in H.
  destruct (decide (m_index t = EmptyString)) as [_|Hne]; [|contradiction].
  destruct (add_column "psp_pkey" DTYPE_INT32 true dt) as [dt1 kc] eqn:Hadd1.
  destruct (add_column "psp_okey" DTYPE_INT32 true dt1) as [dt2 oc] eqn:Hadd2.
  destruct (decide (2 ^ 32 ≤ Z.of_nat (dt_size dt2)));
    [destruct (decide (m_limit t = 0)); discriminate H|].
  apply add_column_spec in Hadd1 as (Hs1 & Hk1 & Hwf1 & _).
  apply add_column_spec in Hadd2 as (Hs2 & Hk2 & Hwf2 & Hother & _).
  assert (Hsize : dt_size dt2 = dt_size dt) by congruence.
  assert (Hkc : index_of "psp_pkey" (dt_names dt2) = Some kc).
  { rewrite Hother by discriminate. exact Hk1. }
  rewrite <- Hsize.
  split.
  - apply (key_loop_column t kc oc dt2 dt' "psp_pkey" kc); auto.
  - apply (key_loop_column t kc oc dt2 dt' "psp_okey" oc); auto.
Qed.

Lemma process_op_column_wf (op : t_op) (dt : t_data_table) :
  wf_data_table dt →
  wf_data_table (process_op_column op dt) ∧
  dt_size (process_op_column op dt) = dt_size dt.
Proof.
  intros Hwf. unfold process_op_column.
  destruct (add_column "psp_op" DTYPE_UINT8 false dt) as [dt1 c] eqn:Hadd.
  apply add_column_spec in Hadd as (Hs & _ & Hwf1 & _).
  specialize (Hwf1 Hwf).
  assert (Hfill : ∀ v, wf_data_table (update_column c (raw_fill v) dt1)).
  { intros v. unfold wf_data_table, update_column in *. simpl.
    rewrite Forall_lookup in *. intros i nc Hi.
    destruct (decide (i = c)) as [->|Hic].
    - rewrite list_lookup_alter_eq in Hi.
      destruct (dt_columns dt1 !! c) as [[n col]|] eqn:Hcol; [|discriminate Hi].
      injection Hi as <-. simpl. rewrite length_replicate.
      exact (Hwf1 c _ Hcol).
    - rewrite list_lookup_alter_ne in Hi by (intros ->; contradiction).
      exact (Hwf1 i nc Hi). }
  destruct op; (split; [apply Hfill | exact Hs]).
Qed.

Lemma synthesized_key_exact (t : Table) (i : nat) :
  0 < m_limit t → 0 ≤ m_offset t →
  Z.of_nat i + m_offset t < 2 ^ 32 →
  (Z.of_nat i + m_offset t) mod m_limit t < 2 ^ 31 →
  synthesized_key t i = (Z.of_nat i + m_offset t) mod m_limit t.
Proof.
  intros Hl Ho Hsum Hsmall. unfold synthesized_key.
  rewrite wrap_uint32_small by lia.
  apply wrap_int32_small.
  pose proof (Z.mod_pos_bound (Z.of_nat i + m_offset t) (m_limit t) Hl). lia.
Qed.

Lemma synthesized_key_wrapped (t : Table) (i : nat) :
  0 < m_limit t → 0 ≤ m_offset t →
  Z.of_nat i + m_offset t < 2 ^ 32 →
  2 ^ 31 - 1 < (Z.of_nat i + m_offset t) mod m_limit t →
  synthesized_key t i = (Z.of_nat i + m_offset t) mod m_limit t - 2 ^ 32.
Proof.
  intros Hl Ho Hsum Hbig. unfold synthesized_key.
  rewrite wrap_uint32_small by lia.
  apply wrap_int32_large.
  pose proof (Z.mod_le (Z.of_nat i + m_offset t) (m_limit t) ltac:(lia) Hl). lia.
Qed.

Lemma synthesized_key_inj (t : Table) (n i j : nat) :
  Z.of_nat n < m_limit t → 0 ≤ m_offset t →
  Z.of_nat n + m_offset t ≤ 2 ^ 32 →
  (i < n)%nat → (j < n)%nat →
  synthesized_key t i = synthesized_key t j → i = j.
Proof.
  intros Hn Ho Hsum Hi Hj Heq. unfold synthesized_key in Heq.
  rewrite !wrap_uint32_small in Heq by lia.
  assert (Hl : 0 < m_limit t) by lia.
  assert (Hbound : ∀ k : nat, (k < n)%nat →
            0 ≤ (Z.of_nat k + m_offset t) mod m_limit t < 2 ^ 32).
  { intros k Hk.
    pose proof (Z.mod_pos_bound (Z.of_nat k + m_offset t) (m_limit t) Hl).
    pose proof (Z.mod_le (Z.of_nat k + m_offset t) (m_limit t) ltac:(lia) Hl). lia. }
  apply wrap_int32_inj in Heq; [|apply Hbound; exact Hi | apply Hbound; exact Hj].
  assert (Hdiff : ∀ a b : nat, (a < n)%nat → (b < n)%nat → (a ≤ b)%nat →
            (Z.of_nat a + m_offset t) mod m_limit t =
            (Z.of_nat b + m_offset t) mod m_limit t → a = b).
  { intros a b Ha Hb Hab He.
    assert (Hz : (Z.of_nat b - Z.of_nat a) mod m_limit t = 0).
    { replace (Z.of_nat b - Z.of_nat a)
        with ((Z.of_nat b + m_offset t) - (Z.of_nat a + m_offset t)) by lia.
      rewrite Zminus_mod, He, Z.sub_diag. apply Z.mod_0_l. lia. }
    rewrite Z.mod_small in Hz by lia. lia. }
  destruct (Nat.le_ge_cases i j) as [Hij|Hji].
  - apply Hdiff; assumption.
  - symmetry. apply Hdiff; auto.
Qed.

(** C1 (as amended).  On an ingest into a table without index column and
    with [limit > 0], the
    primary-key and original-key columns both hold, at every position [i] of
    the batch, the value [synthesized_key] computed from [i] and the offset
    before the call, whatever the rows contain; that value is
    [(i + offset_before) mod limit] whenever [i + offset_before < 2 ^ 32] and
    the residue is below [2 ^ 31]; and when the batch has fewer rows than
    [limit] and [rows + offset_before <= 2 ^ 32] the keys of the batch are
    pairwise distinct. *)
Theorem synthesized_keys_of_batch (data_table : t_data_table) (row_count : Z)
    (op : t_op) (w w' : world) (t t' : Table) (data_table' : t_data_table) :
  m_index t = EmptyString → wf_data_table data_table →
  0 < m_limit t → 0 ≤ m_offset t →
  init data_table row_count op w t = Ok (w', t', data_table') →
  let keys := synthesized_key t <$> seq 0 (dt_size data_table) in
  column_cells data_table' "psp_pkey" = Some keys ∧
  column_cells data_table' "psp_okey" = Some keys ∧
  (∀ i : nat, (i < dt_size data_table)%nat →
     Z.of_nat i + m_offset t < 2 ^ 32 →
     (Z.of_nat i + m_offset t) mod m_limit t < 2 ^ 31 →
     keys !! i = Some ((Z.of_nat i + m_offset t) mod m_limit t)) ∧
  (Z.of_nat (dt_size data_table) < m_limit t →
   Z.of_nat (dt_size data_table) + m_offset t ≤ 2 ^ 32 →
   NoDup keys).
Proof.
  intros Hindex Hwf Hl Ho H keys.
  apply init_inv in H as (Hidx & _).
  destruct (process_op_column_wf op data_table Hwf) as [Hwf1 Hs1].
  apply process_index_column_synthesized in Hidx as [Hp Hk]; [|exact Hindex|exact Hwf1].
  rewrite Hs1 in Hp, Hk.
  split; [exact Hp|]. split; [exact Hk|]. split.
  - intros i Hi Hsum Hsmall. unfold keys.
    rewrite list_lookup_fmap, lookup_seq_lt by exact Hi. simpl. f_equal.
    apply synthesized_key_exact; assumption.
  - intros Hlt Hsum. unfold keys. apply NoDup_fmap_2_strong; [|apply NoDup_seq].
    intros i j Hi Hj. apply elem_of_seq in Hi, Hj.
    apply (synthesized_key_inj t (dt_size data_table)); try assumption; lia.
Qed.

Lemma synthesized_keys_of_batch_witness :
  ∃ w' t' dt',
    init two_rows 2 OP_INSERT busy_world (busy_table 5) = Ok (w', t', dt') ∧
    column_cells dt' "psp_pkey" = Some [5; 6] ∧
    column_cells dt' "psp_okey" = Some [5; 6] ∧
    [5; 6] !! 1%nat = Some ((1 + 5) mod UINT32_MAX) ∧
    NoDup [5; 6].
Proof.
  destruct (init two_rows 2 OP_INSERT busy_world (busy_table 5))
    as [[[w' t'] dt']|e] eqn:Hinit; [|vm_compute in Hinit; discriminate Hinit].
  assert (Hindex : m_index (busy_table 5) = EmptyString) by reflexivity.
  assert (Hwf : wf_data_table two_rows) by (repeat constructor).
  assert (Hl : 0 < m_limit (busy_table 5)) by reflexivity.
  assert (Ho : 0 ≤ m_offset (busy_table 5)) by (vm_compute; discriminate).
  destruct (synthesized_keys_of_batch two_rows 2 OP_INSERT busy_world w'
              (busy_table 5) t' dt' Hindex Hwf Hl Ho Hinit)
    as (Hp & Hk & Hexact & Hdistinct).
  exists w', t', dt'. split; [reflexivity|].
  split; [exact Hp|]. split; [exact Hk|]. split.
  - apply (Hexact 1%nat); vm_compute; first [reflexivity | lia].
  - apply Hdistinct; vm_compute; first [reflexivity | discriminate].
Defined.

(** ** The type of the key columns *)

Lemma update_column_schema (c : nat) (f : t_column → t_column) (dt : t_data_table) :
  (∀ col, col_dtype (f col) = col_dtype col) →
  data_table_get_schema (update_column c f dt) = data_table_get_schema dt.
Proof.
  intros Hf. unfold data_table_get_schema. rewrite update_column_names. f_equal.
  unfold update_column. simpl.
  apply list_eq. intros i. rewrite !list_lookup_fmap.
  destruct (decide (i = c)) as [->|Hi].
  - rewrite list_lookup_alter_eq.
    destruct (dt_columns dt !! c) as [[n col]|]; simpl; [|reflexivity].
    rewrite Hf. reflexivity.
  - rewrite list_lookup_alter_ne by (intros ->; contradiction). reflexivity.
Qed.

Lemma key_loop_schema (t : Table) (kc oc : nat) (rows : list nat) :
  ∀ dt dt', key_loop t kc oc rows dt = Ok dt' →
            data_table_get_schema dt' = data_table_get_schema dt.
Proof.
  induction rows as [|r rows IH]; intros dt dt' H; simpl in H.
  - injection H as <-. reflexivity.
  - destruct (decide (m_limit t = 0)); [discriminate H|].
    apply IH in H. rewrite H, !update_column_schema; reflexivity.
Qed.

Lemma column_dtype_schema (dt : t_data_table) (name : string) :
  column_dtype dt name =
  i ← index_of name (columns (data_table_get_schema dt));
  types (data_table_get_schema dt) !! i.
Proof.
  unfold column_dtype, get_column. simpl.
  destruct (index_of name (dt_names dt)) as [i|]; simpl; [|reflexivity].
  rewrite list_lookup_fmap. destruct (dt_columns dt !! i) as [[n col]|]; reflexivity.
Qed.

Lemma add_column_fresh (name : string) (dtype : t_dtype) (status : bool)
    (dt dt1 : t_data_table) (idx : nat) :
  name ∉ dt_names dt →
  add_column name dtype status dt = (dt1, idx) →
  dt_columns dt1 !! idx =
    Some (name, mk_column dtype status (replicate (dt_size dt) 0)) ∧
  dt_names dt1 = dt_names dt ++ [name].
Proof.
  intros Hfresh. apply index_of_None in Hfresh.
  unfold add_column. rewrite Hfresh. intros H. injection H as <- <-. simpl.
  split.
  - rewrite lookup_app_r by lia. rewrite Nat.sub_diag. reflexivity.
  - unfold dt_names. simpl. rewrite fmap_app. reflexivity.
Qed.

Lemma process_index_column_dtype (t : Table) (dt dt' : t_data_table) :
  m_index t = EmptyString →
  "psp_pkey" ∉ dt_names dt → "psp_okey" ∉ dt_names dt →
  process_index_column t dt = Ok dt' →
  column_dtype dt' "psp_pkey" = Some DTYPE_INT32 ∧
  column_dtype dt' "psp_okey" = Some DTYPE_INT32.
Proof.
  intros Hindex Hfp Hfo H. unfold process_index_column in H.
  destruct (decide (m_index t = EmptyString)) as [_|Hne]; [|contradiction].
  destruct (add_column "psp_pkey" DTYPE_INT32 true dt) as [dt1 kc] eqn:Hadd1.
  destruct (add_column "psp_okey" DTYPE_INT32 true dt1) as [dt2 oc] eqn:Hadd2.
  destruct (decide (2 ^ 32 ≤ Z.of_nat (dt_size dt2)));
    [destruct (decide (m_limit t = 0)); discriminate H|].
  apply key_loop_schema in H.
  rewrite !column_dtype_schema, H, <- !column_dtype_schema.
  destruct (add_column_fresh _ _ _ _ _ _ Hfp Hadd1) as [Hc1 Hn1].
  assert (Hfo1 : "psp_okey" ∉ dt_names dt1).
  { rewrite Hn1, not_elem_of_app. split; [exact Hfo|].
    rewrite not_elem_of_cons. split; [discriminate | apply not_elem_of_nil]. }
  destruct (add_column_fresh _ _ _ _ _ _ Hfo1 Hadd2) as [Hc2 Hn2].
  apply add_column_spec in Hadd1 as (_ & Hk1 & _).
  apply add_column_spec in Hadd2 as (_ & Hk2 & _ & Hother & _ & Hkeep).
  apply Hkeep in Hc1.
  unfold column_dtype, get_column.
  rewrite Hk2, (Hother "psp_pkey") by discriminate. rewrite Hk1. simpl.
  rewrite Hc1, Hc2. split; reflexivity.
Qed.

Lemma process_op_column_fresh (op : t_op) (dt : t_data_table) (n : string) :
  n ≠ "psp_op" → n ∉ dt_names dt → n ∉ dt_names (process_op_column op dt).
Proof.
  intros Hn Hfresh. unfold process_op_column.
  destruct (add_column "psp_op" DTYPE_UINT8 false dt) as [dt1 c] eqn:Hadd.
  apply add_column_spec in Hadd as (_ & _ & _ & Hother & _).
  assert (H1 : n ∉ dt_names dt1).
  { apply index_of_None. rewrite Hother by exact Hn. apply index_of_None. exact Hfresh. }
  destruct op; rewrite update_column_names; exact H1.
Qed.

Lemma synthesized_key_machine_wrapped (t : Table) (i : nat) :
  0 < m_limit t →
  2 ^ 31 - 1 < wrap_uint32 (Z.of_nat i + m_offset t) mod m_limit t →
  synthesized_key t i =
    wrap_uint32 (Z.of_nat i + m_offset t) mod m_limit t - 2 ^ 32.
Proof.
  intros Hl Hbig. unfold synthesized_key. apply wrap_int32_large.
  pose proof (wrap_uint32_range (Z.of_nat i + m_offset t)) as Hr.
  pose proof (Z.mod_le (wrap_uint32 (Z.of_nat i + m_offset t)) (m_limit t)
                ltac:(lia) Hl). lia.
Qed.

Lemma synthesized_key_machine_small (t : Table) (i : nat) :
  0 < m_limit t →
  wrap_uint32 (Z.of_nat i + m_offset t) mod m_limit t ≤ 2 ^ 31 - 1 →
  synthesized_key t i = wrap_uint32 (Z.of_nat i + m_offset t) mod m_limit t.
Proof.
  intros Hl Hsmall. unfold synthesized_key. apply wrap_int32_small.
  pose proof (Z.mod_pos_bound (wrap_uint32 (Z.of_nat i + m_offset t)) (m_limit t) Hl).
  lia.
Qed.

(** C10 (as amended).  The synthesized keys go into columns of type
    [DTYPE_INT32], and on a table whose limit is greater than [2 ^ 31] the
    key of row [i] as the code computes it in 32-bit unsigned arithmetic,
    [((i + offset) mod 2 ^ 32) mod limit], which is [(i + offset) mod limit]
    whenever [i + offset < 2 ^ 32], is stored in the primary-key and in the
    original-key column as the negative number [key - 2 ^ 32], and not as
    the key itself, when it exceeds [2 ^ 31 - 1]; a key up to [2 ^ 31 - 1]
    is stored as it is. *)
Theorem keys_stored_as_int32 (data_table : t_data_table) (row_count : Z)
    (op : t_op) (w w' : world) (t t' : Table) (data_table' : t_data_table) :
  m_index t = EmptyString → wf_data_table data_table →
  2 ^ 31 < m_limit t →
  init data_table row_count op w t = Ok (w', t', data_table') →
  ("psp_pkey" ∉ dt_names data_table → "psp_okey" ∉ dt_names data_table →
   column_dtype data_table' "psp_pkey" = Some DTYPE_INT32 ∧
   column_dtype data_table' "psp_okey" = Some DTYPE_INT32) ∧
  ∃ pkeys okeys,
    column_cells data_table' "psp_pkey" = Some pkeys ∧
    column_cells data_table' "psp_okey" = Some okeys ∧
    ∀ i : nat,
      (i < dt_size data_table)%nat →
      let key := wrap_uint32 (Z.of_nat i + m_offset t) mod m_limit t in
      (0 ≤ m_offset t → Z.of_nat i + m_offset t < 2 ^ 32 →
       key = (Z.of_nat i + m_offset t) mod m_limit t) ∧
      (2 ^ 31 - 1 < key →
       pkeys !! i = Some (key - 2 ^ 32) ∧
       okeys !! i = Some (key - 2 ^ 32) ∧
       key - 2 ^ 32 < 0 ∧ key - 2 ^ 32 ≠ key) ∧
      (key ≤ 2 ^ 31 - 1 → pkeys !! i = Some key ∧ okeys !! i = Some key).
Proof.
  intros Hindex Hwf Hl H.
  apply init_inv in H as (Hidx & _).
  destruct (process_op_column_wf op data_table Hwf) as [Hwf1 Hs1].
  split.
  - intros Hfp Hfo.
    assert (Hfp1 : "psp_pkey" ∉ dt_names (process_op_column op data_table)).
    { apply process_op_column_fresh; [discriminate | exact Hfp]. }
    assert (Hfo1 : "psp_okey" ∉ dt_names (process_op_column op data_table)).
    { apply process_op_column_fresh; [discriminate | exact Hfo]. }
    exact (process_index_column_dtype t _ _ Hindex Hfp1 Hfo1 Hidx).
  - apply process_index_column_synthesized in Hidx as [Hp Hk];
      [|exact Hindex|exact Hwf1].
    rewrite Hs1 in Hp, Hk.
    eexists _, _. split; [exact Hp|]. split; [exact Hk|].
    intros i Hi key.
    assert (Hcell : (synthesized_key t <$> seq 0 (dt_size data_table)) !! i
                    = Some (synthesized_key t i)).
    { rewrite list_lookup_fmap, lookup_seq_lt by exact Hi. reflexivity. }
    assert (Hpos : 0 < m_limit t) by lia.
    split; [|split].
    + intros Ho Hsum. unfold key. rewrite wrap_uint32_small by lia. reflexivity.
    + intros Hbig. rewrite Hcell.
      rewrite (synthesized_key_machine_wrapped t i Hpos Hbig). fold key.
      pose proof (wrap_uint32_range (Z.of_nat i + m_offset t)) as Hr.
      assert (Hle : key ≤ wrap_uint32 (Z.of_nat i + m_offset t)).
      { apply Z.mod_le; lia. }
      repeat split; lia.
    + intros Hsmall. rewrite Hcell.
      rewrite (synthesized_key_machine_small t i Hpos Hsmall). fold key.
      split; reflexivity.
Qed.

Lemma keys_stored_as_int32_witness :
  2 ^ 31 - 1 <
    wrap_uint32 (0 + m_offset (busy_table (2 ^ 31))) mod m_limit (busy_table (2 ^ 31)) ∧
  ∃ w' t' dt' pkeys,
    init one_row 1 OP_INSERT busy_world (busy_table (2 ^ 31)) = Ok (w', t', dt') ∧
    column_dtype dt' "psp_pkey" = Some DTYPE_INT32 ∧
    column_cells dt' "psp_pkey" = Some pkeys ∧
    pkeys !! 0%nat = Some (2 ^ 31 - 2 ^ 32).
Proof.
  split; [reflexivity|].
  destruct (init one_row 1 OP_INSERT busy_world (busy_table (2 ^ 31)))
    as [[[w' t'] dt']|e] eqn:Hinit; [|vm_compute in Hinit; discriminate Hinit].
  assert (Hindex : m_index (busy_table (2 ^ 31)) = EmptyString) by reflexivity.
  assert (Hwf : wf_data_table one_row) by (repeat constructor).
  assert (Hfp : "psp_pkey" ∉ dt_names one_row).
  { apply index_of_None. reflexivity. }
  assert (Hfo : "psp_okey" ∉ dt_names one_row).
  { apply index_of_None. reflexivity. }
  assert (Hl : 2 ^ 31 < m_limit (busy_table (2 ^ 31))) by reflexivity.
  destruct (keys_stored_as_int32 one_row 1 OP_INSERT busy_world w'
              (busy_table (2 ^ 31)) t' dt' Hindex Hwf Hl Hinit)
    as (Hdtype & pkeys & okeys & Hp & _ & Hcells).
  destruct (Hdtype Hfp Hfo) as [Hdp _].
  assert (Hi : (0 < dt_size one_row)%nat) by (vm_compute; lia).
  assert (Hbig : 2 ^ 31 - 1 <
                 wrap_uint32 (Z.of_nat 0 + m_offset (busy_table (2 ^ 31)))
                   mod m_limit (busy_table (2 ^ 31))) by reflexivity.
  destruct (Hcells 0%nat Hi) as (_ & Hwrapped & _).
  destruct (Hwrapped Hbig) as (Hp0 & _).
  exists w', t', dt', pkeys. split; [reflexivity|].
  split; [exact Hdp|]. split; [exact Hp|]. exact Hp0.
Defined.

(** ** Columns that a step leaves alone *)

Lemma index_of_neq (a b : string) (l : list string) (i j : nat) :
  index_of a l = Some i → index_of b l = Some j → a ≠ b → i ≠ j.
Proof.
  intros Ha Hb Hab ->. apply index_of_Some in Ha, Hb. congruence.
Qed.

Lemma column_cells_of_cells (dt dt' : t_data_table) (name : string) (c : nat) :
  index_of name (dt_names dt) = Some c →
  index_of name (dt_names dt') = Some c →
  (∀ i, cell dt' c i = cell dt c i) →
  column_cells dt' name = column_cells dt name.
Proof.
  intros Hi Hi' Hcells.
  destruct (get_column_at dt name c Hi) as (col & Hcol & Hget).
  destruct (get_column_at dt' name c Hi') as (col' & Hcol' & Hget').
  unfold column_cells. rewrite Hget, Hget'. simpl. f_equal.
  apply list_eq. intros i. specialize (Hcells i).
  unfold cell in Hcells. rewrite Hcol, Hcol' in Hcells. exact Hcells.
Qed.

Lemma get_column_app (dt : t_data_table) (extra : list (string * t_column))
    (name : string) :
  is_Some (index_of name (dt_names dt)) →
  get_column (mk_data_table (dt_size dt) (dt_columns dt ++ extra)) name =
  get_column dt name.
Proof.
  intros [c Hc]. unfold get_column, dt_names in *. simpl.
  rewrite fmap_app, index_of_app, Hc. simpl.
  rewrite lookup_app_l; [reflexivity|].
  apply index_of_Some in Hc. apply lookup_lt_Some in Hc.
  rewrite length_fmap in Hc. exact Hc.
Qed.

Lemma get_column_app_fresh (dt : t_data_table) (name : string) (col : t_column) :
  name ∉ dt_names dt →
  get_column (mk_data_table (dt_size dt) (dt_columns dt ++ [(name, col)])) name =
  Some col.
Proof.
  intros Hfresh. apply index_of_None in Hfresh.
  unfold get_column, dt_names in *. simpl.
  rewrite fmap_app, index_of_app, Hfresh. simpl.
  destruct (decide (name = name)); [|contradiction]. simpl.
  rewrite lookup_app_r by (rewrite length_fmap; lia).
  rewrite length_fmap, Nat.add_0_r, Nat.sub_diag. reflexivity.
Qed.

Lemma clone_column_Ok (existing_col new_colname : string) (dt dt' : t_data_table) :
  clone_column existing_col new_colname dt = Ok dt' →
  ∃ col, get_column dt existing_col = Some col ∧
         dt' = mk_data_table (dt_size dt) (dt_columns dt ++ [(new_colname, col)]).
Proof.
  unfold clone_column. destruct (get_column dt existing_col) as [col|].
  - intros H. injection H as <-. exists col. split; reflexivity.
  - intros H. discriminate H.
Qed.

Lemma get_column_is_Some (dt : t_data_table) (name : string) (col : t_column) :
  get_column dt name = Some col → is_Some (index_of name (dt_names dt)).
Proof.
  unfold get_column. destruct (index_of name (dt_names dt)) as [c|].
  - intros _. exists c. reflexivity.
  - intros H. discriminate H.
Qed.

(** The key step leaves the cells of every other column of the block as
    they were. *)
Lemma process_index_column_keeps (t : Table) (dt dt' : t_data_table) (name : string) :
  name ≠ "psp_pkey" → name ≠ "psp_okey" →
  is_Some (index_of name (dt_names dt)) →
  process_index_column t dt = Ok dt' →
  column_cells dt' name = column_cells dt name.
Proof.
  intros Hnp Hno [c Hc] H. unfold process_index_column in H.
  destruct (decide (m_index t = EmptyString)) as [Hindex|Hindex].
  - destruct (add_column "psp_pkey" DTYPE_INT32 true dt) as [dt1 kc] eqn:Hadd1.
    destruct (add_column "psp_okey" DTYPE_INT32 true dt1) as [dt2 oc] eqn:Hadd2.
    destruct (decide (2 ^ 32 ≤ Z.of_nat (dt_size dt2)));
    [destruct (decide (m_limit t = 0)); discriminate H|].
    apply add_column_spec in Hadd1 as (_ & Hk1 & _ & Hother1 & _ & Hkeep1).
    apply add_column_spec in Hadd2 as (_ & Hk2 & _ & Hother2 & _ & Hkeep2).
    apply key_loop_cells in H as (_ & Hnames & Hcells).
    assert (Hc2 : index_of name (dt_names dt2) = Some c).
    { rewrite Hother2, Hother1; assumption. }
    assert (Hkc : index_of "psp_pkey" (dt_names dt2) = Some kc).
    { rewrite Hother2 by discriminate. exact Hk1. }
    destruct (get_column_at dt name c Hc) as (col & Hcol & _).
    apply (column_cells_of_cells dt dt' name c); [exact Hc | congruence |].
    intros i. rewrite Hcells.
    assert (Hsame : cell dt2 c i = cell dt c i).
    { unfold cell. rewrite (Hkeep2 c _ (Hkeep1 c _ Hcol)), Hcol. reflexivity. }
    rewrite Hsame. destruct (cell dt c i) as [old|]; [|reflexivity].
    rewrite bool_decide_eq_false_2; [reflexivity|].
    intros [[-> | ->] _].
    + exact (index_of_neq _ _ _ _ _ Hc2 Hkc Hnp eq_refl).
    + exact (index_of_neq _ _ _ _ _ Hc2 Hk2 Hno eq_refl).
  - apply bind_Ok in H as (dt1 & H1 & H2).
    apply clone_column_Ok in H1 as (col1 & _ & ->).
    apply clone_column_Ok in H2 as (col2 & _ & ->).
    unfold column_cells. rewrite !get_column_app; [reflexivity| |].
    + exists c. exact Hc.
    + unfold dt_names in *. simpl. rewrite fmap_app, index_of_app, Hc. eauto.
Qed.

(** ** The operation column *)

Lemma process_op_column_keeps (op : t_op) (dt : t_data_table) (name : string) :
  name ≠ "psp_op" →
  get_column (process_op_column op dt) name = get_column dt name.
Proof.
  intros Hn. unfold process_op_column.
  destruct (add_column "psp_op" DTYPE_UINT8 false dt) as [dt1 c] eqn:Hadd.
  apply add_column_spec in Hadd as (_ & Hk & _ & Hother & _ & Hkeep).
  assert (Hfill : ∀ v, get_column (update_column c (raw_fill v) dt1) name
                       = get_column dt name).
  { intros v. unfold get_column. rewrite update_column_names, Hother by exact Hn.
    destruct (index_of name (dt_names dt)) as [i|] eqn:Hi; [|reflexivity]. simpl.
    destruct (get_column_at dt name i Hi) as (col & Hcol & _).
    assert (Hic : i ≠ c).
    { apply (index_of_neq name "psp_op" (dt_names dt1)); [|exact Hk|exact Hn].
      rewrite Hother by exact Hn. exact Hi. }
    rewrite list_lookup_alter_ne by (intros ->; contradiction).
    rewrite (Hkeep i _ Hcol), Hcol. reflexivity. }
  destruct op; apply Hfill.
Qed.

Lemma process_op_column_cells (op : t_op) (dt : t_data_table) :
  wf_data_table dt →
  is_Some (index_of "psp_op" (dt_names (process_op_column op dt))) ∧
  column_cells (process_op_column op dt) "psp_op" =
    Some (replicate (dt_size dt)
            (op_code match op with OP_DELETE => OP_DELETE | _ => OP_INSERT end)).
Proof.
  intros Hwf. unfold process_op_column.
  destruct (add_column "psp_op" DTYPE_UINT8 false dt) as [dt1 c] eqn:Hadd.
  apply add_column_spec in Hadd as (Hs & Hk & Hwf1 & _).
  specialize (Hwf1 Hwf).
  assert (Hfill : ∀ v,
            is_Some (index_of "psp_op" (dt_names (update_column c (raw_fill v) dt1))) ∧
            column_cells (update_column c (raw_fill v) dt1) "psp_op"
            = Some (replicate (dt_size dt) v)).
  { intros v. rewrite update_column_names. split; [eauto|].
    destruct (get_column_at dt1 "psp_op" c Hk) as (col & Hcol & _).
    unfold column_cells, get_column. rewrite update_column_names, Hk. simpl.
    rewrite list_lookup_alter_eq, Hcol. simpl. do 2 f_equal.
    unfold wf_data_table in Hwf1. rewrite Forall_lookup in Hwf1.
    rewrite <- Hs. exact (Hwf1 c _ Hcol). }
  destruct op; apply Hfill.
Qed.

(** C6.  After an ingest the operation-tag column holds one and the same tag
    in every row of the batch, whatever the number of rows: [DELETE] when
    the call asks for a delete, [INSERT] for every other operation value. *)
Theorem op_column_uniform (data_table : t_data_table) (row_count : Z)
    (op : t_op) (w w' : world) (t t' : Table) (data_table' : t_data_table) :
  wf_data_table data_table →
  init data_table row_count op w t = Ok (w', t', data_table') →
  (op = OP_DELETE →
   column_cells data_table' "psp_op"
   = Some (replicate (dt_size data_table) (op_code OP_DELETE))) ∧
  (op ≠ OP_DELETE →
   column_cells data_table' "psp_op"
   = Some (replicate (dt_size data_table) (op_code OP_INSERT))).
Proof.
  intros Hwf H. apply init_inv in H as (Hidx & _).
  destruct (process_op_column_cells op data_table Hwf) as [Hsome Hcells].
  apply (process_index_column_keeps t _ _ "psp_op") in Hidx;
    [|discriminate|discriminate|exact Hsome].
  rewrite Hidx, Hcells.
  split; intros Hop; destruct op; try reflexivity; congruence.
Qed.

Lemma op_column_uniform_witness :
  ∃ w' t' dt',
    init two_rows 2 OP_DELETE busy_world (busy_table 5) = Ok (w', t', dt') ∧
    column_cells dt' "psp_op" = Some [1; 1].
Proof.
  destruct (init two_rows 2 OP_DELETE busy_world (busy_table 5))
    as [[[w' t'] dt']|e] eqn:Hinit; [|vm_compute in Hinit; discriminate Hinit].
  assert (Hwf : wf_data_table two_rows) by (repeat constructor).
  destruct (op_column_uniform two_rows 2 OP_DELETE busy_world w'
              (busy_table 5) t' dt' Hwf Hinit) as [Hdel _].
  exists w', t', dt'. split; [reflexivity|]. exact (Hdel eq_refl).
Defined.

(** ** A configured index column *)

(** C5.  On an ingest into a table with a configured index column, the
    primary-key and the original-key column of the batch both hold the cells
    of the index column, row by row and unchanged, whatever those cells are
    (repeated values included). *)
Theorem index_column_cloned (data_table : t_data_table) (row_count : Z)
    (op : t_op) (w w' : world) (t t' : Table) (data_table' : t_data_table)
    (vals : list Z) :
  m_index t ≠ EmptyString → m_index t ≠ "psp_op" →
  "psp_pkey" ∉ dt_names data_table → "psp_okey" ∉ dt_names data_table →
  column_cells data_table (m_index t) = Some vals →
  init data_table row_count op w t = Ok (w', t', data_table') →
  column_cells data_table' "psp_pkey" = Some vals ∧
  column_cells data_table' "psp_okey" = Some vals.
Proof.
  intros Hindex Hnop Hfp Hfo Hvals H. apply init_inv in H as (Hidx & _).
  unfold process_index_column in Hidx.
  destruct (decide (m_index t = EmptyString)) as [He|_]; [contradiction|].
  apply bind_Ok in Hidx as (dt2 & H1 & H2).
  apply clone_column_Ok in H1 as (col1 & Hcol1 & ->).
  apply clone_column_Ok in H2 as (col2 & Hcol2 & ->).
  set (dt1 := process_op_column op data_table) in *.
  assert (Hfp1 : "psp_pkey" ∉ dt_names dt1).
  { apply process_op_column_fresh; [discriminate | exact Hfp]. }
  assert (Hfo1 : "psp_okey" ∉ dt_names dt1).
  { apply process_op_column_fresh; [discriminate | exact Hfo]. }
  rewrite get_column_app in Hcol2 by (eapply get_column_is_Some; exact Hcol1).
  assert (Hsame : col2 = col1) by congruence. subst col2.
  assert (Hdata : col_data col1 = vals).
  { unfold dt1 in Hcol1. rewrite process_op_column_keeps in Hcol1 by exact Hnop.
    unfold column_cells in Hvals. rewrite Hcol1 in Hvals. simpl in Hvals.
    congruence. }
  unfold column_cells. split.
  - rewrite get_column_app.
    + rewrite get_column_app_fresh by exact Hfp1. simpl. congruence.
    + unfold dt_names. simpl. rewrite fmap_app, index_of_app. simpl.
      destruct (index_of "psp_pkey" (dt_columns dt1).*1); simpl; eauto.
  - rewrite get_column_app_fresh; [simpl; congruence|].
    unfold dt_names. simpl. rewrite fmap_app, not_elem_of_app. split; [exact Hfo1|].
    simpl. rewrite not_elem_of_cons. split; [discriminate | apply not_elem_of_nil].
Qed.

Lemma index_column_cloned_witness :
  ∃ w' t' dt',
    init id_rows 3 OP_INSERT id_table.1 id_table.2 = Ok (w', t', dt') ∧
    column_cells dt' "psp_pkey" = Some [10; 11; 12] ∧
    column_cells dt' "psp_okey" = Some [10; 11; 12].
Proof.
  destruct (init id_rows 3 OP_INSERT id_table.1 id_table.2)
    as [[[w' t'] dt']|e] eqn:Hinit; [|vm_compute in Hinit; discriminate Hinit].
  assert (Hindex : m_index id_table.2 ≠ EmptyString) by discriminate.
  assert (Hnop : m_index id_table.2 ≠ "psp_op") by discriminate.
  assert (Hfp : "psp_pkey" ∉ dt_names id_rows) by (apply index_of_None; reflexivity).
  assert (Hfo : "psp_okey" ∉ dt_names id_rows) by (apply index_of_None; reflexivity).
  assert (Hvals : column_cells id_rows (m_index id_table.2) = Some [10; 11; 12])
    by reflexivity.
  exists w', t', dt'. split; [reflexivity|].
  exact (index_column_cloned id_rows 3 OP_INSERT id_table.1 w' id_table.2 t' dt'
           [10; 11; 12] Hindex Hnop Hfp Hfo Hvals Hinit).
Defined.

(** Index values are taken as they come: a batch that repeats a key is
    ingested, and both key columns repeat it. *)
Example repeated_index_values_accepted :
  ∃ w' t' dt',
    init dup_rows 2 OP_INSERT id_table.1 id_table.2 = Ok (w', t', dt') ∧
    column_cells dt' "psp_pkey" = Some [10; 10] ∧
    column_cells dt' "psp_okey" = Some [10; 10].
Proof.
  vm_compute. eexists _, _, _. repeat split.
Qed.

(** The ring of the specification: capacity 3, four batches of one row. *)
Example capacity_wraparound :
  ∃ w1 t1 d1 w2 t2 d2 w3 t3 d3 w4 t4 d4,
    init one_row 1 OP_INSERT ring3.1 ring3.2 = Ok (w1, t1, d1) ∧
    init one_row 1 OP_INSERT w1 t1 = Ok (w2, t2, d2) ∧
    init one_row 1 OP_INSERT w2 t2 = Ok (w3, t3, d3) ∧
    init one_row 1 OP_INSERT w3 t3 = Ok (w4, t4, d4) ∧
    column_cells d1 "psp_pkey" = Some [0] ∧
    column_cells d2 "psp_pkey" = Some [1] ∧
    column_cells d3 "psp_pkey" = Some [2] ∧
    column_cells d4 "psp_pkey" = Some [0].
Proof.
  do 12 eexists.
  split; [cbv; reflexivity|].
  split; [cbv; reflexivity|].
  split; [cbv; reflexivity|].
  split; [cbv; reflexivity|].
  repeat split.
Qed.

(** ** Replacing the underlying block *)

Lemma replace_data_table_uninit (data_table : t_data_table) (w : world) (t : Table) :
  m_init t = false → replace_data_table data_table w t = Err UninitializedError.
Proof. intros H. unfold replace_data_table. rewrite H. reflexivity. Qed.

Lemma replace_data_table_run (data_table : t_data_table) (w : world) (t : Table)
    (out_schema : t_schema) :
  m_init t = true →
  make_out_schema (data_table_get_schema data_table) = Ok out_schema →
  let addr := length (gnodes w) in
  let id := pool_next_id w in
  let g := mk_gnode id out_schema (data_table_get_schema data_table) true 0 in
  replace_data_table data_table w t =
  Ok (mk_world (GLOBAL_TABLE_ID w) (gnodes w ++ [g])
               ((id, addr) :: pool_registry w) (id + 1)
               (pool_events w ++ [EvRegister addr id; EvSend id 0 data_table; EvProcess]),
      set_gnode addr t).
Proof.
  intros Hinit Hout addr id g.
  unfold replace_data_table, make_gnode. rewrite Hinit, Hout. simpl.
  assert (Halter : alter (gnode_set_id (pool_next_id w)) (length (gnodes w))
                     (gnodes w ++
                        [gnode_init (gnode_construct out_schema
                                       (data_table_get_schema data_table))])
                   = gnodes w ++ [g]).
  { rewrite alter_app_r_alt by lia. rewrite Nat.sub_diag. reflexivity. }
  unfold deref_gnode. simpl. rewrite Halter.
  rewrite lookup_app_r by lia. rewrite Nat.sub_diag. simpl.
  unfold _process, send, with_events. simpl.
  rewrite Halter, <- !app_assoc. reflexivity.
Qed.

Lemma replace_data_table_inv (data_table : t_data_table) (w w' : world) (t t' : Table) :
  replace_data_table data_table w t = Ok (w', t') →
  m_init t = true ∧ t' = set_gnode (length (gnodes w)) t ∧
  GLOBAL_TABLE_ID w' = GLOBAL_TABLE_ID w ∧ gnode_bound w' t'.
Proof.
  intros H.
  destruct (m_init t) eqn:Hinit;
    [|rewrite replace_data_table_uninit in H by exact Hinit; discriminate H].
  destruct (make_out_schema (data_table_get_schema data_table)) as [os|e] eqn:Hout.
  - rewrite (replace_data_table_run _ _ _ os Hinit Hout) in H.
    injection H as <- <-. split; [reflexivity|]. split; [reflexivity|].
    split; [reflexivity|].
    eexists _, _. split; [reflexivity|]. simpl.
    rewrite lookup_app_r by lia. rewrite Nat.sub_diag. reflexivity.
  - unfold replace_data_table, make_gnode in H. rewrite Hinit, Hout in H.
    discriminate H.
Qed.


(** X19.  [replace_data_table] on a table that has not been initialised
    fails with [UninitializedError].  On an initialised table, and a block
    from whose schema [make_gnode] computes an output schema, it succeeds:
    the table points to a node at an address that held no node before,
    built from the schema of the block; the pool is asked, in this order,
    to register that node, to
    take the block (as it was passed, no tag or key column added) at port 0
    and to process; identifier, declared column names and types, limit and
    offset of the table are as before. *)
Theorem replace_data_table_rebinds (data_table : t_data_table) (w : world) (t : Table) :
  (m_init t = false →
   replace_data_table data_table w t = Err UninitializedError) ∧
  (m_init t = true →
   ∀ out_schema,
     make_out_schema (data_table_get_schema data_table) = Ok out_schema →
     ∃ w' t' addr id,
       replace_data_table data_table w t = Ok (w', t') ∧
       gnodes w !! addr = None ∧
       m_gnode t' = Some addr ∧
       gnodes w' !! addr =
         Some (mk_gnode id out_schema (data_table_get_schema data_table) true 0) ∧
       pool_events w' =
         pool_events w ++ [EvRegister addr id; EvSend id 0 data_table; EvProcess] ∧
       get_id t' = get_id t ∧
       m_column_names t' = m_column_names t ∧
       m_data_types t' = m_data_types t ∧
       m_limit t' = m_limit t ∧
       m_offset t' = m_offset t ∧
       m_index t' = m_index t ∧
       m_init t' = true).
Proof.
  split.
  - apply replace_data_table_uninit.
  - intros Hinit out_schema Hout.
    eexists _, _, (length (gnodes w)), (pool_next_id w).
    split; [exact (replace_data_table_run _ w _ _ Hinit Hout)|].
    split; [apply lookup_ge_None_2; lia|].
    split; [reflexivity|].
    split; [simpl; rewrite lookup_app_r by lia; rewrite Nat.sub_diag; reflexivity|].
    repeat split. exact Hinit.
Qed.

Lemma replace_data_table_rebinds_witness :
  replace_data_table two_rows empty_world ring3.2 = Err UninitializedError ∧
  ∃ w' t',
    replace_data_table two_rows busy_world (busy_table 5) = Ok (w', t') ∧
    m_gnode t' = Some 1%nat ∧ m_gnode (busy_table 5) = Some 0%nat ∧
    get_id t' = 0 ∧ m_offset t' = 5 ∧
    pool_events w' =
      [EvRegister 0 0; EvRegister 1 1; EvSend 1 0 two_rows; EvProcess].
Proof.
  split.
  - apply (proj1 (replace_data_table_rebinds two_rows empty_world ring3.2)).
    reflexivity.
  - assert (Hinit : m_init (busy_table 5) = true) by reflexivity.
    assert (Hout : make_out_schema (data_table_get_schema two_rows)
                   = Ok (mk_schema ["x"] [DTYPE_INT64])) by reflexivity.
    destruct (proj2 (replace_data_table_rebinds two_rows busy_world (busy_table 5))
                Hinit _ Hout)
      as (w' & t' & addr & id & Hrun & Hnew & Haddr & Hnode & Hev & Hid & _ & _ & _ & Ho & _).
    exists w', t'. split; [exact Hrun|].
    assert (Hrun' := Hrun).
    rewrite (replace_data_table_run _ _ _ _ Hinit Hout) in Hrun'.
    injection Hrun' as <- <-.
    repeat split.
Defined.

(** ** Histories *)

Lemma gnode_bound_same_gnodes (w w' : world) (t : Table) :
  gnodes w' = gnodes w → gnode_bound w t → gnode_bound w' t.
Proof.
  intros Hg (addr & g & Ha & Hl). exists addr, g. rewrite Hg. split; assumption.
Qed.

Lemma run_call_inv (c : call) (w w' : world) (t t' : Table) :
  run_call c w t = Ok (w', t') →
  same_identity t t' ∧ GLOBAL_TABLE_ID w' = GLOBAL_TABLE_ID w ∧
  m_init t' = m_init t || is_init_call c ∧
  (bound_when_init (w, t) → bound_when_init (w', t')).
Proof.
  unfold bound_when_init. destruct c as [dt rc op|dt|names|dts|id|id]; simpl; intros H.
  - apply bind_Ok in H as ([[w1 t1] dt1] & Hinit & H). injection H as <- <-.
    apply init_inv in Hinit as (_ & _ & Hid & _ & Hi & _ & Hb & Hg).
    split; [exact Hid|]. split; [exact Hg|].
    split; [rewrite Hi, orb_true_r; reflexivity|]. intros _ _. exact Hb.
  - apply replace_data_table_inv in H as (Hi & -> & Hg & Hb).
    split; [repeat split|]. split; [exact Hg|].
    split; [simpl; rewrite Hi; reflexivity|]. intros _ _. exact Hb.
  - injection H as <- <-. split; [repeat split|]. split; [reflexivity|].
    split; [simpl; rewrite orb_false_r; reflexivity|]. intros Hb. exact Hb.
  - injection H as <- <-. split; [repeat split|]. split; [reflexivity|].
    split; [simpl; rewrite orb_false_r; reflexivity|]. intros Hb. exact Hb.
  - apply bind_Ok in H as (w1 & Hu & H). injection H as <- <-.
    unfold unregister_gnode in Hu. apply bind_Ok in Hu as (u & _ & Hu).
    injection Hu as <-.
    split; [repeat split|]. split; [reflexivity|].
    split; [rewrite orb_false_r; reflexivity|].
    intros Hb Hi. apply (gnode_bound_same_gnodes w); [reflexivity | exact (Hb Hi)].
  - apply bind_Ok in H as (w1 & Hr & H). injection H as <- <-.
    unfold reset_gnode in Hr. apply bind_Ok in Hr as (u & _ & Hr).
    destruct (pool_get_gnode id w); [|discriminate Hr]. injection Hr as <-.
    split; [repeat split|]. split; [reflexivity|].
    split; [rewrite orb_false_r; reflexivity|].
    intros Hb Hi. apply (gnode_bound_same_gnodes w); [reflexivity | exact (Hb Hi)].
Qed.

Lemma step_inv (wt : world * Table) (c : call) :
  same_identity wt.2 (step wt c).2 ∧
  GLOBAL_TABLE_ID (step wt c).1 = GLOBAL_TABLE_ID wt.1 ∧
  m_init (step wt c).2 =
    m_init wt.2 || (is_init_call c && is_ok (run_call c wt.1 wt.2)) ∧
  (bound_when_init wt → bound_when_init (step wt c)).
Proof.
  unfold step. destruct wt as [w t]. simpl.
  destruct (run_call c w t) as [[w' t']|e] eqn:Hrun; simpl.
  - apply run_call_inv in Hrun as (Hid & Hg & Hi & Hb).
    rewrite andb_true_r. repeat split; try assumption; apply Hid.
  - rewrite andb_false_r, orb_false_r. repeat split. intros Hb. exact Hb.
Qed.

Lemma run_calls_inv (cs : list call) :
  ∀ wt : world * Table,
    same_identity wt.2 (run_calls cs wt).2 ∧
    GLOBAL_TABLE_ID (run_calls cs wt).1 = GLOBAL_TABLE_ID wt.1 ∧
    m_init (run_calls cs wt).2 = m_init wt.2 || ingested cs wt ∧
    (bound_when_init wt → bound_when_init (run_calls cs wt)).
Proof.
  induction cs as [|c cs IH]; intros wt.
  - simpl. rewrite orb_false_r. repeat split. intros Hb. exact Hb.
  - change (run_calls (c :: cs) wt) with (run_calls cs (step wt c)).
    destruct (IH (step wt c)) as ((I1 & I2 & I3 & I4) & Hg & Hi & Hb).
    destruct (step_inv wt c) as ((S1 & S2 & S3 & S4) & Hg' & Hi' & Hb').
    split; [repeat split; congruence|]. split; [congruence|].
    split; [rewrite Hi, Hi'; simpl; rewrite orb_assoc; reflexivity|].
    intros H. apply Hb, Hb', H.
Qed.

(** ** The initialisation guard *)

Lemma accessors_uninit (w : world) (t : Table) :
  m_init t = false →
  size w t = Err UninitializedError ∧
  get_schema w t = Err UninitializedError ∧
  get_column_names t = Err UninitializedError ∧
  get_data_types t = Err UninitializedError ∧
  get_index t = Err UninitializedError ∧
  get_pool t = Err UninitializedError ∧
  get_gnode t = Err UninitializedError.
Proof.
  intros H.
  unfold size, get_schema, get_column_names, get_data_types, get_index,
    get_pool, get_gnode.
  rewrite H. repeat split.
Qed.

Lemma accessors_init (w : world) (t : Table) :
  m_init t = true → gnode_bound w t →
  (∃ addr g, m_gnode t = Some addr ∧ gnodes w !! addr = Some g ∧
             size w t = Ok (gn_table_size g) ∧
             get_schema w t = Ok (gn_tblschema g) ∧
             get_gnode t = Ok (Some addr)) ∧
  get_column_names t = Ok (m_column_names t) ∧
  get_data_types t = Ok (m_data_types t) ∧
  get_index t = Ok (m_index t) ∧
  get_pool t = Ok (m_pool t).
Proof.
  intros H (addr & g & Ha & Hl).
  unfold size, get_schema, get_column_names, get_data_types, get_index,
    get_pool, get_gnode, deref_gnode.
  rewrite H, Ha, Hl. simpl. split; [|repeat split].
  exists addr, g. repeat split; assumption.
Qed.

(** C8.  In every history of a newly constructed table: as long as no
    ingest has gone through, [size], [get_schema], [get_column_names],
    [get_data_types], [get_index], [get_pool] and [get_gnode] all fail with
    [UninitializedError]; once an ingest has gone through, all seven
    succeed. *)
Theorem accessors_guarded (pool : nat) (column_names : list string)
    (data_types : list t_dtype) (limit : Z) (index : string) (w0 : world)
    (cs : list call) :
  let wt0 := Table_new pool column_names data_types limit index w0 in
  let w := (run_calls cs wt0).1 in
  let t := (run_calls cs wt0).2 in
  (ingested cs wt0 = false →
   size w t = Err UninitializedError ∧
   get_schema w t = Err UninitializedError ∧
   get_column_names t = Err UninitializedError ∧
   get_data_types t = Err UninitializedError ∧
   get_index t = Err UninitializedError ∧
   get_pool t = Err UninitializedError ∧
   get_gnode t = Err UninitializedError) ∧
  (ingested cs wt0 = true →
   is_ok (size w t) = true ∧
   is_ok (get_schema w t) = true ∧
   get_column_names t = Ok (m_column_names t) ∧
   get_data_types t = Ok (m_data_types t) ∧
   get_index t = Ok index ∧
   get_pool t = Ok pool ∧
   ∃ addr, get_gnode t = Ok (Some addr)).
Proof.
  intros wt0 w t.
  destruct (run_calls_inv cs wt0) as ((_ & Hpool & _ & Hindex) & _ & Hinit & Hbound).
  fold t in Hpool, Hindex, Hinit. simpl in Hpool, Hindex, Hinit.
  split; intros Hing; rewrite Hing in Hinit.
  - apply accessors_uninit. exact Hinit.
  - assert (Hb : gnode_bound w t).
    { apply Hbound; [|exact Hinit]. intros H. discriminate H. }
    destruct (accessors_init w t Hinit Hb)
      as ((addr & g & _ & _ & Hsize & Hschema & Hgnode) & Hn & Hd & Hi & Hp).
    rewrite Hsize, Hschema, Hn, Hd, Hi, Hp, Hindex, Hpool.
    repeat split. exists addr. exact Hgnode.
Qed.

Lemma accessors_guarded_witness :
  size (run_calls [CallSetColumnNames ["y"]] ring3).1
       (run_calls [CallSetColumnNames ["y"]] ring3).2 = Err UninitializedError ∧
  get_index (run_calls [CallInit one_row 1 OP_INSERT] ring3).2 = Ok EmptyString.
Proof.
  split.
  - apply (proj1 (accessors_guarded 0%nat ["x"] [DTYPE_INT64] 3 EmptyString empty_world
                    [CallSetColumnNames ["y"]])).
    reflexivity.
  - apply (proj2 (accessors_guarded 0%nat ["x"] [DTYPE_INT64] 3 EmptyString empty_world
                    [CallInit one_row 1 OP_INSERT])).
    vm_compute. reflexivity.
Defined.

(** ** The identifier *)

(** C9.  [get_id] has no initialisation guard: it answers on a table that
    was never initialised, and in every history of the table it returns the
    value the counter had when the table was constructed; the calls on the
    table leave the counter alone, so the next table gets the next value. *)
Theorem get_id_stable (pool : nat) (column_names : list string)
    (data_types : list t_dtype) (limit : Z) (index : string) (w0 : world)
    (cs : list call) :
  let wt0 := Table_new pool column_names data_types limit index w0 in
  m_init wt0.2 = false ∧
  get_id wt0.2 = GLOBAL_TABLE_ID w0 ∧
  get_id (run_calls cs wt0).2 = GLOBAL_TABLE_ID w0 ∧
  ∀ pool' column_names' data_types' limit' index',
    get_id (Table_new pool' column_names' data_types' limit' index'
              (run_calls cs wt0).1).2
    = wrap_uindex (GLOBAL_TABLE_ID w0 + 1).
Proof.
  intros wt0.
  destruct (run_calls_inv cs wt0) as ((Hid & _) & Hg & _).
  split; [reflexivity|]. split; [reflexivity|].
  split; [exact Hid|].
  intros pool' names' dts' limit' index'. simpl. exact Hg.
Qed.

(** ** Division by the limit *)

Lemma bind_not_error {A B : Type} (e : error) (r : result A) (f : A → result B) :
  r ≠ Err e → (∀ a, r = Ok a → f a ≠ Err e) → r ≫= f ≠ Err e.
Proof.
  intros Hr Hf. destruct r as [a|e']; simpl.
  - apply Hf. reflexivity.
  - intros H. apply Hr. injection H as ->. reflexivity.
Qed.

Lemma key_loop_total (t : Table) (kc oc : nat) (rows : list nat) :
  m_limit t ≠ 0 →
  ∀ dt, ∃ dt', key_loop t kc oc rows dt = Ok dt'.
Proof.
  intros Hl. induction rows as [|r rows IH]; intros dt; simpl.
  - exists dt. reflexivity.
  - destruct (decide (m_limit t = 0)); [contradiction|]. apply IH.
Qed.

Lemma clone_column_not_div (a b : string) (dt : t_data_table) :
  clone_column a b dt ≠ Err DivideByZero.
Proof. unfold clone_column. destruct (get_column dt a); discriminate. Qed.

Lemma process_index_column_not_div (t : Table) (dt : t_data_table) :
  m_limit t ≠ 0 → process_index_column t dt ≠ Err DivideByZero.
Proof.
  intros Hl. unfold process_index_column.
  destruct (decide (m_index t = EmptyString)).
  - destruct (add_column "psp_pkey" DTYPE_INT32 true dt) as [dt1 kc].
    destruct (add_column "psp_okey" DTYPE_INT32 true dt1) as [dt2 oc].
    destruct (decide (2 ^ 32 ≤ Z.of_nat (dt_size dt2)));
      [destruct (decide (m_limit t = 0)); [contradiction | discriminate]|].
    destruct (key_loop_total t kc oc (seq 0 (dt_size dt2)) Hl dt2) as [dt' ->].
    discriminate.
  - apply bind_not_error; [apply clone_column_not_div|].
    intros dt1 _. apply clone_column_not_div.
Qed.

Lemma vector_erase_not_div {A : Type} (idx : nat) (v : list A) :
  vector_erase idx v ≠ Err DivideByZero.
Proof. unfold vector_erase. destruct (decide (idx < length v)%nat); discriminate. Qed.

Lemma erase_if_present_not_div (s : t_schema) (name : string)
    (vs : list string * list t_dtype) :
  erase_if_present s name vs ≠ Err DivideByZero.
Proof.
  unfold erase_if_present. destruct (has_column s name); [|discriminate].
  destruct (get_colidx s name) as [idx|]; [|discriminate].
  apply bind_not_error; [apply vector_erase_not_div|]. intros names _.
  apply bind_not_error; [apply vector_erase_not_div|]. intros dts _. discriminate.
Qed.

Lemma make_gnode_not_div (s : t_schema) (w : world) :
  make_gnode s w ≠ Err DivideByZero.
Proof.
  unfold make_gnode, make_out_schema.
  apply bind_not_error; [|intros os _; discriminate].
  apply bind_not_error; [apply erase_if_present_not_div|]. intros vs _.
  apply bind_not_error; [apply erase_if_present_not_div|]. intros vs' _.
  discriminate.
Qed.

Lemma deref_gnode_not_div (t : Table) (w : world) :
  deref_gnode t w ≠ Err DivideByZero.
Proof.
  unfold deref_gnode. destruct (m_gnode t) as [addr|]; [|discriminate].
  destruct (gnodes w !! addr); discriminate.
Qed.

Lemma assert_not_div (cond : bool) (e : error) :
  e ≠ DivideByZero → PSP_VERBOSE_ASSERT cond e ≠ Err DivideByZero.
Proof. intros He. destruct cond; simpl; congruence. Qed.

Lemma init_not_div (data_table : t_data_table) (row_count : Z) (op : t_op)
    (w : world) (t : Table) :
  m_limit t ≠ 0 → init data_table row_count op w t ≠ Err DivideByZero.
Proof.
  intros Hl. unfold init.
  apply bind_not_error; [apply process_index_column_not_div; exact Hl|].
  intros dt2 _.
  apply bind_not_error.
  { unfold calculate_offset. destruct (decide (m_limit t = 0)); [contradiction|].
    discriminate. }
  intros t1 _.
  apply bind_not_error.
  { destruct (negb (m_gnode_set t1)); [|discriminate].
    apply bind_not_error; [apply make_gnode_not_div|].
    intros [w1 a1] _. simpl. discriminate. }
  intros [w2 t2] _.
  apply bind_not_error; [apply assert_not_div; discriminate|]. intros _ _.
  apply bind_not_error; [apply deref_gnode_not_div|]. intros g _. discriminate.
Qed.

Lemma run_call_not_div (c : call) (w : world) (t : Table) :
  m_limit t ≠ 0 → run_call c w t ≠ Err DivideByZero.
Proof.
  intros Hl. destruct c as [dt rc op|dt|names|dts|id|id]; simpl.
  - apply bind_not_error; [apply init_not_div; exact Hl|].
    intros [[w1 t1] dt1] _. discriminate.
  - unfold replace_data_table.
    apply bind_not_error; [apply assert_not_div; discriminate|]. intros _ _.
    apply bind_not_error; [apply make_gnode_not_div|]. intros [w1 a1] _. simpl.
    apply bind_not_error; [apply deref_gnode_not_div|]. intros g _. discriminate.
  - discriminate.
  - discriminate.
  - apply bind_not_error; [|intros w1 _; discriminate].
    unfold unregister_gnode.
    apply bind_not_error; [apply assert_not_div; discriminate|]. intros _ _.
    discriminate.
  - apply bind_not_error; [|intros w1 _; discriminate].
    unfold reset_gnode.
    apply bind_not_error; [apply assert_not_div; discriminate|]. intros _ _.
    destruct (pool_get_gnode id w); discriminate.
Qed.

(** C3 (as amended).  The constructor checks nothing: for every [limit],
    zero included, it returns a table that is not initialised, has offset 0
    and stores the limit; and on a table constructed with
    [0 < limit < 2 ^ 32] no call of any history divides by zero. *)
Theorem constructor_accepts_any_limit (pool : nat) (column_names : list string)
    (data_types : list t_dtype) (limit : Z) (index : string) (w0 : world) :
  let wt0 := Table_new pool column_names data_types limit index w0 in
  m_init wt0.2 = false ∧ m_offset wt0.2 = 0 ∧ m_limit wt0.2 = wrap_uint32 limit ∧
  m_gnode_set wt0.2 = false ∧
  (0 < limit < 2 ^ 32 →
   ∀ (cs : list call) (c : call),
     run_call c (run_calls cs wt0).1 (run_calls cs wt0).2 ≠ Err DivideByZero).
Proof.
  intros wt0. repeat (split; [reflexivity|]).
  intros Hlimit cs c. apply run_call_not_div.
  destruct (run_calls_inv cs wt0) as ((_ & _ & Hl & _) & _).
  rewrite Hl. simpl. rewrite wrap_uint32_small by lia. lia.
Qed.

Lemma constructor_accepts_any_limit_witness :
  m_limit ring3.2 = 3 ∧
  run_call (CallInit one_row 1 OP_INSERT)
    (run_calls [CallInit one_row 1 OP_INSERT] ring3).1
    (run_calls [CallInit one_row 1 OP_INSERT] ring3).2 ≠ Err DivideByZero.
Proof.
  destruct (constructor_accepts_any_limit 0%nat ["x"] [DTYPE_INT64] 3 EmptyString
              empty_world) as (_ & _ & Hl & _ & Hdiv).
  split; [exact Hl|].
  apply (Hdiv ltac:(lia) [CallInit one_row 1 OP_INSERT] (CallInit one_row 1 OP_INSERT)).
Defined.

(** The claim C3 as written fails: a table is constructed with limit 0
    without any error, and its first ingest divides by zero. *)
Lemma zero_limit_constructed :
  let wt0 := Table_new 0%nat ["x"] [DTYPE_INT64] 0 EmptyString empty_world in
  m_limit wt0.2 = 0 ∧ m_init wt0.2 = false ∧
  init one_row 1 OP_INSERT wt0.1 wt0.2 = Err DivideByZero ∧
  init (mk_data_table 0 []) 0 OP_INSERT wt0.1 wt0.2 = Err DivideByZero.
Proof. repeat split. Qed.

(** ** The schema of a new node *)

Lemma filter_zip_fresh (name : string) (ns : list string) :
  ∀ ts : list t_dtype,
    name ∉ ns →
    filter (λ p : string * t_dtype, p.1 ≠ name) (zip ns ts) = zip ns ts.
Proof.
  induction ns as [|x ns IH]; intros ts Hfresh; [reflexivity|].
  destruct ts as [|ty ts]; [reflexivity|].
  apply not_elem_of_cons in Hfresh as [Hx Hns]. simpl.
  rewrite filter_cons_True by (simpl; congruence).
  f_equal. apply IH. exact Hns.
Qed.

Lemma delete_as_filter (name : string) (ns : list string) :
  ∀ (ts : list t_dtype) (idx : nat),
    NoDup ns → ns !! idx = Some name → length ns = length ts →
    zip (delete idx ns) (delete idx ts) =
    filter (λ p : string * t_dtype, p.1 ≠ name) (zip ns ts).
Proof.
  induction ns as [|x ns IH]; intros ts idx Hnd Hidx Hlen; [discriminate Hidx|].
  destruct ts as [|ty ts]; [discriminate Hlen|].
  apply NoDup_cons in Hnd as [Hx Hnd]. simpl in Hlen.
  destruct idx as [|idx]; simpl in Hidx |- *.
  - injection Hidx as ->.
    rewrite filter_cons_False by (simpl; intros H; apply H; reflexivity).
    symmetry. apply filter_zip_fresh. exact Hx.
  - assert (Hne : x ≠ name).
    { intros ->. apply Hx. apply list_elem_of_lookup. exists idx. exact Hidx. }
    rewrite filter_cons_True by (simpl; exact Hne).
    f_equal. apply IH; [exact Hnd | exact Hidx | lia].
Qed.

Lemma has_column_index_of (s : t_schema) (name : string) :
  has_column s name = true ↔ is_Some (index_of name (columns s)).
Proof.
  unfold has_column. rewrite bool_decide_eq_true.
  destruct (index_of name (columns s)) as [i|] eqn:Hi.
  - split; [eauto|]. intros _. apply list_elem_of_lookup. exists i.
    apply index_of_Some. exact Hi.
  - apply index_of_None in Hi. split; [contradiction | intros [i H]; discriminate H].
Qed.

(** One erasure of [make_gnode] on working vectors that still hold [name]
    where [in_schema] has it. *)
Lemma erase_if_present_filter (s : t_schema) (name : string)
    (ns : list string) (ts : list t_dtype) :
  NoDup ns → length ns = length ts →
  (∀ idx, index_of name (columns s) = Some idx → ns !! idx = Some name) →
  (name ∉ columns s → name ∉ ns) →
  ∃ ns' ts',
    erase_if_present s name (ns, ts) = Ok (ns', ts') ∧
    zip ns' ts' = filter (λ p : string * t_dtype, p.1 ≠ name) (zip ns ts) ∧
    NoDup ns' ∧ length ns' = length ts' ∧
    (ns' = ns ∨ ∃ idx, index_of name (columns s) = Some idx ∧ ns' = delete idx ns).
Proof.
  intros Hnd Hlen Hat Hfresh. unfold erase_if_present, get_colidx.
  destruct (has_column s name) eqn:Hhas.
  - apply has_column_index_of in Hhas as [idx Hidx]. rewrite Hidx.
    specialize (Hat idx Hidx).
    assert (Hlt : (idx < length ns)%nat) by (eapply lookup_lt_Some; exact Hat).
    unfold vector_erase. simpl.
    destruct (decide (idx < length ns)%nat); [|contradiction].
    destruct (decide (idx < length ts)%nat); [|lia]. simpl.
    exists (delete idx ns), (delete idx ts). split; [reflexivity|].
    split; [apply delete_as_filter; assumption|].
    split; [exact (sublist_NoDup _ _ Hnd (sublist_delete ns idx))|].
    split; [rewrite !length_delete; [lia | | ];
            apply lookup_lt_is_Some; lia|].
    right. exists idx. split; reflexivity.
  - assert (Hnot : name ∉ columns s).
    { apply index_of_None.
      destruct (index_of name (columns s)) as [i|] eqn:Hi; [|reflexivity].
      assert (Hs : has_column s name = true) by (apply has_column_index_of; eauto).
      congruence. }
    exists ns, ts. split; [reflexivity|].
    split; [symmetry; apply filter_zip_fresh, Hfresh, Hnot|].
    split; [exact Hnd|]. split; [exact Hlen|]. left. reflexivity.
Qed.

(** Where the operation column comes before the primary-key column (or one
    of them is missing), [make_gnode] computes the schema the specification
    asks for. *)
Lemma make_out_schema_op_first (s : t_schema) :
  NoDup (columns s) → length (columns s) = length (types s) →
  (∀ i j, index_of "psp_pkey" (columns s) = Some i →
          index_of "psp_op" (columns s) = Some j → (j < i)%nat) →
  make_out_schema s = Ok (strip_synthetic s).
Proof.
  intros Hnd Hlen Horder. unfold make_out_schema.
  destruct (erase_if_present_filter s "psp_pkey" (columns s) (types s) Hnd Hlen)
    as (ns1 & ts1 & -> & Hz1 & Hnd1 & Hlen1 & Hshape).
  { intros idx Hidx. apply index_of_Some. exact Hidx. }
  { intros H. exact H. }
  simpl.
  destruct (erase_if_present_filter s "psp_op" ns1 ts1 Hnd1 Hlen1)
    as (ns2 & ts2 & -> & Hz2 & _ & Hlen2 & _).
  { intros j Hj. destruct Hshape as [->|(i & Hi & ->)].
    - apply index_of_Some. exact Hj.
    - rewrite list_lookup_delete_lt by exact (Horder i j Hi Hj).
      apply index_of_Some. exact Hj. }
  { intros Hno Hin. apply Hno. destruct Hshape as [->|(i & _ & ->)]; [exact Hin|].
    eapply list_elem_of_delete_inv. exact Hin. }
  simpl. unfold strip_synthetic.
  rewrite <- list_filter_filter, <- Hz1, <- Hz2.
  rewrite fst_zip, snd_zip by lia. reflexivity.
Qed.

(** C7.  The claim holds for a schema that lists the operation column
    before the primary-key column, and fails for one that lists it after:
    [make_gnode] erases the primary-key column and then erases at the
    position the operation column had before that erasure.  From
    [psp_pkey, psp_op, x] it computes the output schema [psp_op] instead of
    [x]; with the operation column last it erases past the end. *)
Theorem make_gnode_stale_index :
  make_out_schema op_first_schema = Ok (strip_synthetic op_first_schema) ∧
  strip_synthetic pkey_first_schema = mk_schema ["x"] [DTYPE_STR] ∧
  make_out_schema pkey_first_schema = Ok (mk_schema ["psp_op"] [DTYPE_UINT8]) ∧
  make_out_schema pkey_first_schema ≠ Ok (strip_synthetic pkey_first_schema) ∧
  data_table_get_schema pkey_first_block = pkey_first_schema ∧
  (∃ w' t',
     replace_data_table pkey_first_block busy_world (busy_table 5) = Ok (w', t') ∧
     get_schema w' t' = Ok (mk_schema ["psp_op"] [DTYPE_UINT8])) ∧
  make_out_schema op_last_schema = Err EraseOutOfRange.
Proof.
  split; [reflexivity|]. split; [reflexivity|]. split; [reflexivity|].
  split; [discriminate|]. split; [reflexivity|]. split; [|reflexivity].
  eexists _, _. split; reflexivity.
Qed.

Lemma make_gnode_node (s : t_schema) (w w' : world) (addr : nat) :
  make_gnode s w = Ok (w', addr) →
  ∃ out_schema,
    make_out_schema s = Ok out_schema ∧
    gnodes w !! addr = None ∧
    gnodes w' !! addr = Some (mk_gnode 0 out_schema s true 0).
Proof.
  unfold make_gnode. intros H. apply bind_Ok in H as (os & Hos & H).
  injection H as <- <-. exists os. split; [exact Hos|].
  split; [apply lookup_ge_None_2; lia|]. simpl.
  rewrite lookup_app_r by lia. rewrite Nat.sub_diag. reflexivity.
Qed.

(** ** Ingests that go through *)

Lemma process_op_column_size (op : t_op) (dt : t_data_table) :
  dt_size (process_op_column op dt) = dt_size dt.
Proof.
  unfold process_op_column.
  destruct (add_column "psp_op" DTYPE_UINT8 false dt) as [dt1 c] eqn:Hadd.
  apply add_column_spec in Hadd as (Hs & _). destruct op; exact Hs.
Qed.

Lemma process_op_column_names_fresh (op : t_op) (dt : t_data_table) :
  "psp_op" ∉ dt_names dt →
  dt_names (process_op_column op dt) = dt_names dt ++ ["psp_op"].
Proof.
  intros Hfresh. unfold process_op_column.
  destruct (add_column "psp_op" DTYPE_UINT8 false dt) as [dt1 c] eqn:Hadd.
  destruct (add_column_fresh _ _ _ _ _ _ Hfresh Hadd) as [_ Hn].
  destruct op; rewrite update_column_names; exact Hn.
Qed.

Lemma process_index_column_names_fresh (t : Table) (dt : t_data_table) :
  m_limit t ≠ 0 → Z.of_nat (dt_size dt) < 2 ^ 32 →
  "psp_pkey" ∉ dt_names dt → "psp_okey" ∉ dt_names dt →
  m_index t = EmptyString ∨ m_index t ∈ dt_names dt →
  ∃ dt', process_index_column t dt = Ok dt' ∧
         dt_names dt' = dt_names dt ++ ["psp_pkey"; "psp_okey"].
Proof.
  intros Hl Hsize Hfp Hfo Hindex. unfold process_index_column.
  destruct (decide (m_index t = EmptyString)) as [He|Hne].
  - destruct (add_column "psp_pkey" DTYPE_INT32 true dt) as [dt1 kc] eqn:Hadd1.
    destruct (add_column "psp_okey" DTYPE_INT32 true dt1) as [dt2 oc] eqn:Hadd2.
    destruct (add_column_fresh _ _ _ _ _ _ Hfp Hadd1) as [_ Hn1].
    assert (Hfo1 : "psp_okey" ∉ dt_names dt1).
    { rewrite Hn1, not_elem_of_app. split; [exact Hfo|].
      rewrite not_elem_of_cons. split; [discriminate | apply not_elem_of_nil]. }
    destruct (add_column_fresh _ _ _ _ _ _ Hfo1 Hadd2) as [_ Hn2].
    apply add_column_spec in Hadd1 as (Hs1 & _).
    apply add_column_spec in Hadd2 as (Hs2 & _).
    destruct (decide (2 ^ 32 ≤ Z.of_nat (dt_size dt2))); [lia|].
    destruct (key_loop_total t kc oc (seq 0 (dt_size dt2)) Hl dt2) as [dt' Hloop].
    exists dt'. split; [exact Hloop|].
    apply key_loop_cells in Hloop as (_ & Hn & _).
    rewrite Hn, Hn2, Hn1, <- app_assoc. reflexivity.
  - destruct Hindex as [He|Hin]; [contradiction|].
    destruct (index_of (m_index t) (dt_names dt)) as [c|] eqn:Hc;
      [|apply index_of_None in Hc; contradiction].
    destruct (get_column_at dt _ c Hc) as (col & _ & Hget).
    unfold clone_column at 2. rewrite Hget. simpl.
    unfold clone_column. rewrite get_column_app by eauto. rewrite Hget.
    eexists. split; [reflexivity|].
    unfold dt_names. simpl. rewrite !fmap_app, <- app_assoc. reflexivity.
Qed.

(** The batches of the specification: named columns, none of them called
    like a synthetic column. *)
Lemma init_succeeds (data_table : t_data_table) (row_count : Z) (op : t_op)
    (w : world) (t : Table) :
  m_limit t ≠ 0 → Z.of_nat (dt_size data_table) < 2 ^ 32 →
  NoDup (dt_names data_table) →
  "psp_op" ∉ dt_names data_table →
  "psp_pkey" ∉ dt_names data_table →
  "psp_okey" ∉ dt_names data_table →
  m_index t = EmptyString ∨ m_index t ∈ dt_names data_table →
  m_gnode_set t = false ∨ gnode_bound w t →
  ∃ w' t' data_table', init data_table row_count op w t = Ok (w', t', data_table').
Proof.
  intros Hl Hsize Hnd Hfop Hfp Hfo Hindex Hgnode.
  pose proof (process_op_column_names_fresh op data_table Hfop) as Hn1.
  pose proof (process_op_column_size op data_table) as Hs1.
  destruct (process_index_column_names_fresh t (process_op_column op data_table))
    as (dt2 & Hidx & Hn2); try assumption.
  { rewrite Hs1. exact Hsize. }
  { apply process_op_column_fresh; [discriminate | exact Hfp]. }
  { apply process_op_column_fresh; [discriminate | exact Hfo]. }
  { destruct Hindex as [He|Hin]; [left; exact He | right].
    rewrite Hn1. apply elem_of_app. left. exact Hin. }
  unfold init. rewrite Hidx. simpl.
  unfold calculate_offset. destruct (decide (m_limit t = 0)); [contradiction|]. simpl.
  destruct (m_gnode_set t) eqn:Hset; simpl.
  - destruct Hgnode as [H|(addr & g & Ha & Hg)]; [discriminate H|].
    unfold deref_gnode. simpl. rewrite Ha, Hg. simpl. rewrite Hset. simpl. eauto.
  - assert (Hout : make_out_schema (data_table_get_schema dt2)
                   = Ok (strip_synthetic (data_table_get_schema dt2))).
    { apply make_out_schema_op_first; simpl.
      - rewrite Hn2, Hn1, <- app_assoc. apply NoDup_app. split; [exact Hnd|].
        split.
        + intros x Hx Hx'. simpl in Hx'.
          repeat (apply elem_of_cons in Hx' as [->|Hx']; [contradiction|]).
          inversion Hx'.
        + repeat (apply NoDup_cons; split;
                  [rewrite ?not_elem_of_cons; repeat split;
                   first [discriminate | apply not_elem_of_nil]|]).
          apply NoDup_nil. exact I.
      - unfold dt_names. rewrite !length_fmap. reflexivity.
      - intros i j. rewrite Hn2, Hn1, <- app_assoc, !index_of_app.
        apply index_of_None in Hfop, Hfp. rewrite Hfop, Hfp. simpl.
        intros Hi Hj. injection Hi as <-. injection Hj as <-. lia. }
    unfold make_gnode. rewrite Hout. simpl.
    unfold deref_gnode. simpl.
    rewrite list_lookup_alter_eq, lookup_app_r by lia.
    rewrite Nat.sub_diag. simpl. eauto.
Qed.

(** ** A table that has taken in many rows *)

(** One ingest of [o] rows takes a new table of the largest capacity to
    offset [o]. *)
Lemma offset_reachable (o : Z) :
  0 ≤ o < UINT32_MAX →
  ∃ w t d,
    init (rows_batch o) o OP_INSERT unbounded.1 unbounded.2 = Ok (w, t, d) ∧
    m_offset t = o ∧ m_limit t = UINT32_MAX ∧ m_index t = EmptyString ∧
    m_init t = true ∧ gnode_bound w t.
Proof.
  intros Ho. unfold UINT32_MAX in Ho.
  assert (Hl : m_limit unbounded.2 = UINT32_MAX) by reflexivity.
  destruct (init_succeeds (rows_batch o) o OP_INSERT unbounded.1 unbounded.2)
    as (w & t & d & Hinit).
  - rewrite Hl. discriminate.
  - unfold rows_batch. simpl. lia.
  - unfold rows_batch, dt_names. simpl. apply NoDup_singleton.
  - apply index_of_None. reflexivity.
  - apply index_of_None. reflexivity.
  - apply index_of_None. reflexivity.
  - left. reflexivity.
  - left. reflexivity.
  - exists w, t, d. split; [exact Hinit|].
    assert (Hsum : 0 ≤ m_offset unbounded.2 + o < 2 ^ 32) by (simpl; lia).
    pose proof (init_offset_exact _ _ _ _ _ _ _ _ Hsum Hinit) as Hoff.
    apply init_inv in Hinit as (_ & _ & (_ & _ & Hlim & Hidx) & _ & Hi & _ & Hb & _).
    split; [rewrite Hoff, Hl; simpl; apply Z.mod_small; unfold UINT32_MAX; lia|].
    split; [rewrite Hlim; exact Hl|].
    split; [rewrite Hidx; reflexivity|].
    split; [exact Hi | exact Hb].
Qed.

Lemma init_synthesized (data_table : t_data_table) (row_count : Z) (op : t_op)
    (w w' : world) (t t' : Table) (data_table' : t_data_table) :
  m_index t = EmptyString → wf_data_table data_table →
  init data_table row_count op w t = Ok (w', t', data_table') →
  column_cells data_table' "psp_pkey"
    = Some (synthesized_key t <$> seq 0 (dt_size data_table)) ∧
  column_cells data_table' "psp_okey"
    = Some (synthesized_key t <$> seq 0 (dt_size data_table)).
Proof.
  intros Hindex Hwf H. apply init_inv in H as (Hidx & _).
  destruct (process_op_column_wf op data_table Hwf) as [Hwf1 Hs1].
  apply process_index_column_synthesized in Hidx; [|exact Hindex|exact Hwf1].
  rewrite Hs1 in Hidx. exact Hidx.
Qed.

Lemma init_small_batch_succeeds (data_table : t_data_table) (row_count : Z)
    (w : world) (t : Table) :
  data_table = one_row ∨ data_table = two_rows →
  m_limit t = UINT32_MAX → m_index t = EmptyString → gnode_bound w t →
  ∃ w' t' d', init data_table row_count OP_INSERT w t = Ok (w', t', d').
Proof.
  intros Hdt Hl Hindex Hb. apply init_succeeds.
  - rewrite Hl. discriminate.
  - destruct Hdt as [-> | ->]; reflexivity.
  - destruct Hdt as [-> | ->]; apply NoDup_singleton.
  - destruct Hdt as [-> | ->]; apply index_of_None; reflexivity.
  - destruct Hdt as [-> | ->]; apply index_of_None; reflexivity.
  - destruct Hdt as [-> | ->]; apply index_of_None; reflexivity.
  - left. exact Hindex.
  - right. exact Hb.
Qed.


(** The claim C1 as written fails where the key does not fit 31 bits.  A
    new table of capacity [2 ^ 32 - 1] without index column takes in
    [2 ^ 31] rows and is at offset [2 ^ 31]; in the next batch the key of
    row 0 is [(0 + 2 ^ 31) mod limit = 2 ^ 31], and the primary-key column
    holds [- 2 ^ 31]. *)
Lemma synthesized_key_not_residue :
  ∃ w1 t1 d1 w2 t2 d2,
    init (rows_batch (2 ^ 31)) (2 ^ 31) OP_INSERT unbounded.1 unbounded.2
      = Ok (w1, t1, d1) ∧
    m_index t1 = EmptyString ∧ m_offset t1 = 2 ^ 31 ∧ m_limit t1 = 2 ^ 32 - 1 ∧
    init one_row 1 OP_INSERT w1 t1 = Ok (w2, t2, d2) ∧
    (0 + m_offset t1) mod m_limit t1 = 2 ^ 31 ∧
    column_cells d2 "psp_pkey" = Some [- 2 ^ 31] ∧
    column_cells d2 "psp_pkey" ≠ Some [(0 + m_offset t1) mod m_limit t1].
Proof.
  destruct (offset_reachable (2 ^ 31)) as (w1 & t1 & d1 & H1 & Ho & Hl & Hi & _ & Hb).
  { unfold UINT32_MAX. lia. }
  destruct (init_small_batch_succeeds one_row 1 w1 t1) as (w2 & t2 & d2 & H2);
    [left; reflexivity | assumption..|].
  exists w1, t1, d1, w2, t2, d2.
  assert (Hwf : wf_data_table one_row) by (repeat constructor).
  destruct (init_synthesized _ _ _ _ _ _ _ _ Hi Hwf H2) as [Hp _].
  assert (Hkey : synthesized_key t1 0 = - 2 ^ 31).
  { unfold synthesized_key. rewrite Ho, Hl. reflexivity. }
  simpl in Hp. rewrite Hkey in Hp.
  split; [exact H1|]. split; [exact Hi|]. split; [exact Ho|]. split; [exact Hl|].
  split; [exact H2|]. rewrite Hp, Ho, Hl. repeat split. discriminate.
Qed.

(** * Further properties *)

(** ** The node behind [init] *)

Lemma init_unset_inv (data_table : t_data_table) (row_count : Z)
    (op : t_op) (w w' : world) (t t' : Table) (data_table' : t_data_table) :
  m_gnode_set t = false →
  init data_table row_count op w t = Ok (w', t', data_table') →
  let addr := length (gnodes w) in
  let id := pool_next_id w in
  ∃ out_schema,
    make_out_schema (data_table_get_schema data_table') = Ok out_schema ∧
    gnodes w !! addr = None ∧
    m_gnode t' = Some addr ∧
    gnodes w' =
      gnodes w ++ [mk_gnode id out_schema (data_table_get_schema data_table') true 0] ∧
    pool_registry w' = (id, addr) :: pool_registry w ∧
    pool_next_id w' = id + 1 ∧
    pool_events w' = pool_events w ++ [EvRegister addr id; EvSend id 0 data_table'].
Proof.
  intros Hset H addr id. unfold init in H.
  apply bind_Ok in H as (dt2 & Hidx & H).
  apply bind_Ok in H as (t1 & Hoff & H).
  apply calculate_offset_Ok in Hoff as [_ ->].
  apply bind_Ok in H as ([w2 t2] & Hg & H).
  simpl in Hg. rewrite Hset in Hg. simpl in Hg.
  apply bind_Ok in Hg as ([w3 a3] & Hmk & Hg).
  unfold make_gnode in Hmk. apply bind_Ok in Hmk as (os & Hos & Hmk).
  injection Hmk as <- <-. simpl in Hg. injection Hg as <- <-.
  apply bind_Ok in H as (u & _ & H).
  apply bind_Ok in H as (g & Hderef & H).
  apply deref_gnode_Ok in Hderef as (a & Ha & Hlook).
  simpl in Ha. injection Ha as <-.
  simpl in Hlook. rewrite alter_app_r_alt in Hlook by lia.
  rewrite Nat.sub_diag in Hlook. simpl in Hlook.
  rewrite lookup_app_r in Hlook by lia. rewrite Nat.sub_diag in Hlook.
  injection Hlook as <-. injection H as <- <- <-.
  exists os. split; [exact Hos|].
  split; [apply lookup_ge_None_2; lia|].
  split; [reflexivity|].
  split; [simpl; rewrite alter_app_r_alt by lia; rewrite Nat.sub_diag; reflexivity|].
  split; [reflexivity|]. split; [reflexivity|].
  simpl. rewrite <- app_assoc. reflexivity.
Qed.

(** X1.  The first [init] of a table (no node set yet) makes one node from
    the schema of the block as the tag and key steps left it, puts it at an
    address that held nothing, has the pool register it and then sends the
    block to the identifier the pool gave. *)
Theorem first_init_binds_node (data_table : t_data_table) (row_count : Z)
    (op : t_op) (w w' : world) (t t' : Table) (data_table' : t_data_table) :
  m_gnode_set t = false →
  init data_table row_count op w t = Ok (w', t', data_table') →
  let addr := length (gnodes w) in
  let id := pool_next_id w in
  ∃ out_schema,
    make_out_schema (data_table_get_schema data_table') = Ok out_schema ∧
    gnodes w !! addr = None ∧
    m_gnode t' = Some addr ∧
    gnodes w' =
      gnodes w ++ [mk_gnode id out_schema (data_table_get_schema data_table') true 0] ∧
    pool_registry w' = (id, addr) :: pool_registry w ∧
    pool_next_id w' = id + 1 ∧
    pool_events w' = pool_events w ++ [EvRegister addr id; EvSend id 0 data_table'].
Proof. apply init_unset_inv. Qed.

Lemma first_init_binds_node_witness :
  ∃ w' t' d',
    init one_row 1 OP_INSERT ring3.1 ring3.2 = Ok (w', t', d') ∧
    m_gnode t' = Some 0%nat ∧
    pool_events w' = [EvRegister 0 0; EvSend 0 0 d'].
Proof.
  destruct (init one_row 1 OP_INSERT ring3.1 ring3.2)
    as [[[w' t'] d']|e] eqn:Hinit; [|vm_compute in Hinit; discriminate Hinit].
  assert (Hset : m_gnode_set ring3.2 = false) by reflexivity.
  destruct (first_init_binds_node one_row 1 OP_INSERT ring3.1 w' ring3.2 t' d'
              Hset Hinit) as (os & _ & _ & Hg & _ & _ & _ & Hev).
  exists w', t', d'. split; [reflexivity|]. split; [exact Hg | exact Hev].
Defined.

Lemma init_set_inv (data_table : t_data_table) (row_count : Z)
    (op : t_op) (w w' : world) (t t' : Table) (data_table' : t_data_table) :
  m_gnode_set t = true →
  init data_table row_count op w t = Ok (w', t', data_table') →
  m_gnode t' = m_gnode t ∧
  gnodes w' = gnodes w ∧
  pool_registry w' = pool_registry w ∧
  pool_next_id w' = pool_next_id w ∧
  (∃ g, deref_gnode t w = Ok g ∧
        pool_events w' = pool_events w ++ [EvSend (gn_id g) 0 data_table']) ∧
  (m_init t = true → get_schema w' t' = get_schema w t).
Proof.
  intros Hset H. unfold init in H.
  apply bind_Ok in H as (dt2 & Hidx & H).
  apply bind_Ok in H as (t1 & Hoff & H).
  apply calculate_offset_Ok in Hoff as [_ ->].
  apply bind_Ok in H as ([w2 t2] & Hg & H).
  simpl in Hg. rewrite Hset in Hg. simpl in Hg. injection Hg as <- <-.
  apply bind_Ok in H as (u & _ & H).
  apply bind_Ok in H as (g & Hderef & H).
  injection H as <- <- <-.
  repeat (split; [reflexivity|]).
  split.
  - exists g. split; [exact Hderef | reflexivity].
  - intros Hinit. unfold get_schema, deref_gnode. simpl. rewrite Hinit. reflexivity.
Qed.

(** X2.  An [init] on a table that has its node makes no node and registers
    nothing: the table keeps its node, the nodes and the registry of the
    pool are as before, and the pool receives exactly one more request, the
    block sent to the identifier of that node; [get_schema] answers as
    before, whatever the columns of the new block. *)
Theorem later_init_reuses_node (data_table : t_data_table) (row_count : Z)
    (op : t_op) (w w' : world) (t t' : Table) (data_table' : t_data_table) :
  m_gnode_set t = true →
  init data_table row_count op w t = Ok (w', t', data_table') →
  m_gnode t' = m_gnode t ∧
  gnodes w' = gnodes w ∧
  pool_registry w' = pool_registry w ∧
  pool_next_id w' = pool_next_id w ∧
  (∃ g, deref_gnode t w = Ok g ∧
        pool_events w' = pool_events w ++ [EvSend (gn_id g) 0 data_table']) ∧
  (m_init t = true → get_schema w' t' = get_schema w t).
Proof. apply init_set_inv. Qed.

Lemma later_init_reuses_node_witness :
  ∃ w' t' d',
    init id_rows 3 OP_DELETE busy_world (busy_table 5) = Ok (w', t', d') ∧
    m_gnode t' = Some 0%nat ∧
    get_schema w' t' = Ok (mk_schema ["x"; "psp_okey"] [DTYPE_INT64; DTYPE_INT32]).
Proof.
  destruct (init id_rows 3 OP_DELETE busy_world (busy_table 5))
    as [[[w' t'] d']|e] eqn:Hinit; [|vm_compute in Hinit; discriminate Hinit].
  assert (Hset : m_gnode_set (busy_table 5) = true) by reflexivity.
  destruct (later_init_reuses_node id_rows 3 OP_DELETE busy_world w'
              (busy_table 5) t' d' Hset Hinit) as (Hg & _ & _ & _ & _ & Hschema).
  exists w', t', d'. split; [reflexivity|]. split; [exact Hg|].
  rewrite (Hschema eq_refl). reflexivity.
Defined.

(** ** The block a tagged batch becomes *)

Lemma update_column_wf (c : nat) (f : t_column → t_column) (dt : t_data_table) :
  (∀ col, length (col_data (f col)) = length (col_data col)) →
  wf_data_table dt → wf_data_table (update_column c f dt).
Proof.
  intros Hf Hwf. unfold wf_data_table, update_column in *. simpl.
  rewrite Forall_lookup in *. intros i nc Hi.
  destruct (decide (i = c)) as [->|Hic].
  - rewrite list_lookup_alter_eq in Hi.
    destruct (dt_columns dt !! c) as [[n col]|] eqn:Hcol; [|discriminate Hi].
    injection Hi as <-. simpl. rewrite Hf. exact (Hwf c _ Hcol).
  - rewrite list_lookup_alter_ne in Hi by (intros ->; contradiction).
    exact (Hwf i nc Hi).
Qed.

Lemma key_loop_wf (t : Table) (kc oc : nat) (rows : list nat) :
  ∀ dt dt', key_loop t kc oc rows dt = Ok dt' →
            wf_data_table dt → wf_data_table dt'.
Proof.
  induction rows as [|r rows IH]; intros dt dt' H Hwf; simpl in H.
  - injection H as <-. exact Hwf.
  - destruct (decide (m_limit t = 0)); [discriminate H|].
    apply IH in H; [exact H|].
    do 2 (apply update_column_wf; [intros col; simpl; apply length_insert|]).
    exact Hwf.
Qed.

Lemma get_column_wf (dt : t_data_table) (name : string) (col : t_column) :
  wf_data_table dt → get_column dt name = Some col →
  length (col_data col) = dt_size dt.
Proof.
  intros Hwf H. unfold get_column in H.
  destruct (index_of name (dt_names dt)) as [c|]; [|discriminate H]. simpl in H.
  destruct (dt_columns dt !! c) as [[n col']|] eqn:Hc; [|discriminate H].
  injection H as <-. unfold wf_data_table in Hwf. rewrite Forall_lookup in Hwf.
  exact (Hwf c _ Hc).
Qed.

Lemma process_index_column_wf (t : Table) (dt dt' : t_data_table) :
  wf_data_table dt → process_index_column t dt = Ok dt' →
  wf_data_table dt' ∧ dt_size dt' = dt_size dt.
Proof.
  intros Hwf H. unfold process_index_column in H.
  destruct (decide (m_index t = EmptyString)).
  - destruct (add_column "psp_pkey" DTYPE_INT32 true dt) as [dt1 kc] eqn:Hadd1.
    destruct (add_column "psp_okey" DTYPE_INT32 true dt1) as [dt2 oc] eqn:Hadd2.
    destruct (decide (2 ^ 32 ≤ Z.of_nat (dt_size dt2)));
      [destruct (decide (m_limit t = 0)); discriminate H|].
    apply add_column_spec in Hadd1 as (Hs1 & _ & Hwf1 & _).
    apply add_column_spec in Hadd2 as (Hs2 & _ & Hwf2 & _).
    split; [exact (key_loop_wf _ _ _ _ _ _ H (Hwf2 (Hwf1 Hwf)))|].
    apply key_loop_cells in H as (Hs & _). congruence.
  - apply bind_Ok in H as (dt1 & H1 & H2).
    apply clone_column_Ok in H1 as (col1 & Hcol1 & ->).
    assert (Hwf1 : wf_data_table
                     (mk_data_table (dt_size dt)
                        (dt_columns dt ++ [("psp_pkey", col1)]))).
    { unfold wf_data_table. simpl. apply Forall_app. split; [exact Hwf|].
      apply Forall_singleton. simpl. exact (get_column_wf _ _ _ Hwf Hcol1). }
    apply clone_column_Ok in H2 as (col2 & Hcol2 & ->).
    split; [|reflexivity].
    unfold wf_data_table. simpl. apply Forall_app. split; [exact Hwf1|].
    apply Forall_singleton. simpl. exact (get_column_wf _ _ _ Hwf1 Hcol2).
Qed.

Lemma add_column_fresh_columns (name : string) (dtype : t_dtype) (status : bool)
    (dt : t_data_table) :
  name ∉ dt_names dt →
  (add_column name dtype status dt).1 =
  mk_data_table (dt_size dt)
    (dt_columns dt ++ [(name, mk_column dtype status (replicate (dt_size dt) 0))]).
Proof.
  intros Hfresh. apply index_of_None in Hfresh.
  unfold add_column. rewrite Hfresh. reflexivity.
Qed.

Lemma schema_of_app (dt : t_data_table) (extra : list (string * t_column)) :
  data_table_get_schema (mk_data_table (dt_size dt) (dt_columns dt ++ extra)) =
  schema_app (data_table_get_schema dt) ((λ nc, (nc.1, col_dtype nc.2)) <$> extra).
Proof.
  unfold data_table_get_schema, schema_app, dt_names. simpl.
  rewrite !fmap_app, <- !list_fmap_compose. reflexivity.
Qed.

Lemma schema_app_app (s : t_schema) (a b : list (string * t_dtype)) :
  schema_app (schema_app s a) b = schema_app s (a ++ b).
Proof.
  unfold schema_app. simpl. rewrite !fmap_app, <- !app_assoc. reflexivity.
Qed.

Lemma process_op_column_schema (op : t_op) (dt : t_data_table) :
  "psp_op" ∉ dt_names dt →
  data_table_get_schema (process_op_column op dt) =
  schema_app (data_table_get_schema dt) [("psp_op", DTYPE_UINT8)].
Proof.
  intros Hfresh. unfold process_op_column.
  pose proof (add_column_fresh_columns "psp_op" DTYPE_UINT8 false dt Hfresh) as Hadd.
  destruct (add_column "psp_op" DTYPE_UINT8 false dt) as [dt1 c]. simpl in Hadd.
  subst dt1.
  destruct op; rewrite update_column_schema by reflexivity; apply schema_of_app.
Qed.

Lemma process_index_column_schema (t : Table) (dt dt' : t_data_table)
    (key_type : t_dtype) :
  "psp_pkey" ∉ dt_names dt → "psp_okey" ∉ dt_names dt →
  (m_index t = EmptyString ∧ key_type = DTYPE_INT32) ∨
  (m_index t ≠ EmptyString ∧ column_dtype dt (m_index t) = Some key_type) →
  process_index_column t dt = Ok dt' →
  data_table_get_schema dt' =
  schema_app (data_table_get_schema dt)
    [("psp_pkey", key_type); ("psp_okey", key_type)].
Proof.
  intros Hfp Hfo Hkey H. unfold process_index_column in H.
  destruct (decide (m_index t = EmptyString)) as [He|Hne].
  - destruct Hkey as [[_ ->]|[Hc _]]; [|contradiction].
    pose proof (add_column_fresh_columns "psp_pkey" DTYPE_INT32 true dt Hfp) as Hadd1.
    destruct (add_column "psp_pkey" DTYPE_INT32 true dt) as [dt1 kc]. simpl in Hadd1.
    subst dt1.
    set (dt1 := mk_data_table (dt_size dt) _) in *.
    assert (Hfo1 : "psp_okey" ∉ dt_names dt1).
    { unfold dt1, dt_names. simpl. rewrite fmap_app, not_elem_of_app.
      split; [exact Hfo|]. simpl. rewrite not_elem_of_cons.
      split; [discriminate | apply not_elem_of_nil]. }
    pose proof (add_column_fresh_columns "psp_okey" DTYPE_INT32 true dt1 Hfo1) as Hadd2.
    destruct (add_column "psp_okey" DTYPE_INT32 true dt1) as [dt2 oc]. simpl in Hadd2.
    subst dt2.
    destruct (decide (2 ^ 32 ≤ _));
      [destruct (decide (m_limit t = 0)); discriminate H|].
    apply key_loop_schema in H. rewrite H.
    rewrite (schema_of_app dt1). unfold dt1. rewrite (schema_of_app dt).
    rewrite schema_app_app. reflexivity.
  - destruct Hkey as [[He _]|[_ Hty]]; [contradiction|].
    apply bind_Ok in H as (dt1 & H1 & H2).
    apply clone_column_Ok in H1 as (col1 & Hcol1 & ->).
    apply clone_column_Ok in H2 as (col2 & Hcol2 & ->).
    rewrite get_column_app in Hcol2 by (eapply get_column_is_Some; exact Hcol1).
    assert (col2 = col1) by congruence. subst col2.
    unfold column_dtype in Hty. rewrite Hcol1 in Hty. simpl in Hty.
    injection Hty as <-.
    rewrite (schema_of_app (mk_data_table _ _)), (schema_of_app dt).
    rewrite schema_app_app. reflexivity.
Qed.

Lemma filter_zip_user (ns : list string) :
  ∀ ts : list t_dtype,
    "psp_op" ∉ ns → "psp_pkey" ∉ ns →
    filter (λ p : string * t_dtype, p.1 ≠ "psp_op" ∧ p.1 ≠ "psp_pkey") (zip ns ts)
    = zip ns ts.
Proof.
  induction ns as [|x ns IH]; intros ts Hop Hpk; [reflexivity|].
  destruct ts as [|ty ts]; [reflexivity|].
  apply not_elem_of_cons in Hop as [Hx1 Hop].
  apply not_elem_of_cons in Hpk as [Hx2 Hpk]. simpl.
  rewrite filter_cons_True by (simpl; split; congruence).
  f_equal. apply IH; assumption.
Qed.

Lemma strip_synthetic_tagged (s : t_schema) (key_type : t_dtype) :
  "psp_op" ∉ columns s → "psp_pkey" ∉ columns s →
  length (columns s) = length (types s) →
  strip_synthetic
    (schema_app s [("psp_op", DTYPE_UINT8); ("psp_pkey", key_type);
                   ("psp_okey", key_type)])
  = schema_app s [("psp_okey", key_type)].
Proof.
  intros Hop Hpk Hlen. unfold strip_synthetic, schema_app. simpl.
  rewrite zip_with_app by exact Hlen. rewrite filter_app.
  rewrite filter_zip_user by assumption. simpl.
  rewrite filter_cons_False by (simpl; intros [H _]; apply H; reflexivity).
  rewrite filter_cons_False by (simpl; intros [_ H]; apply H; reflexivity).
  rewrite filter_cons_True by (simpl; split; discriminate).
  rewrite filter_nil, !fmap_app, fst_zip, snd_zip by lia. reflexivity.
Qed.

Lemma make_out_schema_tagged (s : t_schema) (key_type : t_dtype) :
  NoDup (columns s) →
  "psp_op" ∉ columns s → "psp_pkey" ∉ columns s → "psp_okey" ∉ columns s →
  length (columns s) = length (types s) →
  make_out_schema
    (schema_app s [("psp_op", DTYPE_UINT8); ("psp_pkey", key_type);
                   ("psp_okey", key_type)])
  = Ok (schema_app s [("psp_okey", key_type)]).
Proof.
  intros Hnd Hop Hpk Hok Hlen.
  rewrite <- strip_synthetic_tagged by assumption.
  apply make_out_schema_op_first; simpl.
  - apply NoDup_app. split; [exact Hnd|]. split.
    + intros x Hx Hx'.
      repeat (apply elem_of_cons in Hx' as [->|Hx']; [contradiction|]).
      inversion Hx'.
    + repeat (apply NoDup_cons; split;
              [rewrite ?not_elem_of_cons; repeat split;
               first [discriminate | apply not_elem_of_nil]|]).
      apply NoDup_nil. exact I.
  - rewrite !length_app. simpl. lia.
  - intros i j. rewrite !index_of_app.
    apply index_of_None in Hop, Hpk. rewrite Hop, Hpk. simpl.
    intros Hi Hj. injection Hi as <-. injection Hj as <-. lia.
Qed.

Lemma schema_lengths (dt : t_data_table) :
  length (columns (data_table_get_schema dt))
  = length (types (data_table_get_schema dt)).
Proof. unfold data_table_get_schema, dt_names. simpl. rewrite !length_fmap. reflexivity. Qed.

Lemma init_tagged_block (data_table : t_data_table) (row_count : Z)
    (op : t_op) (w w' : world) (t t' : Table) (data_table' : t_data_table)
    (key_type : t_dtype) :
  user_block data_table →
  (m_index t = EmptyString ∧ key_type = DTYPE_INT32) ∨
  (m_index t ≠ EmptyString ∧
   column_dtype data_table (m_index t) = Some key_type) →
  init data_table row_count op w t = Ok (w', t', data_table') →
  dt_size data_table' = dt_size data_table ∧
  data_table_get_schema data_table' =
    schema_app (data_table_get_schema data_table)
      [("psp_op", DTYPE_UINT8); ("psp_pkey", key_type); ("psp_okey", key_type)] ∧
  (wf_data_table data_table → wf_data_table data_table').
Proof.
  intros (Hnd & Hop & Hpk & Hok) Hkey H.
  apply init_inv in H as (Hidx & _).
  assert (Hkey1 : (m_index t = EmptyString ∧ key_type = DTYPE_INT32) ∨
                  (m_index t ≠ EmptyString ∧
                   column_dtype (process_op_column op data_table) (m_index t)
                   = Some key_type)).
  { destruct Hkey as [Hk|[Hne Hty]]; [left; exact Hk | right].
    split; [exact Hne|]. unfold column_dtype in *.
    rewrite process_op_column_keeps; [exact Hty|].
    intros He. rewrite He in Hty.
    destruct (get_column data_table "psp_op") as [col|] eqn:Hcol; [|discriminate Hty].
    apply get_column_is_Some in Hcol as [c Hc].
    apply index_of_None in Hop. congruence. }
  split; [|split].
  - assert (Hsz := process_op_column_size op data_table).
    unfold process_index_column in Hidx.
    destruct (decide (m_index t = EmptyString)).
    + destruct (add_column "psp_pkey" DTYPE_INT32 true _) as [dt1 kc] eqn:Hadd1.
      destruct (add_column "psp_okey" DTYPE_INT32 true dt1) as [dt2 oc] eqn:Hadd2.
      destruct (decide (2 ^ 32 ≤ _));
        [destruct (decide (m_limit t = 0)); discriminate Hidx|].
      apply add_column_spec in Hadd1 as (Hs1 & _).
      apply add_column_spec in Hadd2 as (Hs2 & _).
      apply key_loop_cells in Hidx as (Hs & _). congruence.
    + apply bind_Ok in Hidx as (dt1 & H1 & H2).
      apply clone_column_Ok in H1 as (col1 & _ & ->).
      apply clone_column_Ok in H2 as (col2 & _ & ->). exact Hsz.
  - assert (Hpk1 : "psp_pkey" ∉ dt_names (process_op_column op data_table)).
    { apply process_op_column_fresh; [discriminate | exact Hpk]. }
    assert (Hok1 : "psp_okey" ∉ dt_names (process_op_column op data_table)).
    { apply process_op_column_fresh; [discriminate | exact Hok]. }
    rewrite (process_index_column_schema t _ _ key_type Hpk1 Hok1 Hkey1 Hidx).
    rewrite process_op_column_schema by exact Hop.
    rewrite schema_app_app. reflexivity.
  - intros Hwf. destruct (process_op_column_wf op data_table Hwf) as [Hwf1 _].
    exact (proj1 (process_index_column_wf t _ _ Hwf1 Hidx)).
Qed.

(** X3.  A batch that brings none of the three synthetic columns, with
    fewer than [2 ^ 32] rows, is always taken in by a table whose limit is
    not zero (and whose index column, if any, is in the batch).  The block
    the call leaves has the same number of rows and the columns of the batch
    followed by [psp_op] (uint8), [psp_pkey] and [psp_okey], the two key
    columns with type int32 when keys are synthesized and with the type of
    the index column otherwise; every column still has one cell per row. *)
Theorem ingest_of_user_block (data_table : t_data_table) (row_count : Z)
    (op : t_op) (w : world) (t : Table) (key_type : t_dtype) :
  user_block data_table →
  m_limit t ≠ 0 → Z.of_nat (dt_size data_table) < 2 ^ 32 →
  (m_index t = EmptyString ∧ key_type = DTYPE_INT32) ∨
  (m_index t ≠ EmptyString ∧
   column_dtype data_table (m_index t) = Some key_type) →
  m_gnode_set t = false ∨ gnode_bound w t →
  ∃ w' t' data_table',
    init data_table row_count op w t = Ok (w', t', data_table') ∧
    m_init t' = true ∧
    dt_size data_table' = dt_size data_table ∧
    data_table_get_schema data_table' =
      schema_app (data_table_get_schema data_table)
        [("psp_op", DTYPE_UINT8); ("psp_pkey", key_type); ("psp_okey", key_type)] ∧
    (wf_data_table data_table → wf_data_table data_table').
Proof.
  intros Hub Hl Hsize Hkey Hg.
  assert (Hub' := Hub). destruct Hub' as (Hnd & Hop & Hpk & Hok).
  destruct (init_succeeds data_table row_count op w t) as (w' & t' & d' & H);
    try assumption.
  { destruct Hkey as [[He _]|[_ Hty]]; [left; exact He | right].
    unfold column_dtype in Hty.
    destruct (get_column data_table (m_index t)) as [col|] eqn:Hcol; [|discriminate Hty].
    apply get_column_is_Some in Hcol as [c Hc].
    apply list_elem_of_lookup. exists c. apply index_of_Some. exact Hc. }
  exists w', t', d'. split; [exact H|].
  split; [apply init_inv in H as (_ & _ & _ & _ & Hi & _); exact Hi|].
  exact (init_tagged_block _ _ _ _ _ _ _ _ key_type Hub Hkey H).
Qed.

Lemma ingest_of_user_block_witness :
  ∃ w' t' d',
    init id_rows 3 OP_INSERT id_table.1 id_table.2 = Ok (w', t', d') ∧
    columns (data_table_get_schema d') = ["id"; "x"; "psp_op"; "psp_pkey"; "psp_okey"] ∧
    types (data_table_get_schema d') =
      [DTYPE_INT64; DTYPE_INT64; DTYPE_UINT8; DTYPE_INT64; DTYPE_INT64].
Proof.
  assert (Hub : user_block id_rows).
  { split; [|repeat split; apply index_of_None; reflexivity].
    apply NoDup_cons. split; [|apply NoDup_singleton].
    rewrite not_elem_of_cons. split; [discriminate | apply not_elem_of_nil]. }
  assert (Hl : m_limit id_table.2 ≠ 0) by discriminate.
  assert (Hsize : Z.of_nat (dt_size id_rows) < 2 ^ 32) by reflexivity.
  assert (Hkey : (m_index id_table.2 = EmptyString ∧ DTYPE_INT64 = DTYPE_INT32) ∨
                 (m_index id_table.2 ≠ EmptyString ∧
                  column_dtype id_rows (m_index id_table.2) = Some DTYPE_INT64)).
  { right. split; [discriminate | reflexivity]. }
  assert (Hg : m_gnode_set id_table.2 = false ∨ gnode_bound id_table.1 id_table.2).
  { left. reflexivity. }
  destruct (ingest_of_user_block id_rows 3 OP_INSERT id_table.1 id_table.2
              DTYPE_INT64 Hub Hl Hsize Hkey Hg)
    as (w' & t' & d' & H & _ & _ & Hschema & _).
  exists w', t', d'. split; [exact H|]. rewrite Hschema. split; reflexivity.
Defined.

(** X4.  After the first ingest of such a batch, [get_schema] answers with
    the columns of the batch followed by [psp_okey]: the operation and the
    primary-key column are taken out of the schema of the node, the
    original-key column stays in. *)
Theorem first_ingest_output_schema (data_table : t_data_table) (row_count : Z)
    (op : t_op) (w w' : world) (t t' : Table) (data_table' : t_data_table)
    (key_type : t_dtype) :
  user_block data_table →
  (m_index t = EmptyString ∧ key_type = DTYPE_INT32) ∨
  (m_index t ≠ EmptyString ∧
   column_dtype data_table (m_index t) = Some key_type) →
  m_gnode_set t = false →
  init data_table row_count op w t = Ok (w', t', data_table') →
  get_schema w' t' =
    Ok (schema_app (data_table_get_schema data_table) [("psp_okey", key_type)]).
Proof.
  intros Hub Hkey Hset H.
  destruct (init_tagged_block _ _ _ _ _ _ _ _ key_type Hub Hkey H) as (_ & Hschema & _).
  destruct (init_unset_inv _ _ _ _ _ _ _ _ Hset H)
    as (os & Hos & _ & Hg & Hnodes & _).
  destruct Hub as (Hnd & Hop & Hpk & Hok).
  rewrite Hschema, make_out_schema_tagged in Hos;
    try assumption; [|apply schema_lengths].
  injection Hos as <-.
  apply init_inv in H as (_ & _ & _ & _ & Hi & _).
  unfold get_schema, deref_gnode. rewrite Hi, Hg, Hnodes. simpl.
  rewrite lookup_app_r by lia. rewrite Nat.sub_diag. reflexivity.
Qed.

Lemma first_ingest_output_schema_witness :
  ∃ w' t' d',
    init one_row 1 OP_INSERT ring3.1 ring3.2 = Ok (w', t', d') ∧
    get_schema w' t' = Ok (mk_schema ["x"; "psp_okey"] [DTYPE_INT64; DTYPE_INT32]).
Proof.
  destruct (init one_row 1 OP_INSERT ring3.1 ring3.2)
    as [[[w' t'] d']|e] eqn:Hinit; [|vm_compute in Hinit; discriminate Hinit].
  assert (Hub : user_block one_row).
  { split; [apply NoDup_singleton|]. repeat split; apply index_of_None; reflexivity. }
  assert (Hkey : (m_index ring3.2 = EmptyString ∧ DTYPE_INT32 = DTYPE_INT32) ∨
                 (m_index ring3.2 ≠ EmptyString ∧
                  column_dtype one_row (m_index ring3.2) = Some DTYPE_INT32)).
  { left. split; reflexivity. }
  assert (Hset : m_gnode_set ring3.2 = false) by reflexivity.
  exists w', t', d'. split; [reflexivity|].
  exact (first_ingest_output_schema one_row 1 OP_INSERT ring3.1 w' ring3.2 t' d'
           DTYPE_INT32 Hub Hkey Hset Hinit).
Defined.

(** X5.  The tag and key steps write only the columns [psp_op], [psp_pkey]
    and [psp_okey]: every other column of the batch has, in the block the
    call leaves, the cells it came with. *)
Theorem init_keeps_user_columns (data_table : t_data_table) (row_count : Z)
    (op : t_op) (w w' : world) (t t' : Table) (data_table' : t_data_table)
    (name : string) :
  name ≠ "psp_op" → name ≠ "psp_pkey" → name ≠ "psp_okey" →
  name ∈ dt_names data_table →
  init data_table row_count op w t = Ok (w', t', data_table') →
  column_cells data_table' name = column_cells data_table name.
Proof.
  intros Hop Hpk Hok Hin H. apply init_inv in H as (Hidx & _).
  assert (Hget := process_op_column_keeps op data_table name Hop).
  assert (Hsome : is_Some (index_of name (dt_names (process_op_column op data_table)))).
  { destruct (index_of name (dt_names data_table)) as [c|] eqn:Hc;
      [|apply index_of_None in Hc; contradiction].
    destruct (get_column_at data_table name c Hc) as (col & _ & Hcol).
    rewrite Hcol in Hget. eapply get_column_is_Some. exact Hget. }
  rewrite (process_index_column_keeps t _ _ name Hpk Hok Hsome Hidx).
  unfold column_cells. rewrite Hget. reflexivity.
Qed.

Lemma init_keeps_user_columns_witness :
  ∃ w' t' d',
    init id_rows 3 OP_DELETE busy_world (busy_table 5) = Ok (w', t', d') ∧
    column_cells d' "x" = Some [1; 2; 3].
Proof.
  destruct (init id_rows 3 OP_DELETE busy_world (busy_table 5))
    as [[[w' t'] d']|e] eqn:Hinit; [|vm_compute in Hinit; discriminate Hinit].
  exists w', t', d'. split; [reflexivity|].
  rewrite (init_keeps_user_columns id_rows 3 OP_DELETE busy_world w'
             (busy_table 5) t' d' "x"); [reflexivity| | | | |exact Hinit].
  - discriminate.
  - discriminate.
  - discriminate.
  - apply list_elem_of_lookup. exists 1%nat. reflexivity.
Defined.

(** ** Keys along the ring *)

Lemma synthesized_key_shift (t t1 : Table) (n1 j : nat) :
  0 < m_limit t → 0 ≤ m_offset t →
  Z.of_nat n1 + Z.of_nat j + m_offset t < 2 ^ 32 →
  m_limit t1 = m_limit t →
  m_offset t1 = wrap_uint32 (m_offset t + Z.of_nat n1) mod m_limit t →
  synthesized_key t1 j = synthesized_key t (n1 + j).
Proof.
  intros Hl Ho Hsum Hl1 Ho1. unfold synthesized_key.
  rewrite Hl1, Ho1, Nat2Z.inj_add.
  rewrite (wrap_uint32_small (m_offset t + Z.of_nat n1)) by lia.
  pose proof (Z.mod_pos_bound (m_offset t + Z.of_nat n1) (m_limit t) Hl) as Hb.
  pose proof (Z.mod_le (m_offset t + Z.of_nat n1) (m_limit t) ltac:(lia) Hl) as Hle.
  rewrite !wrap_uint32_small by lia.
  rewrite Zplus_mod_idemp_r. do 2 f_equal. lia.
Qed.

(** X6.  Ingesting a batch in two pieces gives the rows the keys they get
    when the batch is ingested whole: on a table without index column, the
    keys of a first batch followed by the keys of a second batch are the
    keys of one batch of as many rows, as long as the ring positions stay
    below [2 ^ 32]. *)
Theorem split_batch_same_keys (first second whole : t_data_table)
    (rc2 rc : Z) (op1 op2 op : t_op) (w w1 w2 w' : world) (t t1 t2 t' : Table)
    (first' second' whole' : t_data_table) :
  m_index t = EmptyString → 0 < m_limit t → 0 ≤ m_offset t →
  wf_data_table first → wf_data_table second → wf_data_table whole →
  dt_size whole = (dt_size first + dt_size second)%nat →
  Z.of_nat (dt_size whole) + m_offset t ≤ 2 ^ 32 →
  init first (Z.of_nat (dt_size first)) op1 w t = Ok (w1, t1, first') →
  init second rc2 op2 w1 t1 = Ok (w2, t2, second') →
  init whole rc op w t = Ok (w', t', whole') →
  ∃ keys1 keys2,
    column_cells first' "psp_pkey" = Some keys1 ∧
    column_cells second' "psp_pkey" = Some keys2 ∧
    column_cells whole' "psp_pkey" = Some (keys1 ++ keys2) ∧
    column_cells first' "psp_okey" = Some keys1 ∧
    column_cells second' "psp_okey" = Some keys2 ∧
    column_cells whole' "psp_okey" = Some (keys1 ++ keys2).
Proof.
  intros Hindex Hl Ho Hwf1 Hwf2 Hwf Hsize Hsum H1 H2 H.
  pose proof (init_offset _ _ _ _ _ _ _ _ H1) as (_ & Hl1 & Ho1).
  assert (Hindex1 : m_index t1 = EmptyString).
  { apply init_inv in H1 as (_ & _ & (_ & _ & _ & Hi) & _). congruence. }
  destruct (init_synthesized _ _ _ _ _ _ _ _ Hindex Hwf1 H1) as [Hp1 Hk1].
  destruct (init_synthesized _ _ _ _ _ _ _ _ Hindex1 Hwf2 H2) as [Hp2 Hk2].
  destruct (init_synthesized _ _ _ _ _ _ _ _ Hindex Hwf H) as [Hp Hk].
  assert (Heq : synthesized_key t <$> seq 0 (dt_size whole) =
                (synthesized_key t <$> seq 0 (dt_size first)) ++
                (synthesized_key t1 <$> seq 0 (dt_size second))).
  { assert (Hseq : seq (dt_size first) (dt_size second)
                   = Nat.add (dt_size first) <$> seq 0 (dt_size second)).
    { rewrite fmap_add_seq, Nat.add_0_r. reflexivity. }
    rewrite Hsize, seq_app, fmap_app. f_equal. simpl.
    rewrite Hseq, <- list_fmap_compose.
    apply list_fmap_ext. intros i j Hj. apply lookup_seq in Hj as [-> Hlt]. simpl.
    symmetry. apply synthesized_key_shift; try assumption. lia. }
  rewrite Heq in Hp, Hk.
  eexists _, _. repeat split; eassumption.
Qed.

Lemma split_batch_same_keys_witness :
  ∃ w1 t1 d1 w2 t2 d2 w' t' d',
    init one_row 1 OP_INSERT busy_world (busy_table 5) = Ok (w1, t1, d1) ∧
    init two_rows 2 OP_INSERT w1 t1 = Ok (w2, t2, d2) ∧
    init id_rows 3 OP_INSERT busy_world (busy_table 5) = Ok (w', t', d') ∧
    column_cells d1 "psp_pkey" = Some [5] ∧
    column_cells d2 "psp_pkey" = Some [6; 7] ∧
    column_cells d' "psp_pkey" = Some [5; 6; 7].
Proof.
  destruct (init one_row 1 OP_INSERT busy_world (busy_table 5))
    as [[[w1 t1] d1]|e] eqn:H1; [|vm_compute in H1; discriminate H1].
  assert (H1' := H1). vm_compute in H1'. injection H1' as Hw1 Ht1 Hd1.
  destruct (init two_rows 2 OP_INSERT w1 t1)
    as [[[w2 t2] d2]|e] eqn:H2;
    [|rewrite <- Hw1, <- Ht1 in H2; vm_compute in H2; discriminate H2].
  destruct (init id_rows 3 OP_INSERT busy_world (busy_table 5))
    as [[[w' t'] d']|e] eqn:H; [|vm_compute in H; discriminate H].
  assert (Hindex : m_index (busy_table 5) = EmptyString) by reflexivity.
  assert (Hl : 0 < m_limit (busy_table 5)) by reflexivity.
  assert (Ho : 0 ≤ m_offset (busy_table 5)) by (vm_compute; discriminate).
  assert (Hwf1 : wf_data_table one_row) by (repeat constructor).
  assert (Hwf2 : wf_data_table two_rows) by (repeat constructor).
  assert (Hwf : wf_data_table id_rows) by (repeat constructor).
  assert (Hsize : dt_size id_rows = (dt_size one_row + dt_size two_rows)%nat)
    by reflexivity.
  assert (Hsum : Z.of_nat (dt_size id_rows) + m_offset (busy_table 5) ≤ 2 ^ 32)
    by (vm_compute; discriminate).
  destruct (split_batch_same_keys one_row two_rows id_rows 2 3
              OP_INSERT OP_INSERT OP_INSERT busy_world w1 w2 w'
              (busy_table 5) t1 t2 t' d1 d2 d'
              Hindex Hl Ho Hwf1 Hwf2 Hwf Hsize Hsum H1 H2 H)
    as (k1 & k2 & Hp1 & Hp2 & Hp & _).
  exists w1, t1, d1, w2, t2, d2, w', t', d'.
  split; [reflexivity|]. split; [exact H2|]. split; [reflexivity|].
  assert (Hk1 : k1 = [5]).
  { rewrite <- Hd1 in Hp1. vm_compute in Hp1. congruence. }
  subst k1. split; [exact Hp1|].
  assert (Hk2 : k2 = [6; 7]).
  { assert (H2' := H2). rewrite <- Hw1, <- Ht1 in H2'. vm_compute in H2'.
    injection H2' as _ _ Hd2. rewrite <- Hd2 in Hp2. vm_compute in Hp2. congruence. }
  subst k2. split; [exact Hp2 | exact Hp].
Defined.

Lemma synthesized_key_in_ring (t : Table) (i : nat) :
  0 < m_limit t ≤ 2 ^ 31 → 0 ≤ synthesized_key t i < m_limit t.
Proof.
  intros Hl. unfold synthesized_key.
  pose proof (Z.mod_pos_bound (wrap_uint32 (Z.of_nat i + m_offset t)) (m_limit t)
                ltac:(lia)) as Hb.
  rewrite wrap_int32_small by lia. exact Hb.
Qed.

(** X7.  On a table without index column whose limit is at most [2 ^ 31],
    every key written by an ingest lies in [[0, limit)], whatever the
    offset and the number of rows: the table never knows more than [limit]
    different keys. *)
Theorem synthesized_keys_in_ring (data_table : t_data_table) (row_count : Z)
    (op : t_op) (w w' : world) (t t' : Table) (data_table' : t_data_table) :
  m_index t = EmptyString → wf_data_table data_table →
  0 < m_limit t ≤ 2 ^ 31 →
  init data_table row_count op w t = Ok (w', t', data_table') →
  ∃ keys,
    column_cells data_table' "psp_pkey" = Some keys ∧
    column_cells data_table' "psp_okey" = Some keys ∧
    length keys = dt_size data_table ∧
    Forall (λ k, 0 ≤ k < m_limit t) keys.
Proof.
  intros Hindex Hwf Hl H.
  destruct (init_synthesized _ _ _ _ _ _ _ _ Hindex Hwf H) as [Hp Hk].
  eexists. split; [exact Hp|]. split; [exact Hk|].
  split; [rewrite length_fmap, length_seq; reflexivity|].
  apply Forall_fmap, Forall_forall. intros i _. simpl.
  apply synthesized_key_in_ring. exact Hl.
Qed.

Lemma synthesized_keys_in_ring_witness :
  ∃ w' t' d' keys,
    init id_rows 3 OP_INSERT ring3.1 ring3.2 = Ok (w', t', d') ∧
    column_cells d' "psp_pkey" = Some keys ∧
    Forall (λ k, 0 ≤ k < 3) keys.
Proof.
  destruct (init id_rows 3 OP_INSERT ring3.1 ring3.2)
    as [[[w' t'] d']|e] eqn:Hinit; [|vm_compute in Hinit; discriminate Hinit].
  assert (Hindex : m_index ring3.2 = EmptyString) by reflexivity.
  assert (Hwf : wf_data_table id_rows) by (repeat constructor).
  assert (Hl : 0 < m_limit ring3.2 ≤ 2 ^ 31) by (vm_compute; split; [reflexivity | discriminate]).
  destruct (synthesized_keys_in_ring id_rows 3 OP_INSERT ring3.1 w' ring3.2 t' d'
              Hindex Hwf Hl Hinit) as (keys & Hp & _ & _ & Hall).
  exists w', t', d', keys. split; [reflexivity|]. split; [exact Hp | exact Hall].
Defined.

(** X8.  Keys come round after [limit] rows: in a batch ingested into a
    table without index column, the row [limit] positions after row [i]
    gets the key of row [i] (as long as its ring position stays below
    [2 ^ 32]), so a batch with more rows than the limit carries the same
    key twice. *)
Theorem keys_repeat_after_limit (data_table : t_data_table) (row_count : Z)
    (op : t_op) (w w' : world) (t t' : Table) (data_table' : t_data_table)
    (i j : nat) :
  m_index t = EmptyString → wf_data_table data_table →
  0 < m_limit t → 0 ≤ m_offset t →
  (j < dt_size data_table)%nat →
  Z.of_nat j = Z.of_nat i + m_limit t →
  Z.of_nat j + m_offset t < 2 ^ 32 →
  init data_table row_count op w t = Ok (w', t', data_table') →
  ∃ keys key,
    column_cells data_table' "psp_pkey" = Some keys ∧
    column_cells data_table' "psp_okey" = Some keys ∧
    keys !! i = Some key ∧ keys !! j = Some key ∧ i ≠ j.
Proof.
  intros Hindex Hwf Hl Ho Hj Hij Hsum H.
  destruct (init_synthesized _ _ _ _ _ _ _ _ Hindex Hwf H) as [Hp Hk].
  exists (synthesized_key t <$> seq 0 (dt_size data_table)), (synthesized_key t i).
  split; [exact Hp|]. split; [exact Hk|].
  rewrite !list_lookup_fmap, !lookup_seq_lt by lia. simpl.
  split; [reflexivity|]. split; [|lia].
  f_equal. unfold synthesized_key.
  rewrite !wrap_uint32_small by lia. f_equal.
  rewrite Hij. replace (Z.of_nat i + m_limit t + m_offset t)
    with (Z.of_nat i + m_offset t + 1 * m_limit t) by lia.
  apply Z.mod_add. lia.
Qed.

Lemma keys_repeat_after_limit_witness :
  ∃ w' t' d' keys key,
    init id_rows 3 OP_INSERT ring2.1 ring2.2 = Ok (w', t', d') ∧
    column_cells d' "psp_pkey" = Some keys ∧
    keys !! 0%nat = Some key ∧ keys !! 2%nat = Some key.
Proof.
  destruct (init id_rows 3 OP_INSERT ring2.1 ring2.2)
    as [[[w' t'] d']|e] eqn:Hinit; [|vm_compute in Hinit; discriminate Hinit].
  assert (Hindex : m_index ring2.2 = EmptyString) by reflexivity.
  assert (Hwf : wf_data_table id_rows) by (repeat constructor).
  assert (Hl : 0 < m_limit ring2.2) by reflexivity.
  assert (Ho : 0 ≤ m_offset ring2.2) by (vm_compute; discriminate).
  assert (Hj : (2 < dt_size id_rows)%nat) by (vm_compute; lia).
  assert (Hij : Z.of_nat 2 = Z.of_nat 0 + m_limit ring2.2) by reflexivity.
  assert (Hsum : Z.of_nat 2 + m_offset ring2.2 < 2 ^ 32) by reflexivity.
  destruct (keys_repeat_after_limit id_rows 3 OP_INSERT ring2.1 w' ring2.2 t' d'
              0%nat 2%nat Hindex Hwf Hl Ho Hj Hij Hsum Hinit)
    as (keys & key & Hp & _ & Hi & Hj' & _).
  exists w', t', d', keys, key. split; [reflexivity|].
  split; [exact Hp|]. split; [exact Hi | exact Hj'].
Defined.

(** ** What a history can and cannot do *)

Lemma init_zero_limit (data_table : t_data_table) (row_count : Z) (op : t_op)
    (w : world) (t : Table) :
  m_limit t = 0 →
  is_ok (init data_table row_count op w t) = false ∧
  (m_index t = EmptyString →
   init data_table row_count op w t = Err DivideByZero).
Proof.
  intros Hl. split.
  - destruct (init data_table row_count op w t) as [[[w' t'] d']|e] eqn:H;
      [|reflexivity].
    apply init_offset in H as (Hne & _). contradiction.
  - intros Hindex. unfold init, process_index_column.
    destruct (decide (m_index t = EmptyString)); [|contradiction].
    destruct (add_column "psp_pkey" DTYPE_INT32 true _) as [dt1 kc].
    destruct (add_column "psp_okey" DTYPE_INT32 true dt1) as [dt2 oc].
    destruct (decide (2 ^ 32 ≤ _)).
    + destruct (decide (m_limit t = 0)); [reflexivity | contradiction].
    + destruct (seq 0 (dt_size dt2)) as [|r rows]; simpl.
      * unfold calculate_offset.
        destruct (decide (m_limit t = 0)); [reflexivity | contradiction].
      * destruct (decide (m_limit t = 0)); [reflexivity | contradiction].
Qed.

Lemma ingested_zero_limit (cs : list call) :
  ∀ wt : world * Table, m_limit wt.2 = 0 → ingested cs wt = false.
Proof.
  induction cs as [|c cs IH]; intros wt Hl; [reflexivity|]. simpl.
  rewrite IH.
  - rewrite orb_false_r. destruct c; try reflexivity. simpl.
    destruct (init data_table row_count op wt.1 wt.2) as [[[w' t'] d']|e] eqn:H;
      [|reflexivity].
    apply init_offset in H as (Hne & _). contradiction.
  - destruct (step_inv wt c) as ((_ & _ & Hlim & _) & _). congruence.
Qed.

(** X9.  A table constructed with limit 0 can never be used: in every
    history it stays uninitialised, every [init] on it fails (by dividing
    by zero when it has no index column), and so [replace_data_table] and
    the guarded accessors fail as well. *)
Theorem zero_limit_never_initialised (pool : nat) (column_names : list string)
    (data_types : list t_dtype) (limit : Z) (index : string) (w0 : world)
    (cs : list call) :
  wrap_uint32 limit = 0 →
  let wt := run_calls cs (Table_new pool column_names data_types limit index w0) in
  m_init wt.2 = false ∧
  (∀ data_table row_count op,
     is_ok (init data_table row_count op wt.1 wt.2) = false ∧
     (index = EmptyString →
      init data_table row_count op wt.1 wt.2 = Err DivideByZero)) ∧
  (∀ data_table, replace_data_table data_table wt.1 wt.2 = Err UninitializedError) ∧
  size wt.1 wt.2 = Err UninitializedError ∧
  get_schema wt.1 wt.2 = Err UninitializedError.
Proof.
  intros Hzero wt.
  set (wt0 := Table_new pool column_names data_types limit index w0) in *.
  destruct (run_calls_inv cs wt0) as ((_ & _ & Hlim & Hidx) & _ & Hinit & _).
  fold wt in Hlim, Hidx, Hinit.
  assert (Hl : m_limit wt.2 = 0) by (rewrite Hlim; exact Hzero).
  rewrite ingested_zero_limit in Hinit by exact Hzero. simpl in Hinit.
  split; [exact Hinit|]. split.
  - intros dt rc op. destruct (init_zero_limit dt rc op wt.1 wt.2 Hl) as [H1 H2].
    split; [exact H1|]. intros ->. apply H2. exact Hidx.
  - split; [intros dt; apply replace_data_table_uninit; exact Hinit|].
    destruct (accessors_uninit wt.1 wt.2 Hinit) as (Hs & Hg & _).
    split; [exact Hs | exact Hg].
Qed.

Lemma zero_limit_never_initialised_witness :
  let wt := run_calls [CallInit one_row 1 OP_INSERT; CallSetColumnNames ["y"]]
              (Table_new 0%nat ["x"] [DTYPE_INT64] 0 EmptyString empty_world) in
  m_init wt.2 = false ∧
  init two_rows 2 OP_DELETE wt.1 wt.2 = Err DivideByZero.
Proof.
  intros wt.
  assert (Hzero : wrap_uint32 0 = 0) by reflexivity.
  destruct (zero_limit_never_initialised 0%nat ["x"] [DTYPE_INT64] 0
              EmptyString empty_world
              [CallInit one_row 1 OP_INSERT; CallSetColumnNames ["y"]] Hzero)
    as (Hinit & Hfail & _).
  split; [exact Hinit|].
  exact (proj2 (Hfail two_rows 2 OP_DELETE) eq_refl).
Defined.

Lemma key_loop_error (t : Table) (kc oc : nat) (rows : list nat) :
  ∀ dt e, key_loop t kc oc rows dt = Err e → e = DivideByZero ∧ m_limit t = 0.
Proof.
  induction rows as [|r rows IH]; intros dt e H; simpl in H; [discriminate H|].
  destruct (decide (m_limit t = 0)) as [Hl|Hl].
  - injection H as <-. split; [reflexivity | exact Hl].
  - exact (IH _ _ H).
Qed.

Lemma erase_if_present_error (s : t_schema) (name : string)
    (vs : list string * list t_dtype) (e : error) :
  erase_if_present s name vs = Err e → e = EraseOutOfRange.
Proof.
  unfold erase_if_present. destruct (has_column s name) eqn:Hhas; [|discriminate].
  apply has_column_index_of in Hhas as [idx Hidx].
  unfold get_colidx. rewrite Hidx. unfold vector_erase.
  destruct (decide (idx < length vs.1)%nat); simpl;
    [|intros H; injection H as <-; reflexivity].
  destruct (decide (idx < length vs.2)%nat); simpl;
    [discriminate | intros H; injection H as <-; reflexivity].
Qed.

Lemma make_gnode_error (s : t_schema) (w : world) (e : error) :
  make_gnode s w = Err e → e = EraseOutOfRange.
Proof.
  unfold make_gnode, make_out_schema.
  destruct (erase_if_present s "psp_pkey" (columns s, types s)) as [vs|e1] eqn:H1;
    simpl.
  - destruct (erase_if_present s "psp_op" vs) as [vs'|e2] eqn:H2; simpl;
      [discriminate|].
    intros H. injection H as <-. exact (erase_if_present_error _ _ _ _ H2).
  - intros H. injection H as <-. exact (erase_if_present_error _ _ _ _ H1).
Qed.

Lemma init_error (data_table : t_data_table) (row_count : Z) (op : t_op)
    (w : world) (t : Table) (e : error) :
  (m_gnode_set t = true → gnode_bound w t) →
  init data_table row_count op w t = Err e →
  (e = DivideByZero ∧ m_limit t = 0) ∨
  (e = LoopDiverges ∧ 2 ^ 32 ≤ Z.of_nat (dt_size data_table)) ∨
  (e = SchemaError ∧ m_index t ≠ EmptyString) ∨
  (e = EraseOutOfRange ∧ m_gnode_set t = false).
Proof.
  intros Hb. unfold init.
  destruct (process_index_column t (process_op_column op data_table))
    as [dt2|e1] eqn:Hidx; simpl.
  - unfold calculate_offset. destruct (decide (m_limit t = 0)) as [Hl|Hl]; simpl.
    { intros H. injection H as <-. left. split; [reflexivity | exact Hl]. }
    destruct (m_gnode_set t) eqn:Hset; simpl.
    + destruct (Hb eq_refl) as (addr & g & Ha & Hg).
      unfold deref_gnode. simpl. rewrite Hset, Ha, Hg. simpl. discriminate.
    + destruct (make_gnode (data_table_get_schema dt2) w) as [[w3 a3]|e3] eqn:Hmk;
        simpl.
      * unfold make_gnode in Hmk. apply bind_Ok in Hmk as (os & _ & Hmk).
        injection Hmk as <- <-. unfold deref_gnode. simpl.
        rewrite list_lookup_alter_eq, lookup_app_r by lia.
        rewrite Nat.sub_diag. simpl. discriminate.
      * intros H. injection H as <-. apply make_gnode_error in Hmk as ->.
        right. right. right. split; reflexivity.
  - intros H. injection H as <-. unfold process_index_column in Hidx.
    destruct (decide (m_index t = EmptyString)) as [He|Hne].
    + destruct (add_column "psp_pkey" DTYPE_INT32 true _) as [dt1 kc] eqn:Hadd1.
      destruct (add_column "psp_okey" DTYPE_INT32 true dt1) as [dt2 oc] eqn:Hadd2.
      apply add_column_spec in Hadd1 as (Hs1 & _).
      apply add_column_spec in Hadd2 as (Hs2 & _).
      pose proof (process_op_column_size op data_table) as Hs0.
      destruct (decide (2 ^ 32 ≤ _)) as [Hbig|Hsmall].
      * destruct (decide (m_limit t = 0)) as [Hl|Hl]; injection Hidx as <-.
        -- left. split; [reflexivity | exact Hl].
        -- right. left. split; [reflexivity|]. rewrite <- Hs0, <- Hs1, <- Hs2.
           exact Hbig.
      * apply key_loop_error in Hidx as [-> Hl]. left. split; [reflexivity | exact Hl].
    + right. right. left. split; [|exact Hne].
      destruct (clone_column (m_index t) "psp_pkey" _) as [dt1|e2] eqn:H1;
        simpl in Hidx.
      * unfold clone_column in Hidx.
        destruct (get_column dt1 (m_index t)); [discriminate Hidx|].
        injection Hidx as <-. reflexivity.
      * injection Hidx as <-. unfold clone_column in H1.
        destruct (get_column _ (m_index t)); [discriminate H1|].
        injection H1 as <-. reflexivity.
Qed.

Lemma run_call_gnode_set (c : call) (w w' : world) (t t' : Table) :
  run_call c w t = Ok (w', t') →
  m_gnode_set t = m_init t → m_gnode_set t' = m_init t'.
Proof.
  destruct c as [dt rc op|dt|names|dts|id|id]; simpl; intros H Heq.
  - apply bind_Ok in H as ([[w1 t1] dt1] & Hinit & H). injection H as <- <-.
    apply init_inv in Hinit as (_ & _ & _ & _ & Hi & Hs & _). congruence.
  - apply replace_data_table_inv in H as (Hi & -> & _). simpl. congruence.
  - injection H as <- <-. exact Heq.
  - injection H as <- <-. exact Heq.
  - apply bind_Ok in H as (w1 & _ & H). injection H as <- <-. exact Heq.
  - apply bind_Ok in H as (w1 & _ & H). injection H as <- <-. exact Heq.
Qed.

Lemma run_calls_gnode_set (cs : list call) :
  ∀ wt : world * Table,
    m_gnode_set wt.2 = m_init wt.2 →
    m_gnode_set (run_calls cs wt).2 = m_init (run_calls cs wt).2.
Proof.
  induction cs as [|c cs IH]; intros wt Heq; [exact Heq|].
  change (run_calls (c :: cs) wt) with (run_calls cs (step wt c)).
  apply IH. unfold step. destruct wt as [w t]. simpl in *.
  destruct (run_call c w t) as [[w' t']|e] eqn:Hrun; simpl; [|exact Heq].
  exact (run_call_gnode_set _ _ _ _ _ Hrun Heq).
Qed.

(** X10.  In every history of a newly constructed table an [init] can fail
    in four ways only: by dividing by a zero limit, by a row counter that
    cannot reach [2 ^ 32] rows or more, by a configured index column the
    block does not have, or, on the first ingest, by [make_gnode] erasing
    past the end of a vector.  The assertion that the node is set never
    fails, and the node of the table is never a null pointer. *)
Theorem init_failures (pool : nat) (column_names : list string)
    (data_types : list t_dtype) (limit : Z) (index : string) (w0 : world)
    (cs : list call) (data_table : t_data_table) (row_count : Z) (op : t_op)
    (e : error) :
  let wt := run_calls cs (Table_new pool column_names data_types limit index w0) in
  init data_table row_count op wt.1 wt.2 = Err e →
  e ≠ GnodeNotSet ∧ e ≠ NullGnode ∧ e ≠ UninitializedError ∧
  ((e = DivideByZero ∧ wrap_uint32 limit = 0) ∨
   (e = LoopDiverges ∧ 2 ^ 32 ≤ Z.of_nat (dt_size data_table)) ∨
   (e = SchemaError ∧ index ≠ EmptyString) ∨
   (e = EraseOutOfRange ∧ ingested cs
          (Table_new pool column_names data_types limit index w0) = false)).
Proof.
  intros wt H.
  set (wt0 := Table_new pool column_names data_types limit index w0) in *.
  destruct (run_calls_inv cs wt0) as ((_ & _ & Hlim & Hidx) & _ & Hinit & Hbound).
  pose proof (run_calls_gnode_set cs wt0 eq_refl) as Hset.
  fold wt in Hlim, Hidx, Hinit, Hbound, Hset. simpl in Hlim, Hidx, Hinit.
  assert (Hb : m_gnode_set wt.2 = true → gnode_bound wt.1 wt.2).
  { intros Hs. apply Hbound; [intros Hf; discriminate Hf|]. congruence. }
  destruct (init_error _ _ _ _ _ _ Hb H)
    as [[-> Hl]|[[-> Hbig]|[[-> Hne]|[-> Hunset]]]].
  - repeat (split; [discriminate|]). left. split; [reflexivity | congruence].
  - repeat (split; [discriminate|]). right. left. split; [reflexivity | exact Hbig].
  - repeat (split; [discriminate|]). right. right. left.
    split; [reflexivity | congruence].
  - repeat (split; [discriminate|]). right. right. right.
    split; [reflexivity|]. rewrite Hunset in Hset. rewrite <- Hset in Hinit.
    symmetry. exact Hinit.
Qed.

Lemma init_failures_witness :
  ∃ e, init one_row 1 OP_INSERT id_table.1 id_table.2 = Err e ∧
       e ≠ GnodeNotSet ∧ e ≠ NullGnode ∧ e ≠ UninitializedError.
Proof.
  assert (H : init one_row 1 OP_INSERT id_table.1 id_table.2 = Err SchemaError)
    by reflexivity.
  exists SchemaError. split; [exact H|].
  destruct (init_failures 0%nat ["id"; "x"] [DTYPE_INT64; DTYPE_INT64] UINT32_MAX
              "id" empty_world [] one_row 1 OP_INSERT SchemaError H)
    as (H1 & H2 & H3 & _).
  split; [exact H1|]. split; [exact H2 | exact H3].
Defined.

Lemma step_declared_schema (wt : world * Table) (c : call) :
  m_column_names (step wt c).2 =
    match c with CallSetColumnNames ns => ns | _ => m_column_names wt.2 end ∧
  m_data_types (step wt c).2 =
    match c with CallSetDataTypes ts => ts | _ => m_data_types wt.2 end.
Proof.
  unfold step. destruct wt as [w t]. simpl.
  destruct c as [dt rc op|dt|names|dts|id|id]; simpl.
  - destruct (init dt rc op w t) as [[[w' t'] d']|e] eqn:H; simpl;
      [|split; reflexivity].
    apply init_inv in H as (_ & _ & _ & Hd & _). exact Hd.
  - destruct (replace_data_table dt w t) as [[w' t']|e] eqn:H; simpl;
      [|split; reflexivity].
    apply replace_data_table_inv in H as (_ & -> & _). split; reflexivity.
  - split; reflexivity.
  - split; reflexivity.
  - destruct (unregister_gnode id w t); split; reflexivity.
  - destruct (reset_gnode id w t); split; reflexivity.
Qed.

(** X11.  The declared column names and types of a table are written by
    [set_column_names] and [set_data_types] and by nothing else: after any
    history they are the ones of the last setter call, or the ones given to
    the constructor when there was none, whatever the columns of the
    batches ingested; once the table is initialised [get_column_names] and
    [get_data_types] return exactly these. *)
Theorem declared_schema_follows_setters (pool : nat) (column_names : list string)
    (data_types : list t_dtype) (limit : Z) (index : string) (w0 : world)
    (cs : list call) :
  let wt0 := Table_new pool column_names data_types limit index w0 in
  let t := (run_calls cs wt0).2 in
  m_column_names t = last_column_names cs column_names ∧
  m_data_types t = last_data_types cs data_types ∧
  (ingested cs wt0 = true →
   get_column_names t = Ok (last_column_names cs column_names) ∧
   get_data_types t = Ok (last_data_types cs data_types)).
Proof.
  intros wt0 t.
  assert (Hgen : ∀ (cs : list call) (wt : world * Table),
            m_column_names (run_calls cs wt).2
              = last_column_names cs (m_column_names wt.2) ∧
            m_data_types (run_calls cs wt).2
              = last_data_types cs (m_data_types wt.2)).
  { clear. induction cs as [|c cs IH]; intros wt; [split; reflexivity|].
    change (run_calls (c :: cs) wt) with (run_calls cs (step wt c)).
    destruct (IH (step wt c)) as [Hn Hd].
    destruct (step_declared_schema wt c) as [Hn' Hd'].
    rewrite Hn, Hd, Hn', Hd'. split; reflexivity. }
  destruct (Hgen cs wt0) as [Hn Hd]. fold t in Hn, Hd. simpl in Hn, Hd.
  split; [exact Hn|]. split; [exact Hd|].
  intros Hing.
  destruct (run_calls_inv cs wt0) as (_ & _ & Hinit & _).
  fold t in Hinit. rewrite Hing in Hinit. simpl in Hinit.
  unfold get_column_names, get_data_types. rewrite Hinit, Hn, Hd. split; reflexivity.
Qed.

Lemma declared_schema_follows_setters_witness :
  get_column_names
    (run_calls [CallSetColumnNames ["a"]; CallInit id_rows 3 OP_INSERT;
                CallSetColumnNames ["b"; "c"]] ring3).2
  = Ok ["b"; "c"].
Proof.
  apply (declared_schema_follows_setters 0%nat ["x"] [DTYPE_INT64] 3 EmptyString
           empty_world
           [CallSetColumnNames ["a"]; CallInit id_rows 3 OP_INSERT;
            CallSetColumnNames ["b"; "c"]]).
  vm_compute. reflexivity.
Defined.

(** ** [make_gnode] on every order of the synthetic columns *)

(** X12.  For a schema with distinct column names in which the operation
    column comes before the primary-key column, or which lacks one of the
    two, [make_gnode] returns a new initialised node whose output schema is
    the input schema without these two columns (the other columns, the
    original-key column among them, in place with their types) and whose
    input schema is the schema given; it allocates the node and asks
    nothing of the pool. *)
Theorem make_gnode_strips_when_op_first (s : t_schema) (w : world) :
  NoDup (columns s) → length (columns s) = length (types s) →
  (∀ i j, index_of "psp_pkey" (columns s) = Some i →
          index_of "psp_op" (columns s) = Some j → (j < i)%nat) →
  ∃ w' addr,
    make_gnode s w = Ok (w', addr) ∧
    gnodes w !! addr = None ∧
    gnodes w' = gnodes w ++ [mk_gnode 0 (strip_synthetic s) s true 0] ∧
    gnodes w' !! addr = Some (mk_gnode 0 (strip_synthetic s) s true 0) ∧
    pool_registry w' = pool_registry w ∧
    pool_next_id w' = pool_next_id w ∧
    pool_events w' = pool_events w.
Proof.
  intros Hnd Hlen Horder.
  unfold make_gnode. rewrite (make_out_schema_op_first s Hnd Hlen Horder). simpl.
  eexists _, _. split; [reflexivity|].
  split; [apply lookup_ge_None_2; lia|].
  split; [reflexivity|].
  split; [simpl; rewrite lookup_app_r by lia; rewrite Nat.sub_diag; reflexivity|].
  repeat split.
Qed.

Lemma make_gnode_strips_when_op_first_witness :
  ∃ w' addr,
    make_gnode op_first_schema busy_world = Ok (w', addr) ∧
    gnodes w' !! addr =
      Some (mk_gnode 0 (mk_schema ["x"] [DTYPE_STR]) op_first_schema true 0).
Proof.
  assert (Hnd : NoDup (columns op_first_schema)).
  { repeat (apply NoDup_cons; split;
            [rewrite ?not_elem_of_cons; repeat split;
             first [discriminate | apply not_elem_of_nil]|]).
    apply NoDup_nil. exact I. }
  assert (Hlen : length (columns op_first_schema) = length (types op_first_schema))
    by reflexivity.
  assert (Horder : ∀ i j, index_of "psp_pkey" (columns op_first_schema) = Some i →
                          index_of "psp_op" (columns op_first_schema) = Some j →
                          (j < i)%nat).
  { intros i j Hi Hj. vm_compute in Hi, Hj. injection Hi as <-. injection Hj as <-. lia. }
  destruct (make_gnode_strips_when_op_first op_first_schema busy_world Hnd Hlen Horder)
    as (w' & addr & Hmk & _ & _ & Hnode & _).
  exists w', addr. split; [exact Hmk | exact Hnode].
Defined.

Lemma vector_erase_lt {A : Type} (idx : nat) (v : list A) :
  (idx < length v)%nat → vector_erase idx v = Ok (delete idx v).
Proof.
  intros H. unfold vector_erase.
  destruct (decide (idx < length v)%nat); [reflexivity | contradiction].
Qed.

Lemma NoDup_delete_absent (l : list string) (j : nat) (n : string) :
  NoDup l → l !! j = Some n → n ∉ delete j l.
Proof.
  intros Hnd Hj Hin. apply list_elem_of_lookup in Hin as [k Hk].
  rewrite list_lookup_delete in Hk. case_decide.
  - assert (k = j) by (eapply NoDup_lookup; eassumption). lia.
  - assert (S k = j) by (eapply NoDup_lookup; eassumption). lia.
Qed.

(** X13.  For a schema with distinct column names in which the primary-key
    column comes before the operation column, [make_gnode] erases the
    primary-key column and then the column that followed the operation
    column: when the operation column is the last one the second erasure
    is past the end; otherwise the output schema still has the operation
    column and has lost the column after it. *)
Theorem make_out_schema_pkey_first (s : t_schema) (i j : nat) :
  NoDup (columns s) → length (columns s) = length (types s) →
  index_of "psp_pkey" (columns s) = Some i →
  index_of "psp_op" (columns s) = Some j →
  (i < j)%nat →
  (S j = length (columns s) → make_out_schema s = Err EraseOutOfRange) ∧
  (∀ next, columns s !! S j = Some next →
     ∃ out,
       make_out_schema s = Ok out ∧
       columns out = delete j (delete i (columns s)) ∧
       types out = delete j (delete i (types s)) ∧
       ("psp_op" ∈ columns out) ∧ ("psp_pkey" ∉ columns out) ∧
       (next ∉ columns out)).
Proof.
  intros Hnd Hlen Hi Hj Hij.
  pose proof (index_of_Some _ _ _ Hi) as Hci.
  pose proof (index_of_Some _ _ _ Hj) as Hcj.
  pose proof (lookup_lt_Some _ _ _ Hci) as Hilt.
  pose proof (lookup_lt_Some _ _ _ Hcj) as Hjlt.
  assert (Hhp : has_column s "psp_pkey" = true) by (apply has_column_index_of; eauto).
  assert (Hho : has_column s "psp_op" = true) by (apply has_column_index_of; eauto).
  assert (Hstep : make_out_schema s =
            (col_names ← vector_erase j (delete i (columns s));
             data_types ← vector_erase j (delete i (types s));
             Ok (mk_schema col_names data_types))).
  { unfold make_out_schema, erase_if_present, get_colidx.
    rewrite Hhp, Hho, Hi, Hj. simpl.
    rewrite (vector_erase_lt i (columns s)) by lia.
    rewrite (vector_erase_lt i (types s)) by lia. simpl.
    destruct (vector_erase j (delete i (columns s))) as [ns|e]; simpl; [|reflexivity].
    destruct (vector_erase j (delete i (types s))) as [ts|e]; reflexivity. }
  assert (Hlen1 : length (delete i (columns s)) = (length (columns s) - 1)%nat).
  { rewrite length_delete; [reflexivity|]. apply lookup_lt_is_Some. exact Hilt. }
  assert (Hlen2 : length (delete i (types s)) = (length (columns s) - 1)%nat).
  { rewrite length_delete; [lia|]. apply lookup_lt_is_Some. lia. }
  split.
  - intros Hlast. rewrite Hstep. unfold vector_erase.
    destruct (decide (j < length (delete i (columns s)))%nat); [lia | reflexivity].
  - intros next Hnext.
    pose proof (lookup_lt_Some _ _ _ Hnext) as Hnlt.
    eexists. split.
    + rewrite Hstep. unfold vector_erase.
      destruct (decide (j < length (delete i (columns s)))%nat); [|lia].
      destruct (decide (j < length (delete i (types s)))%nat); [|lia].
      reflexivity.
    + simpl. split; [reflexivity|]. split; [reflexivity|].
      assert (Hnd1 : NoDup (delete i (columns s))).
      { exact (sublist_NoDup _ _ Hnd (sublist_delete (columns s) i)). }
      assert (Hat : delete i (columns s) !! j = Some next).
      { rewrite list_lookup_delete_ge by lia. exact Hnext. }
      split; [|split].
      * apply list_elem_of_lookup. exists (j - 1)%nat.
        rewrite list_lookup_delete_lt by lia.
        rewrite list_lookup_delete_ge by lia.
        replace (S (j - 1)) with j by lia. exact Hcj.
      * intros Hin. apply list_elem_of_delete_inv in Hin.
        exact (NoDup_delete_absent _ _ _ Hnd Hci Hin).
      * exact (NoDup_delete_absent _ _ _ Hnd1 Hat).
Qed.

Lemma make_out_schema_pkey_first_witness :
  make_out_schema op_last_schema = Err EraseOutOfRange ∧
  ∃ out, make_out_schema pkey_first_schema = Ok out ∧ "x" ∉ columns out.
Proof.
  assert (Hnd : ∀ a b c : string, a ≠ b → a ≠ c → b ≠ c → NoDup [a; b; c]).
  { intros a b c Hab Hac Hbc.
    repeat (apply NoDup_cons; split;
            [rewrite ?not_elem_of_cons; repeat split;
             first [assumption | apply not_elem_of_nil]|]).
    apply NoDup_nil. exact I. }
  assert (Hnd1 : NoDup (columns op_last_schema)).
  { apply Hnd; discriminate. }
  assert (Hnd2 : NoDup (columns pkey_first_schema)).
  { apply Hnd; discriminate. }
  assert (H12 : (1 < 2)%nat) by lia.
  assert (H01 : (0 < 1)%nat) by lia.
  split.
  - apply (proj1 (make_out_schema_pkey_first op_last_schema 1 2
                    Hnd1 eq_refl eq_refl eq_refl H12)).
    reflexivity.
  - destruct (proj2 (make_out_schema_pkey_first pkey_first_schema 0 1
                       Hnd2 eq_refl eq_refl eq_refl H01) "x" eq_refl)
      as (out & Hout & _ & _ & _ & _ & Hx).
    exists out. split; [exact Hout | exact Hx].
Defined.

(** ** Identifiers of several tables *)

Lemma construct_all_ids (items : list construction) :
  ∀ w : world,
    0 ≤ GLOBAL_TABLE_ID w < 2 ^ 64 →
    get_id <$> (construct_all items w).2 =
    (λ k : nat, wrap_uindex (GLOBAL_TABLE_ID w + Z.of_nat k)) <$> seq 0 (length items).
Proof.
  induction items as [|it items IH]; intros w Hg; [reflexivity|].
  cbn [construct_all length snd].
  set (wt0 := Table_new (c_pool it) (c_column_names it) (c_data_types it)
                (c_limit it) (c_index it) w).
  destruct (run_calls_inv (c_calls it) wt0) as ((Hid & _) & Hglob & _).
  rewrite fmap_cons. cbn [seq]. rewrite fmap_cons. f_equal.
  - unfold get_id. rewrite Hid. simpl. unfold wrap_uindex.
    rewrite Z.add_0_r, Z.mod_small by lia. reflexivity.
  - rewrite IH.
    + rewrite <- fmap_S_seq, <- list_fmap_compose.
      apply list_fmap_ext. intros i k _. simpl. rewrite Hglob. simpl.
      unfold wrap_uindex. rewrite Zplus_mod_idemp_l. f_equal. lia.
    + rewrite Hglob. simpl. unfold wrap_uindex. apply Z.mod_pos_bound. lia.
Qed.

(** X14.  Tables constructed in one process get identifiers that differ
    from one another, whatever is done with the tables in between, as long
    as fewer than [2 ^ 64] + 1 tables are constructed. *)
Theorem table_ids_distinct (items : list construction) (w : world) :
  0 ≤ GLOBAL_TABLE_ID w < 2 ^ 64 →
  Z.of_nat (length items) ≤ 2 ^ 64 →
  NoDup (get_id <$> (construct_all items w).2).
Proof.
  intros Hg Hn. rewrite construct_all_ids by exact Hg.
  apply NoDup_fmap_2_strong; [|apply NoDup_seq].
  intros i j Hi Hj Heq. apply elem_of_seq in Hi, Hj. unfold wrap_uindex in Heq.
  assert (Hdiff : ∀ a b : nat, (a ≤ b)%nat → (b < length items)%nat →
            (GLOBAL_TABLE_ID w + Z.of_nat a) mod 2 ^ 64 =
            (GLOBAL_TABLE_ID w + Z.of_nat b) mod 2 ^ 64 → a = b).
  { intros a b Hab Hb He.
    assert (Hz : (Z.of_nat b - Z.of_nat a) mod 2 ^ 64 = 0).
    { replace (Z.of_nat b - Z.of_nat a)
        with ((GLOBAL_TABLE_ID w + Z.of_nat b) - (GLOBAL_TABLE_ID w + Z.of_nat a))
        by lia.
      rewrite Zminus_mod, He, Z.sub_diag. reflexivity. }
    rewrite Z.mod_small in Hz by lia. lia. }
  destruct (Nat.le_ge_cases i j) as [Hij|Hji].
  - apply Hdiff; [exact Hij | lia | exact Heq].
  - symmetry. apply Hdiff; [exact Hji | lia | symmetry; exact Heq].
Qed.

Lemma table_ids_distinct_witness :
  NoDup (get_id <$>
           (construct_all
              [mk_construction 0 ["x"] [DTYPE_INT64] 3 EmptyString
                 [CallInit one_row 1 OP_INSERT];
               mk_construction 0 ["id"; "x"] [DTYPE_INT64; DTYPE_INT64] 5 "id" []]
              empty_world).2).
Proof.
  apply table_ids_distinct.
  - vm_compute. split; [discriminate | reflexivity].
  - vm_compute. discriminate.
Defined.

(** ** Calls after a rebinding or an unregistration *)

(** X15.  After [replace_data_table], [get_schema] answers with the output
    schema computed from the schema of the new block, and a following
    [init] sends its block to the node made by the replacement: no further
    node is made or registered. *)
Theorem replace_then_ingest (data_table : t_data_table) (w w1 : world)
    (t t1 : Table) :
  replace_data_table data_table w t = Ok (w1, t1) →
  get_schema w1 t1 = make_out_schema (data_table_get_schema data_table) ∧
  ∀ batch row_count op w2 t2 batch',
    init batch row_count op w1 t1 = Ok (w2, t2, batch') →
    m_gnode t2 = m_gnode t1 ∧
    gnodes w2 = gnodes w1 ∧
    get_schema w2 t2 = get_schema w1 t1 ∧
    pool_events w2 =
      pool_events w ++
        [EvRegister (length (gnodes w)) (pool_next_id w);
         EvSend (pool_next_id w) 0 data_table; EvProcess;
         EvSend (pool_next_id w) 0 batch'].
Proof.
  intros H.
  pose proof (replace_data_table_inv _ _ _ _ _ H) as (Hinit & _).
  destruct (make_out_schema (data_table_get_schema data_table)) as [os|e] eqn:Hos.
  2:{ unfold replace_data_table, make_gnode in H. rewrite Hinit, Hos in H.
      discriminate H. }
  rewrite (replace_data_table_run _ _ _ os Hinit Hos) in H.
  injection H as <- <-.
  assert (Hderef : deref_gnode (set_gnode (length (gnodes w)) t)
                     (mk_world (GLOBAL_TABLE_ID w)
                        (gnodes w ++
                           [mk_gnode (pool_next_id w) os
                              (data_table_get_schema data_table) true 0])
                        ((pool_next_id w, length (gnodes w)) :: pool_registry w)
                        (pool_next_id w + 1)
                        (pool_events w ++
                           [EvRegister (length (gnodes w)) (pool_next_id w);
                            EvSend (pool_next_id w) 0 data_table; EvProcess]))
                   = Ok (mk_gnode (pool_next_id w) os
                           (data_table_get_schema data_table) true 0)).
  { unfold deref_gnode. simpl. rewrite lookup_app_r by lia.
    rewrite Nat.sub_diag. reflexivity. }
  split.
  - unfold get_schema. simpl. rewrite Hinit. simpl. rewrite Hderef. reflexivity.
  - intros batch rc op w2 t2 batch' H2.
    assert (Hset : m_gnode_set (set_gnode (length (gnodes w)) t) = true)
      by reflexivity.
    destruct (init_set_inv _ _ _ _ _ _ _ _ Hset H2)
      as (Hg & Hnodes & _ & _ & (g & Hg' & Hev) & Hschema).
    rewrite Hderef in Hg'. injection Hg' as <-.
    split; [exact Hg|]. split; [exact Hnodes|].
    split; [apply Hschema; exact Hinit|].
    rewrite Hev. simpl. rewrite <- app_assoc. reflexivity.
Qed.

Lemma replace_then_ingest_witness :
  ∃ w1 t1,
    replace_data_table two_rows busy_world (busy_table 5) = Ok (w1, t1) ∧
    get_schema w1 t1 = Ok (mk_schema ["x"] [DTYPE_INT64]).
Proof.
  destruct (replace_data_table two_rows busy_world (busy_table 5))
    as [[w1 t1]|e] eqn:H; [|vm_compute in H; discriminate H].
  exists w1, t1. split; [reflexivity|].
  rewrite (proj1 (replace_then_ingest two_rows busy_world w1 (busy_table 5) t1 H)).
  reflexivity.
Defined.

(** X16.  [unregister_gnode] on an initialised table only tells the pool:
    it succeeds for every identifier, the table keeps its node, [size] and
    [get_schema] answer as before, and a following [init] still sends its
    block to the identifier of that node, also when that is the identifier
    just unregistered. *)
Theorem unregister_keeps_binding (id : Z) (w : world) (t : Table) :
  m_init t = true → m_gnode_set t = true →
  ∃ w1,
    unregister_gnode id w t = Ok w1 ∧
    (∀ addr, (id, addr) ∉ pool_registry w1) ∧
    size w1 t = size w t ∧
    get_schema w1 t = get_schema w t ∧
    ∀ batch row_count op w2 t2 batch',
      init batch row_count op w1 t = Ok (w2, t2, batch') →
      m_gnode t2 = m_gnode t ∧
      ∃ g, deref_gnode t w = Ok g ∧
           pool_events w2 =
             pool_events w ++ [EvUnregister id; EvSend (gn_id g) 0 batch'].
Proof.
  intros Hinit Hset. exists (pool_unregister_gnode id w).
  split; [unfold unregister_gnode; rewrite Hinit; reflexivity|].
  split.
  { intros addr Hin. simpl in Hin. apply list_elem_of_filter in Hin as [Hne _].
    apply Hne. reflexivity. }
  split; [reflexivity|]. split; [reflexivity|].
  intros batch rc op w2 t2 batch' H2.
  destruct (init_set_inv _ _ _ _ _ _ _ _ Hset H2)
    as (Hg & _ & _ & _ & (g & Hg' & Hev) & _).
  split; [exact Hg|]. exists g. split; [exact Hg'|].
  rewrite Hev. simpl. rewrite <- app_assoc. reflexivity.
Qed.

Lemma unregister_keeps_binding_witness :
  ∃ w1 w2 t2 d2,
    unregister_gnode 0 busy_world (busy_table 5) = Ok w1 ∧
    init one_row 1 OP_INSERT w1 (busy_table 5) = Ok (w2, t2, d2) ∧
    pool_events w2 = [EvRegister 0 0; EvUnregister 0; EvSend 0 0 d2].
Proof.
  destruct (unregister_keeps_binding 0 busy_world (busy_table 5) eq_refl eq_refl)
    as (w1 & Hun & _ & _ & _ & Hnext).
  destruct (init one_row 1 OP_INSERT w1 (busy_table 5))
    as [[[w2 t2] d2]|e] eqn:H2.
  - exists w1, w2, t2, d2. split; [exact Hun|]. split; [exact H2|].
    destruct (Hnext _ _ _ _ _ _ H2) as (_ & g & Hg & Hev).
    vm_compute in Hg. injection Hg as <-. exact Hev.
  - exfalso. vm_compute in Hun. injection Hun as <-.
    vm_compute in H2. discriminate H2.
Defined.

(** ** Streams of batches *)

(** X17.  An ingest with row count 0 leaves the offset of the ring where it
    was and still initialises the table; for a well-formed block without
    rows on a table without index column, the tag and the two key columns
    are there and empty. *)
Theorem empty_ingest (data_table : t_data_table) (op : t_op) (w w' : world)
    (t t' : Table) (data_table' : t_data_table) :
  0 ≤ m_offset t < m_limit t → m_limit t < 2 ^ 32 →
  init data_table 0 op w t = Ok (w', t', data_table') →
  m_offset t' = m_offset t ∧ m_init t' = true ∧
  (m_index t = EmptyString → wf_data_table data_table → dt_size data_table = 0%nat →
   column_cells data_table' "psp_op" = Some [] ∧
   column_cells data_table' "psp_pkey" = Some [] ∧
   column_cells data_table' "psp_okey" = Some []).
Proof.
  intros Ho Hl H.
  pose proof (init_offset _ _ _ _ _ _ _ _ H) as (_ & _ & Hoff).
  split.
  { rewrite Hoff, Z.add_0_r, wrap_uint32_small by lia. apply Z.mod_small. exact Ho. }
  split; [apply init_inv in H as (_ & _ & _ & _ & Hi & _); exact Hi|].
  intros Hindex Hwf Hsize.
  destruct (init_synthesized _ _ _ _ _ _ _ _ Hindex Hwf H) as [Hp Hk].
  rewrite Hsize in Hp, Hk. simpl in Hp, Hk.
  split; [|split; assumption].
  apply init_inv in H as (Hidx & _).
  destruct (process_op_column_cells op data_table Hwf) as [Hsome Hcells].
  assert (Hn1 : "psp_op" ≠ "psp_pkey") by discriminate.
  assert (Hn2 : "psp_op" ≠ "psp_okey") by discriminate.
  rewrite (process_index_column_keeps t _ _ "psp_op" Hn1 Hn2 Hsome Hidx),
    Hcells, Hsize.
  reflexivity.
Qed.

Lemma empty_ingest_witness :
  ∃ w' t' d',
    init (mk_data_table 0 []) 0 OP_INSERT busy_world (busy_table 5) = Ok (w', t', d') ∧
    m_offset t' = 5 ∧ column_cells d' "psp_pkey" = Some [].
Proof.
  destruct (init (mk_data_table 0 []) 0 OP_INSERT busy_world (busy_table 5))
    as [[[w' t'] d']|e] eqn:H; [|vm_compute in H; discriminate H].
  assert (Ho : 0 ≤ m_offset (busy_table 5) < m_limit (busy_table 5))
    by (vm_compute; split; [discriminate | reflexivity]).
  assert (Hl : m_limit (busy_table 5) < 2 ^ 32) by reflexivity.
  destruct (empty_ingest _ OP_INSERT busy_world w' (busy_table 5) t' d' Ho Hl H)
    as (Hoff & _ & Hcols).
  exists w', t', d'. split; [reflexivity|]. split; [exact Hoff|].
  apply Hcols; [reflexivity | constructor | reflexivity].
Defined.

Lemma ingest_all_identity (batches : list (t_data_table * Z * t_op)) :
  ∀ (w w' : world) (t t' : Table),
    ingest_all batches w t = Ok (w', t') → same_identity t t'.
Proof.
  induction batches as [|[[dt rc] op] batches IH]; intros w w' t t' H; simpl in H.
  - injection H as <- <-. repeat split.
  - apply bind_Ok in H as ([[w1 t1] dt1] & Hinit & H).
    apply init_inv in Hinit as (_ & _ & (I1 & I2 & I3 & I4) & _).
    apply IH in H as (J1 & J2 & J3 & J4). repeat split; congruence.
Qed.

(** X18.  After a sequence of ingests on a newly constructed table, the
    offset is the total number of rows modulo the limit, and the rows of
    the next batch get the keys of their positions in the whole stream:
    row [i] gets [(total + i) mod limit], provided the limit is at most
    [2 ^ 31] and no row count is so large that a 32-bit sum wraps. *)
Theorem keys_follow_stream_position (pool : nat) (column_names : list string)
    (data_types : list t_dtype) (limit : Z) (w0 : world)
    (batches : list (t_data_table * Z * t_op))
    (w w' : world) (t t' : Table)
    (next : t_data_table) (row_count : Z) (op : t_op) (next' : t_data_table) :
  0 < limit ≤ 2 ^ 31 →
  Forall (fits_ring limit) batches →
  wf_data_table next → Z.of_nat (dt_size next) + limit ≤ 2 ^ 32 →
  let wt0 := Table_new pool column_names data_types limit EmptyString w0 in
  ingest_all batches wt0.1 wt0.2 = Ok (w, t) →
  init next row_count op w t = Ok (w', t', next') →
  m_offset t = total_rows batches mod limit ∧
  column_cells next' "psp_pkey" =
    Some ((λ i : nat, (total_rows batches + Z.of_nat i) mod limit)
            <$> seq 0 (dt_size next)) ∧
  column_cells next' "psp_okey" =
    Some ((λ i : nat, (total_rows batches + Z.of_nat i) mod limit)
            <$> seq 0 (dt_size next)).
Proof.
  intros Hlimit Hfit Hwf Hsize wt0 Hall H.
  assert (Hl0 : m_limit wt0.2 = limit) by (simpl; apply wrap_uint32_small; lia).
  pose proof (ingest_all_identity _ _ _ _ _ Hall) as (_ & _ & _ & Hindex).
  destruct (ingest_all_offset batches _ _ _ _ ltac:(rewrite Hl0; simpl; lia)
              ltac:(rewrite Hl0; exact Hfit) Hall) as [Hl Ho].
  rewrite Hl0 in Hl, Ho. simpl in Ho, Hindex. rewrite ?Z.add_0_l in Ho.
  split; [exact Ho|].
  destruct (init_synthesized _ _ _ _ _ _ _ _ Hindex Hwf H) as [Hp Hk].
  assert (Hkeys : synthesized_key t <$> seq 0 (dt_size next) =
                  (λ i : nat, (total_rows batches + Z.of_nat i) mod limit)
                    <$> seq 0 (dt_size next)).
  { apply list_fmap_ext. intros k i Hi. apply lookup_seq in Hi as [-> Hlt]. simpl.
    pose proof (Z.mod_pos_bound (total_rows batches) limit ltac:(lia)) as Hb.
    rewrite synthesized_key_exact; rewrite ?Hl, ?Ho; try lia.
    - rewrite Zplus_mod_idemp_r. f_equal. lia.
    - pose proof (Z.mod_pos_bound (Z.of_nat k + total_rows batches mod limit) limit
                    ltac:(lia)). lia. }
  rewrite <- Hkeys. split; assumption.
Qed.

Lemma keys_follow_stream_position_witness :
  ∃ w t w' t' d',
    ingest_all [(one_row, 1, OP_INSERT); (two_rows, 2, OP_DELETE)] ring2.1 ring2.2
      = Ok (w, t) ∧
    init two_rows 2 OP_INSERT w t = Ok (w', t', d') ∧
    m_offset t = 1 ∧ column_cells d' "psp_pkey" = Some [1; 0].
Proof.
  destruct (ingest_all [(one_row, 1, OP_INSERT); (two_rows, 2, OP_DELETE)]
              ring2.1 ring2.2) as [[w t]|e] eqn:Hall;
    [|vm_compute in Hall; discriminate Hall].
  assert (Hall' := Hall). vm_compute in Hall'. injection Hall' as Hw Ht.
  destruct (init two_rows 2 OP_INSERT w t) as [[[w' t'] d']|e] eqn:H;
    [|rewrite <- Hw, <- Ht in H; vm_compute in H; discriminate H].
  assert (Hlimit : 0 < 2 ≤ 2 ^ 31) by lia.
  assert (Hfit : Forall (fits_ring 2)
                   [(one_row, 1, OP_INSERT); (two_rows, 2, OP_DELETE)]).
  { repeat constructor; vm_compute; discriminate. }
  assert (Hwf : wf_data_table two_rows) by (repeat constructor).
  assert (Hsize : Z.of_nat (dt_size two_rows) + 2 ≤ 2 ^ 32) by (vm_compute; discriminate).
  destruct (keys_follow_stream_position 0%nat ["x"] [DTYPE_INT64] 2 empty_world
              [(one_row, 1, OP_INSERT); (two_rows, 2, OP_DELETE)]
              w w' t t' two_rows 2 OP_INSERT d' Hlimit Hfit Hwf Hsize Hall H)
    as (Ho & Hp & _).
  exists w, t, w', t', d'. split; [reflexivity|]. split; [exact H|].
  split; [exact Ho | exact Hp].
Defined.

(** ** A key whose 32-bit sum wraps *)

Lemma rows_batch_ingest (n row_count : Z) (op : t_op) (w : world) (t : Table) :
  0 ≤ n < 2 ^ 32 → m_limit t ≠ 0 → m_index t = EmptyString →
  m_gnode_set t = false ∨ gnode_bound w t →
  ∃ w' t' d',
    init (rows_batch n) row_count op w t = Ok (w', t', d') ∧
    column_cells d' "psp_pkey" = Some (synthesized_key t <$> seq 0 (Z.to_nat n)) ∧
    column_cells d' "psp_okey" = Some (synthesized_key t <$> seq 0 (Z.to_nat n)).
Proof.
  intros Hn Hl Hindex Hg.
  destruct (init_succeeds (rows_batch n) row_count op w t) as (w' & t' & d' & H).
  - exact Hl.
  - unfold rows_batch. simpl. lia.
  - unfold rows_batch, dt_names. simpl. apply NoDup_singleton.
  - apply index_of_None. reflexivity.
  - apply index_of_None. reflexivity.
  - apply index_of_None. reflexivity.
  - left. exact Hindex.
  - exact Hg.
  - exists w', t', d'. split; [exact H|].
    assert (Hwf : wf_data_table (rows_batch n)).
    { unfold wf_data_table, rows_batch. simpl. apply Forall_singleton. simpl.
      apply length_replicate. }
    exact (init_synthesized _ _ _ _ _ _ _ _ Hindex Hwf H).
Qed.

Lemma synthesized_key_lookup (t : Table) (n z : Z) :
  0 ≤ z < n →
  (synthesized_key t <$> seq 0 (Z.to_nat n)) !! Z.to_nat z =
  Some (wrap_int32 (wrap_uint32 (z + m_offset t) mod m_limit t)).
Proof.
  intros Hz. rewrite list_lookup_fmap, lookup_seq_lt by lia. simpl.
  unfold synthesized_key. rewrite Z2Nat.id by lia. reflexivity.
Qed.

(** The claim C10 as written fails where the 32-bit sum wraps.  A new table
    of capacity [2 ^ 32 - 1] without index column takes in [2 ^ 32 - 2]
    rows and is at offset [2 ^ 32 - 2]; in a next batch of [2 ^ 31 + 2]
    rows the key of row [2 ^ 31 + 1] is
    [(2 ^ 31 + 1 + offset) mod limit = 2 ^ 31], above [2 ^ 31 - 1], and the
    primary-key column holds [2 ^ 31 - 1] there, not the negative number
    [2 ^ 31 - 2 ^ 32]. *)
Lemma wrapped_sum_key_stored_positive :
  ∃ w1 t1 d1 w2 t2 d2 pkeys,
    init (rows_batch (2 ^ 32 - 2)) (2 ^ 32 - 2) OP_INSERT unbounded.1 unbounded.2
      = Ok (w1, t1, d1) ∧
    m_index t1 = EmptyString ∧ m_offset t1 = 2 ^ 32 - 2 ∧ m_limit t1 = 2 ^ 32 - 1 ∧
    init (rows_batch (2 ^ 31 + 2)) (2 ^ 31 + 2) OP_INSERT w1 t1 = Ok (w2, t2, d2) ∧
    (2 ^ 31 + 1 + m_offset t1) mod m_limit t1 = 2 ^ 31 ∧
    column_cells d2 "psp_pkey" = Some pkeys ∧
    pkeys !! Z.to_nat (2 ^ 31 + 1) = Some (2 ^ 31 - 1) ∧
    pkeys !! Z.to_nat (2 ^ 31 + 1) ≠
      Some ((2 ^ 31 + 1 + m_offset t1) mod m_limit t1 - 2 ^ 32).
Proof.
  destruct (offset_reachable (2 ^ 32 - 2)) as (w1 & t1 & d1 & H1 & Ho & Hl & Hi & _ & Hb).
  { unfold UINT32_MAX. lia. }
  unfold UINT32_MAX in Hl.
  assert (Hn : 0 ≤ 2 ^ 31 + 2 < 2 ^ 32) by lia.
  assert (Hl0 : m_limit t1 ≠ 0) by (rewrite Hl; discriminate).
  destruct (rows_batch_ingest (2 ^ 31 + 2) (2 ^ 31 + 2) OP_INSERT w1 t1 Hn Hl0 Hi
              (or_intror Hb)) as (w2 & t2 & d2 & H2 & Hp & _).
  assert (Hz : 0 ≤ 2 ^ 31 + 1 < 2 ^ 31 + 2) by lia.
  pose proof (synthesized_key_lookup t1 (2 ^ 31 + 2) (2 ^ 31 + 1) Hz) as Hlook.
  rewrite Ho, Hl in Hlook.
  assert (Hval : wrap_int32 (wrap_uint32 (2 ^ 31 + 1 + (2 ^ 32 - 2)) mod (2 ^ 32 - 1))
                 = 2 ^ 31 - 1) by reflexivity.
  rewrite Hval in Hlook.
  eexists w1, t1, d1, w2, t2, d2, _.
  split; [exact H1|]. split; [exact Hi|]. split; [exact Ho|]. split; [exact Hl|].
  split; [exact H2|].
  split; [rewrite Ho, Hl; reflexivity|].
  split; [exact Hp|].
  split; [exact Hlook|].
  rewrite Hlook, Ho, Hl. intros Heq. injection Heq as Heq.
  revert Heq. clear. intros Heq. vm_compute in Heq. discriminate Heq.
Qed.

(** ** [replace_data_table] and the stale position of [make_gnode] *)

Lemma replace_data_table_cases (data_table : t_data_table) (w : world) (t : Table) :
  m_init t = true →
  is_ok (replace_data_table data_table w t) = true ∨
  (make_out_schema (data_table_get_schema data_table) = Err EraseOutOfRange ∧
   replace_data_table data_table w t = Err EraseOutOfRange).
Proof.
  intros Hinit.
  destruct (make_out_schema (data_table_get_schema data_table)) as [os|e] eqn:Hos.
  - left. rewrite (replace_data_table_run _ _ _ os Hinit Hos). reflexivity.
  - right.
    assert (He : e = EraseOutOfRange).
    { apply (make_gnode_error (data_table_get_schema data_table) w).
      unfold make_gnode. rewrite Hos. reflexivity. }
    subst e. split; [reflexivity|].
    unfold replace_data_table, make_gnode. rewrite Hinit, Hos. reflexivity.
Qed.

(** C4.  The claim fails on an initialised table for a block that lists the
    primary-key column before an operation column that comes last:
    [replace_data_table] calls [make_gnode], which erases at the position
    the operation column had before the primary-key column was erased, past
    the end of the vector; no node is bound, nothing is sent.  On the same
    table a block of user columns is rebound as the claim says, and this
    erasure is the only way the call can fail once the table is
    initialised. *)
Theorem replace_data_table_stale_index :
  ingested [CallInit one_row 1 OP_INSERT] ring3 = true ∧
  m_init ring3_ingested.2 = true ∧
  data_table_get_schema op_last_block = op_last_schema ∧
  replace_data_table op_last_block ring3_ingested.1 ring3_ingested.2
    = Err EraseOutOfRange ∧
  (∃ w' t',
     replace_data_table two_rows ring3_ingested.1 ring3_ingested.2 = Ok (w', t') ∧
     m_gnode ring3_ingested.2 = Some 0%nat ∧ m_gnode t' = Some 1%nat ∧
     get_id t' = get_id ring3_ingested.2 ∧
     m_offset t' = m_offset ring3_ingested.2 ∧
     m_limit t' = m_limit ring3_ingested.2 ∧
     pool_events w' =
       pool_events ring3_ingested.1 ++
         [EvRegister 1 1; EvSend 1 0 two_rows; EvProcess]) ∧
  (∀ data_table w t,
     m_init t = true →
     is_ok (replace_data_table data_table w t) = true ∨
     replace_data_table data_table w t = Err EraseOutOfRange).
Proof.
  split; [reflexivity|]. split; [reflexivity|]. split; [reflexivity|].
  split; [reflexivity|]. split.
  - eexists _, _. split; [reflexivity|]. repeat split.
  - intros data_table w t Hinit.
    destruct (replace_data_table_cases data_table w t Hinit) as [Hok|[_ Herr]];
      [left; exact Hok | right; exact Herr].
Qed.

Lemma replace_data_table_stale_index_witness :
  is_ok (replace_data_table pkey_first_block busy_world (busy_table 5)) = true ∨
  replace_data_table pkey_first_block busy_world (busy_table 5) = Err EraseOutOfRange.
Proof.
  destruct replace_data_table_stale_index as (_ & _ & _ & _ & _ & Hcases).
  apply Hcases. reflexivity.
Defined.
